(** * comfypack: the model-path inference engine

    A shallow embedding of [model_path_inference.py] (the source visitor,
    the class-mapping loader, the tree scanner, the folder heuristic and the
    orchestrator) and of the model part of [workflow_processor.py], with the
    properties the specification states about them; then of the rest of the
    pipeline around it: [extract_models_from_node] and [extract_nodes] of
    [workflow_processor.py], the repository lookup of [channels.py], the
    URL cache of [model_url_cache.py] and [find_model_online] of
    [model_finder.py], with further properties of the code.

    Conventions of the embedding:
    - Python [str] is [string]; [dict]s whose iteration order is never
      observed are [gmap]s, the per-class folder dictionary (whose first
      value is picked and which is emitted in the output) is an
      insertion-ordered association list;
    - a method of [ModelPathInference] is a computation in the monad [M]:
      it threads the object and the trace of file-system and logging
      events, and may raise;
    - the two library functions the code relies on and that are not part of
      the repository, [ast.parse] and [str.lower], are parameters;
    - the literals of the syntax trees are string literals; the part of
      [infer_model_paths] that settles the folder of a model is also given
      for folder dictionaries of any values ([FolderResolution]). *)

From stdpp Require Import base option list sorting strings gmap.

(** ** Strings *)

Module Str.

(** [s.startswith(prefix)] *)
Fixpoint startswith (s prefix : string) : bool :=
  match prefix, s with
  | EmptyString, _ => true
  | String _ _, EmptyString => false
  | String a prefix', String b s' =>
      if decide (a = b) then startswith s' prefix' else false
  end.

(** [needle in s], for strings *)
Fixpoint contains (needle s : string) : bool :=
  startswith s needle ||
  match s with
  | EmptyString => false
  | String _ s' => contains needle s'
  end.

(** What [needle in s] means: [needle] occurs as a contiguous run. *)
Definition substring (needle s : string) : Prop :=
  ∃ before after, s = before +:+ needle +:+ after.

(** [str.lower] on the ASCII range: the letters A-Z are shifted to a-z. *)
Definition lower_ascii (c : Ascii.ascii) : Ascii.ascii :=
  let n := Ascii.nat_of_ascii c in
  if (65 <=? n) && (n <=? 90) then Ascii.ascii_of_nat (n + 32) else c.

Fixpoint lower (s : string) : string :=
  match s with
  | EmptyString => EmptyString
  | String c s' => String (lower_ascii c) (lower s')
  end.

(** A Python value used as a condition: the empty string is false. *)
Definition truthy (s : string) : bool :=
  match s with EmptyString => false | _ => true end.

(** [s.endswith(suffix)] *)
Fixpoint endswith (s suffix : string) : bool :=
  bool_decide (s = suffix) ||
  match s with
  | EmptyString => false
  | String _ s' => endswith s' suffix
  end.

End Str.

(** ** Insertion-ordered dictionaries

    [Dict[str, str]] where the order of the entries is observable:
    [d[k] = v] keeps the position of an existing key and appends a new one. *)

Module ODict.

Abbreviation t := (list (string * string)).

Fixpoint set (k v : string) (d : t) : t :=
  match d with
  | [] => [(k, v)]
  | (k', v') :: d' => if decide (k' = k) then (k, v) :: d' else (k', v') :: set k v d'
  end.

Definition values (d : t) : list string := snd <$> d.

(** [next(iter(d.values()))] on a non-empty dictionary *)
Definition first_value (d : t) : option string := head (values d).

(** [bool(d)] *)
Definition truthy (d : t) : bool :=
  match d with [] => false | _ => true end.

End ODict.

(** ** Syntax trees

    The node kinds the visitors tell apart, with their child fields in the
    order of [_fields] (the order in which [generic_visit] and
    [iter_child_nodes] go through them). Every other kind of node
    (statements, expressions, [arguments], [keyword], ...) is [Other] with
    its children in field order. The literals of the embedding are string
    literals, and the expression contexts ([Load], [Store]), which no visitor
    looks at, are left out. *)

#[warnings="-register-all"]
Inductive node : Type :=
| Module (body : list node)
| ClassDef (name : string) (bases keywords body decorator_list : list node)
| FunctionDef (name : string) (args : node) (body decorator_list : list node)
              (returns : option node)
| Assign (targets : list node) (value : node)
| Call (func : node) (args keywords : list node)
| Attribute (value : node) (attr : string)
| Name (id : string)
| Constant (value : string)
| Dict (keys : list (option node)) (values : list node)
| Other (children : list node).

(** [ast.iter_child_nodes] *)
Definition iter_child_nodes (n : node) : list node :=
  match n with
  | Module body => body
  | ClassDef _ bases keywords body decorator_list =>
      bases ++ keywords ++ body ++ decorator_list
  | FunctionDef _ args body decorator_list returns =>
      args :: body ++ decorator_list ++ option_list returns
  | Assign targets value => targets ++ [value]
  | Call func args keywords => func :: args ++ keywords
  | Attribute value _ => [value]
  | Name _ | Constant _ => []
  | Dict keys values => omap id keys ++ values
  | Other children => children
  end.

(** ** The source visitor *)

Module NodeVisitor.

Record t := mk {
  class_folders : gmap string ODict.t;
  current_class : option string
}.

(** [NodeVisitor(source_file)] *)
Definition __init__ : t := mk ∅ None.

(** The match of [visit_Call]: [folder_paths.get_filename_list(<literal>, ...)]. *)
Definition folder_argument (func : node) (args : list node) : option string :=
  match func, args with
  | Attribute (Name ns) attr, Constant folder_name :: _ =>
      if decide (ns = "folder_paths" ∧ attr = "get_filename_list")
      then Some folder_name else None
  | _, _ => None
  end.

(** The body of the [if] of [visit_Call]. *)
Definition record_folder (folder_name : string) (self : t) : t :=
  match current_class self with
  | Some cls =>
      if Str.truthy cls then
        let folders := default [] (class_folders self !! cls) in
        mk (<[cls := ODict.set folder_name folder_name folders]> (class_folders self))
           (current_class self)
      else self
  | None => self
  end.

(** The test of the loop of [visit_ClassDef]: a [FunctionDef] named
    [INPUT_TYPES] with a bare [classmethod] decorator. *)
Definition is_classmethod (dec : node) : bool :=
  match dec with Name id => bool_decide (id = "classmethod") | _ => false end.

Definition is_INPUT_TYPES (item : node) : bool :=
  match item with
  | FunctionDef name _ _ decorator_list _ =>
      bool_decide (name = "INPUT_TYPES") && existsb is_classmethod decorator_list
  | _ => false
  end.

Section Traversal.
Variable visit : node → t → t.

Definition visit_all (l : list node) (self : t) : t :=
  fold_left (λ self child, visit child self) l self.

(** [generic_visit]: visit the children, field by field. *)
Definition generic_visit_with (n : node) (self : t) : t :=
  match n with
  | Module body => visit_all body self
  | ClassDef _ bases keywords body decorator_list =>
      visit_all decorator_list
        (visit_all body (visit_all keywords (visit_all bases self)))
  | FunctionDef _ args body decorator_list returns =>
      let self := visit_all decorator_list (visit_all body (visit args self)) in
      match returns with Some r => visit r self | None => self end
  | Assign targets value => visit value (visit_all targets self)
  | Call func args keywords =>
      visit_all keywords (visit_all args (visit func self))
  | Attribute value _ => visit value self
  | Name _ | Constant _ => self
  | Dict keys values =>
      visit_all values
        (fold_left (λ self k, match k with Some k => visit k self | None => self end)
                   keys self)
  | Other children => visit_all children self
  end.
End Traversal.

(** [visit]: dispatch on the node kind to [visit_ClassDef], [visit_Call]
    or [generic_visit]. *)
Fixpoint visit (n : node) (self : t) {struct n} : t :=
  match n with
  | ClassDef name bases keywords body decorator_list =>
      (* visit_ClassDef *)
      let self := mk (class_folders self) (Some name) in
      let self :=
        fold_left (λ self item,
                     if is_INPUT_TYPES item
                     then (* _find_folders_in_method *) generic_visit_with visit item self
                     else self)
                  body self in
      generic_visit_with visit n self
  | Call func args keywords =>
      (* visit_Call *)
      let self :=
        match folder_argument func args with
        | Some folder_name => record_folder folder_name self
        | None => self
        end in
      generic_visit_with visit n self
  | _ => generic_visit_with visit n self
  end.

Definition generic_visit : node → t → t := generic_visit_with visit.

End NodeVisitor.

(** [ast.walk]: breadth-first, the node itself first. The queue is run for
    as many steps as the tree has nodes. *)
Fixpoint node_size (n : node) : nat :=
  S (match n with
     | Module body => sum_list_with node_size body
     | ClassDef _ bases keywords body decorator_list =>
         sum_list_with node_size bases + sum_list_with node_size keywords +
         sum_list_with node_size body + sum_list_with node_size decorator_list
     | FunctionDef _ args body decorator_list returns =>
         node_size args + sum_list_with node_size body +
         sum_list_with node_size decorator_list +
         match returns with Some r => node_size r | None => 0 end
     | Assign targets value => sum_list_with node_size targets + node_size value
     | Call func args keywords =>
         node_size func + sum_list_with node_size args + sum_list_with node_size keywords
     | Attribute value _ => node_size value
     | Name _ | Constant _ => 0
     | Dict keys values =>
         sum_list_with (λ k, match k with Some k => node_size k | None => 0 end) keys +
         sum_list_with node_size values
     | Other children => sum_list_with node_size children
     end).

Fixpoint walk_queue (steps : nat) (todo : list node) : list node :=
  match steps, todo with
  | S steps, n :: todo => n :: walk_queue steps (todo ++ iter_child_nodes n)
  | _, _ => []
  end.

Definition walk (tree : node) : list node := walk_queue (node_size tree) [tree].

(** ** The source tree, exceptions and events *)

(** A path, as its [parts]. *)
Definition Path := list string.

(** An entry of [custom_nodes_path.rglob("*.py")]: its path and what
    [open(...).read()] gives there, [None] when opening or decoding it
    raises (a directory named [x.py], a file that is not UTF-8, ...). *)
Record SourceFile := {
  file_path : Path;
  file_content : option string
}.

Inductive exn :=
| OSError (file_path : Path)
| SyntaxError
| KeyError (key : string).

(** What the code does to the outside: the files it opens, the texts it
    hands to [ast.parse], and its [logger.error] lines (each with the
    exception it formats into the message). The [info] and [debug] lines
    are not traced. The worker threads' events are traced in the order the
    tasks are submitted. *)
Inductive event :=
| EvOpen (file_path : Path)
| EvParse (file_path : Path)
| EvErrorLoading (e : exn)
| EvErrorAnalyzing (file_path : Path) (e : exn).

(** ** The monad of methods: object state, event trace, exceptions *)

Definition M (S A : Type) : Type := S * list event → (exn + A) * (S * list event).

Module Monad.
Section Ops.
Context {S : Type}.

Definition ret {A} (x : A) : M S A := λ w, (inr x, w).

Definition bind {A B} (m : M S A) (k : A → M S B) : M S B :=
  λ w, match m w with
       | (inr x, w') => k x w'
       | (inl e, w') => (inl e, w')
       end.

Definition raise {A} (e : exn) : M S A := λ w, (inl e, w).

(** [try: body except Exception as e: handler(e)] *)
Definition try_except {A} (body : M S A) (handler : exn → M S A) : M S A :=
  λ w, match body w with
       | (inr x, w') => (inr x, w')
       | (inl e, w') => handler e w'
       end.

Definition get : M S S := λ w, (inr w.1, w).

Definition modify (f : S → S) : M S () := λ w, (inr (), (f w.1, w.2)).

Definition emit (ev : event) : M S () := λ w, (inr (), (w.1, w.2 ++ [ev])).
End Ops.
End Monad.

#[global] Instance M_ret {S} : MRet (M S) := @Monad.ret S.
#[global] Instance M_bind {S} : MBind (M S) := λ A B k m, Monad.bind m k.

(** [for x in l: body(x)] *)
Fixpoint for_ {S A} (l : list A) (body : A → M S ()) : M S () :=
  match l with
  | [] => mret ()
  | x :: l' => body x;; for_ l' body
  end.

(** [[f(x) for x in l]] *)
Fixpoint for_list {S A B} (l : list A) (f : A → M S B) : M S (list B) :=
  match l with
  | [] => mret []
  | x :: l' => y ← f x; ys ← for_list l' f; mret (y :: ys)
  end.

(** ** The manifest and the result *)

(** The input dictionary; a key may be missing. *)
Module Manifest.
Record model := {
  filename : option string;
  needed_by : option (list string)
}.
Record t := { models : option (list model) }.
End Manifest.

Module Output.
Record evidence := {
  model_folders : ODict.t;
  source_file : string;
  node_class : option string;
  display_name : option string
}.
Record model := {
  filename : string;
  required_by : list string;
  node_info : option evidence;
  inferred_path : option string
}.
(** The value of the key [models] of the result. *)
Abbreviation t := (list model).
End Output.

(** ** ModelPathInference *)

Module ModelPathInference.

(** The object. [custom_nodes_path] stands for the directory through what
    [rglob("*.py")] lists under it, in the order of the listing. *)
Record t := mk {
  custom_nodes_path : list SourceFile;
  node_class_folders : gmap string ODict.t;
  required_node_types : gset string;
  node_class_mappings : gmap string string
}.

Definition __init__ (custom_nodes_path : list SourceFile) : t :=
  mk custom_nodes_path ∅ ∅ ∅.

Definition set_node_class_folders (f : gmap string ODict.t → gmap string ODict.t)
    (self : t) : t :=
  mk (custom_nodes_path self) (f (node_class_folders self))
     (required_node_types self) (node_class_mappings self).

Definition set_required_node_types (r : gset string) (self : t) : t :=
  mk (custom_nodes_path self) (node_class_folders self) r (node_class_mappings self).

Definition set_node_class_mappings (f : gmap string string → gmap string string)
    (self : t) : t :=
  mk (custom_nodes_path self) (node_class_folders self)
     (required_node_types self) (f (node_class_mappings self)).

Definition MODEL_PATTERNS : list (string * string) :=
  [ ("vae", "vae");
    ("lora", "loras");
    ("embedding", "embeddings");
    ("checkpoint", "checkpoints");
    ("upscale", "upscale_models");
    ("controlnet", "controlnet");
    ("clip", "clip");
    ("hypernetwork", "hypernetworks");
    ("t2i", "checkpoints");
    ("sd", "checkpoints") ].

(** The loop of [_guess_model_folder] over [MODEL_PATTERNS.items()]. *)
Fixpoint first_pattern (items : list (string * string)) (filename_lower : string)
    : option string :=
  match items with
  | [] => None
  | (pattern, folder) :: items' =>
      if Str.contains pattern filename_lower then Some folder
      else first_pattern items' filename_lower
  end.

(** [self.node_class_mappings.get(display_name, display_name)] *)
Definition mapped_class (self : t) (display_name : string) : string :=
  default display_name (node_class_mappings self !! display_name).

(** [all(node_type in self.node_class_folders for node_type in self.required_node_types)] *)
Definition all_required_found (self : t) : bool :=
  forallb (λ node_type, bool_decide (is_Some (node_class_folders self !! node_type)))
          (elements (required_node_types self)).

(** A value of type [Optional[str]] used as a condition. *)
Definition truthy (inferred_folder : option string) : bool :=
  match inferred_folder with Some s => Str.truthy s | None => false end.

(** The loop of [infer_model_paths] over [model["needed_by"]], up to its
    [break]: the inferred folder and the [node_info] it leaves. *)
Fixpoint folder_from_classes (self : t) (needed_by : list string)
    : option string * option Output.evidence :=
  match needed_by with
  | [] => (None, None)
  | display_name :: needed_by' =>
      let node_type := mapped_class self display_name in
      match node_class_folders self !! node_type with
      | Some folders =>
          if ODict.truthy folders then
            (ODict.first_value folders,
             Some {| Output.model_folders := folders;
                     Output.source_file := "found_in_class_definition";
                     Output.node_class := Some node_type;
                     Output.display_name := Some display_name |})
          else folder_from_classes self needed_by'
      | None => folder_from_classes self needed_by'
      end
  end.

Section Methods.
(** [ast.parse], [None] where it raises; [str.lower]. *)
Variable ast_parse : string → option node.
Variable str_lower : string → string.

(** [with open(file_path, "r", encoding="utf-8") as f: content = f.read()] *)
Definition read (file : SourceFile) : M t string :=
  Monad.emit (EvOpen (file_path file));;
  match file_content file with
  | Some content => mret content
  | None => Monad.raise (OSError (file_path file))
  end.

(** [ast.parse(content)] *)
Definition parse (file : SourceFile) (content : string) : M t node :=
  Monad.emit (EvParse (file_path file));;
  match ast_parse content with
  | Some tree => mret tree
  | None => Monad.raise SyntaxError
  end.

(** The body of the loop of [_load_node_class_mappings] over the files. *)
Definition load_file (file : SourceFile) : M t () :=
  content ← read file;
  if negb (Str.contains "NODE_CLASS_MAPPINGS" content) then mret () (* continue *)
  else
    tree ← parse file content;
    for_ (walk tree) (λ node,
      match node with
      | Assign [Name target] (Dict keys values) =>
          if decide (target = "NODE_CLASS_MAPPINGS") then
            for_ (zip keys values) (λ kv,
              match kv with
              | (Some (Constant key), Name value) =>
                  Monad.modify (set_node_class_mappings <[key := value]>)
              | _ => mret ()
              end)
          else mret ()
      | _ => mret ()
      end).

(** The [try] is around the loop. *)
Definition _load_node_class_mappings : M t () :=
  Monad.try_except
    (self ← Monad.get;
     for_ (custom_nodes_path self) load_file)
    (λ e, Monad.emit (EvErrorLoading e)).

(** [part.startswith(".")] for some part of the path *)
Definition hidden (path : Path) : bool :=
  existsb (λ part, Str.startswith part ".") path.

Definition _find_python_files (self : t) : list SourceFile :=
  filter (λ file, negb (hidden (file_path file))) (custom_nodes_path self).

Definition _analyze_file (file : SourceFile) : M t (gmap string ODict.t) :=
  Monad.try_except
    (content ← read file;
     if negb (Str.contains "INPUT_TYPES" content) then mret ∅
     else
       tree ← parse file content;
       let visitor := NodeVisitor.visit tree NodeVisitor.__init__ in
       (* a non-empty [class_folders] is returned, an empty one falls
          through to the final [return {}] *)
       if bool_decide (NodeVisitor.class_folders visitor ≠ ∅)
       then mret (NodeVisitor.class_folders visitor)
       else mret ∅)
    (λ e, Monad.emit (EvErrorAnalyzing (file_path file) e);; mret ∅).

(** The loop of [_analyze_node_classes] over the gathered results. *)
Fixpoint merge_results (results : list (gmap string ODict.t)) : M t () :=
  match results with
  | [] => mret ()
  | class_folders :: results' =>
      (* self.node_class_folders.update(class_folders) *)
      Monad.modify (set_node_class_folders (λ m, class_folders ∪ m));;
      self ← Monad.get;
      if bool_decide (required_node_types self ≠ ∅) && all_required_found self
      then mret () (* break *)
      else merge_results results'
  end.

(** One task per file is submitted and [asyncio.gather] awaits them all:
    it gives the results in the order of the tasks. *)
Definition _analyze_node_classes : M t () :=
  self ← Monad.get;
  let python_files := _find_python_files self in
  results ← for_list python_files _analyze_file;
  merge_results results.

Definition _guess_model_folder (filename : string) : option string :=
  let filename_lower := str_lower filename in
  first_pattern MODEL_PATTERNS filename_lower.

(** [model["filename"]], [model["needed_by"]] *)
Definition get_filename (model : Manifest.model) : M t string :=
  match Manifest.filename model with
  | Some v => mret v
  | None => Monad.raise (KeyError "filename")
  end.

Definition get_needed_by (model : Manifest.model) : M t (list string) :=
  match Manifest.needed_by model with
  | Some v => mret v
  | None => Monad.raise (KeyError "needed_by")
  end.

(** [models_data.get("models", [])] *)
Definition get_models (models_data : Manifest.t) : list Manifest.model :=
  default [] (Manifest.models models_data).

(** The body of the loop of [infer_model_paths] over the models. *)
Definition infer_model (model : Manifest.model) : M t Output.model :=
  filename ← get_filename model;
  required_by ← get_needed_by model;
  needed_by ← get_needed_by model;
  self ← Monad.get;
  let '(inferred_folder, node_info) := folder_from_classes self needed_by in
  let '(inferred_folder, node_info) :=
    if negb (truthy inferred_folder) then
      match _guess_model_folder filename with
      | Some folder =>
          if Str.truthy folder then
            (Some folder,
             Some {| Output.model_folders := [(folder, folder)];
                     Output.source_file := "guessed_from_filename";
                     Output.node_class := None;
                     Output.display_name := None |})
          else (Some folder, node_info)
      | None => (None, node_info)
      end
    else (inferred_folder, node_info) in
  mret {| Output.filename := filename;
          Output.required_by := required_by;
          Output.node_info := node_info;
          Output.inferred_path :=
            match inferred_folder with
            | Some folder =>
                if Str.truthy folder
                then Some ("models/" +:+ folder +:+ "/" +:+ filename)
                else None
            | None => None
            end |}.

Definition infer_model_paths (models_data : Manifest.t) : M t Output.t :=
  _load_node_class_mappings;;
  self ← Monad.get;
  required ← for_list (get_models models_data) (λ model,
                needed_by ← get_needed_by model;
                mret (mapped_class self <$> needed_by));
  Monad.modify (set_required_node_types (list_to_set (concat required)));;
  _analyze_node_classes;;
  for_list (get_models models_data) infer_model.

End Methods.

End ModelPathInference.

(** ** The folder of a model, whatever the folder dictionaries hold

    [visit_Call] takes the value of any constant as a folder name, and the
    part of [infer_model_paths] that settles the folder of a model, the
    loop over [model["needed_by"]] and the fallback that follows it, looks
    at a folder through its truth value only. Here that part is given for
    folder dictionaries with keys and values of any type [V], with
    [bool(value)] as a parameter. On dictionaries of strings it is
    [folder_from_classes] and the fallback of [infer_model]. *)

Module FolderResolution.
Section FolderResolution.
Context {V : Type}.
(** [bool(value)]; [str.lower] *)
Variable truthy : V → bool.
Variable str_lower : string → string.

(** [model_info.node_info] *)
Inductive node_info :=
| found_in_class_definition (model_folders : list (V * V))
                            (node_class display_name : string)
| guessed_from_filename (inferred_folder : string).

(** [inferred_folder] when it is not [None]: the value of a folder
    dictionary, or the string of the heuristic. *)
Inductive folder :=
| class_folder (value : V)
| guessed_folder (value : string).

(** [bool(folders)], [next(iter(folders.values()))] *)
Definition dict_truthy (folders : list (V * V)) : bool :=
  match folders with [] => false | _ => true end.

Definition first_value (folders : list (V * V)) : option V := head folders.*2.

(** [not inferred_folder] after the loop *)
Definition falsy (inferred_folder : option V) : bool :=
  match inferred_folder with Some value => negb (truthy value) | None => true end.

(** The loop over [model["needed_by"]], up to its [break]. *)
Fixpoint folder_from_classes (node_class_mappings : gmap string string)
    (node_class_folders : gmap string (list (V * V))) (needed_by : list string)
    : option V * option node_info :=
  match needed_by with
  | [] => (None, None)
  | display_name :: needed_by' =>
      let node_type := default display_name (node_class_mappings !! display_name) in
      match node_class_folders !! node_type with
      | Some folders =>
          if dict_truthy folders then
            (first_value folders,
             Some (found_in_class_definition folders node_type display_name))
          else folder_from_classes node_class_mappings node_class_folders needed_by'
      | None => folder_from_classes node_class_mappings node_class_folders needed_by'
      end
  end.

(** The loop and the fallback to the filename: [inferred_folder] and
    [model_info.node_info] when the record is built. *)
Definition resolve (node_class_mappings : gmap string string)
    (node_class_folders : gmap string (list (V * V))) (filename : string)
    (needed_by : list string) : option folder * option node_info :=
  let '(inferred_folder, node_info) :=
    folder_from_classes node_class_mappings node_class_folders needed_by in
  if falsy inferred_folder then
    match ModelPathInference._guess_model_folder str_lower filename with
    | Some inferred_folder =>
        if Str.truthy inferred_folder
        then (Some (guessed_folder inferred_folder),
              Some (guessed_from_filename inferred_folder))
        else (Some (guessed_folder inferred_folder), node_info)
    | None => (None, node_info)
    end
  else (class_folder <$> inferred_folder, node_info).

(** [display_name], at position [j] of the requiring node types, is the
    first one whose class [node_type] has a non-empty folder dictionary
    [folders]. *)
Definition first_hit (node_class_mappings : gmap string string)
    (node_class_folders : gmap string (list (V * V))) (needed_by : list string)
    (j : nat) (display_name node_type : string) (folders : list (V * V)) : Prop :=
  needed_by !! j = Some display_name ∧
  node_type = default display_name (node_class_mappings !! display_name) ∧
  node_class_folders !! node_type = Some folders ∧
  folders ≠ [] ∧
  ∀ j' d, j' < j → needed_by !! j' = Some d →
    node_class_folders !! default d (node_class_mappings !! d) = None ∨
    node_class_folders !! default d (node_class_mappings !! d) = Some [].

End FolderResolution.

(** On dictionaries of strings: the [node_info] and the [inferred_path] of
    the record. *)
Definition evidence (info : node_info (V := string)) : Output.evidence :=
  match info with
  | found_in_class_definition folders node_class display_name =>
      {| Output.model_folders := folders;
         Output.source_file := "found_in_class_definition";
         Output.node_class := Some node_class;
         Output.display_name := Some display_name |}
  | guessed_from_filename inferred_folder =>
      {| Output.model_folders := [(inferred_folder, inferred_folder)];
         Output.source_file := "guessed_from_filename";
         Output.node_class := None;
         Output.display_name := None |}
  end.

Definition folder_name (inferred_folder : folder (V := string)) : string :=
  match inferred_folder with class_folder value | guessed_folder value => value end.

Definition record (filename : string) (required_by : list string)
    (resolved : option (folder (V := string)) * option (node_info (V := string)))
    : Output.model :=
  {| Output.filename := filename;
     Output.required_by := required_by;
     Output.node_info := evidence <$> resolved.2;
     Output.inferred_path :=
       match resolved.1 with
       | Some inferred_folder =>
           if Str.truthy (folder_name inferred_folder)
           then Some ("models/" +:+ folder_name inferred_folder +:+ "/" +:+ filename)
           else None
       | None => None
       end |}.

End FolderResolution.

(** ** ChannelManager: the node type to repository lookup *)

Module ChannelManager.

(** The object, once [populate_repo_mappings] has filled [repo_mappings]. *)
Record t := mk { repo_mappings : gmap string string }.

Definition KNOWN_NODES : list (string * string) :=
  [ ("rgthree", "https://github.com/rgthree/rgthree-comfy");
    ("crystools", "https://github.com/crystian/ComfyUI-Crystools") ].

(** A value of type [Optional[str]] used as a condition. *)
Definition truthy (repo : option string) : bool :=
  match repo with Some s => Str.truthy s | None => false end.

(** What [extension-node-map.json] gives for a repository: a list whose
    first element is the list of the node names, an empty list, or a value
    that is not a list. *)
Inductive nodes_info :=
| NodesInfo (nodes : list string)
| EmptyInfo
| OtherInfo.

(** The body of the inner loops of [populate_repo_mappings] for one
    repository of a channel. *)
Definition add_repo (repo_map : gmap string string) (repo_url : string)
    (info : nodes_info) : gmap string string :=
  match info with
  | NodesInfo nodes => foldl (λ repo_map node, <[node := repo_url]> repo_map) repo_map nodes
  | EmptyInfo | OtherInfo => repo_map
  end.

Definition add_channel (repo_map : gmap string string)
    (mappings : list (string * nodes_info)) : gmap string string :=
  foldl (λ repo_map entry, add_repo repo_map entry.1 entry.2) repo_map mappings.

Section Methods.
Variable str_lower : string → string.
(** [get_node_mappings], the fetch of a channel's map: the items of the
    dictionary it returns, [inl] when the request or its decoding raises. *)
Variable get_node_mappings : string → exn + list (string * nodes_info).

(** The loop of [find_repo_by_pattern] over [KNOWN_NODES.items()]. *)
Fixpoint first_known (items : list (string * string)) (node_type : string)
    : option string :=
  match items with
  | [] => None
  | (pattern, repo) :: items' =>
      if Str.contains (str_lower pattern) (str_lower node_type) then Some repo
      else first_known items' node_type
  end.

Definition find_repo_by_pattern (node_type : string) : option string :=
  first_known KNOWN_NODES node_type.

(** The loop of [populate_repo_mappings] over the channels: the map built,
    or the exception of the first channel whose fetch raises. *)
Fixpoint populate_from (channels : list (string * string))
    (repo_map : gmap string string) : exn + gmap string string :=
  match channels with
  | [] => inr repo_map
  | (channel_name, channel_url) :: channels' =>
      match get_node_mappings channel_url with
      | inl e => inl e
      | inr mappings => populate_from channels' (add_channel repo_map mappings)
      end
  end.

(** [populate_repo_mappings], from the channels [get_channel_urls] gave:
    [self.repo_mappings] is assigned when the loops are over. *)
Definition populate_repo_mappings (channels : list (string * string)) : exn + t :=
  match populate_from channels ∅ with
  | inl e => inl e
  | inr repo_map => inr (mk repo_map)
  end.

Definition get_repo_from_node_type (self : t) (node_type : string) : option string :=
  let repo := repo_mappings self !! node_type in
  if negb (truthy repo) then find_repo_by_pattern node_type else repo.

End Methods.

End ChannelManager.

(** ** The transform pipeline: [transform_nodes_data] *)

Module WorkflowProcessor.

(** An element of the list [extract_nodes] returns. *)
Record node_data := {
  type : string;
  model : list string;
  repo : option string
}.

Record RepoInfo := { url : string; repo_needed_by : list string }.
Record ModelInfo := { filename : string; needed_by : list string }.
Record NodesData := {
  node_types : list string;
  unmapped_nodes : list string;
  repos : list RepoInfo;
  models : list ModelInfo
}.

(** [sorted(list(s))] for a set of strings *)
Definition sorted (s : gset string) : list string :=
  merge_sort String.le (elements s).

(** [if key not in d: d[key] = {..., "needed_by": set()}] followed by
    [d[key]["needed_by"].add(node_type)], on an insertion-ordered
    dictionary. *)
Fixpoint add_needed_by (key node_type : string) (d : list (string * gset string))
    : list (string * gset string) :=
  match d with
  | [] => [(key, {[ node_type ]})]
  | (key', needed_by) :: d' =>
      if decide (key' = key) then (key', needed_by ∪ {[ node_type ]}) :: d'
      else (key', needed_by) :: add_needed_by key node_type d'
  end.

Definition transform_nodes_data (nodes : list node_data) : NodesData :=
  let node_types := sorted (list_to_set (type <$> nodes)) in
  let unmapped_nodes :=
    sorted (list_to_set
              (type <$> filter (λ node, bool_decide (repo node = None)) nodes)) in
  let repos_dict :=
    fold_left (λ repos_dict node,
                 match repo node with
                 | Some r => if Str.truthy r then add_needed_by r (type node) repos_dict
                             else repos_dict
                 | None => repos_dict
                 end) nodes [] in
  let models_dict :=
    fold_left (λ models_dict node,
                 fold_left (λ models_dict model,
                              add_needed_by model (type node) models_dict)
                           (model node) models_dict) nodes [] in
  {| node_types := node_types;
     unmapped_nodes := unmapped_nodes;
     repos := (λ '(u, needed_by), {| url := u; repo_needed_by := sorted needed_by |})
                <$> repos_dict;
     models := (λ '(f, needed_by), {| filename := f; needed_by := sorted needed_by |})
                 <$> models_dict |}.

(** The dictionary [transform_nodes_data] returns, as the argument of
    [infer_model_paths]: the key [models] and the keys of its entries are
    all present. *)
Definition as_manifest (data : NodesData) : Manifest.t :=
  {| Manifest.models :=
       Some ((λ m, {| Manifest.filename := Some (filename m);
                      Manifest.needed_by := Some (needed_by m) |}) <$> models data) |}.

(** *** [extract_models_from_node] and [extract_nodes] *)

(** A widget value: the code tells strings from the rest. *)
Inductive widget_value :=
| WString (s : string)
| WOther.

(** A node of the workflow; a key may be missing. *)
Record workflow_node := {
  node_type : option string;
  widgets_values : option (list widget_value)
}.

Record group_data := { group_nodes : option (list workflow_node) }.

(** The items of [groupNodes], in the order of the dictionary. *)
Record extra_data := { groupNodes : option (list (string * group_data)) }.

Record workflow := {
  nodes : option (list workflow_node);
  extra : option extra_data
}.

Definition model_extensions : list string :=
  [".safetensors"; ".pt"; ".pth"; ".onnx"; ".bin"; ".ckpt"].

(** The value a stable sort by type gives: [insert_by_type] puts a node
    before the first node whose type is not smaller. *)
Fixpoint insert_by_type (x : node_data) (l : list node_data) : list node_data :=
  match l with
  | [] => [x]
  | y :: l' =>
      if bool_decide (String.le (type x) (type y)) then x :: y :: l'
      else y :: insert_by_type x l'
  end.

(** [sorted(results, key=lambda x: x["type"])] *)
Definition sorted_by_type (results : list node_data) : list node_data :=
  foldr insert_by_type [] results.

Section Extraction.
Variable str_lower : string → string.

(** [isinstance(value, str) and value.lower().endswith(model_extensions)]:
    the filename a widget value contributes. *)
Definition model_file (value : widget_value) : option string :=
  match value with
  | WString s =>
      if existsb (Str.endswith (str_lower s)) model_extensions then Some s else None
  | WOther => None
  end.

(** The set is listed in an order the language does not fix; nothing below
    depends on the order [elements] gives. *)
Definition extract_models_from_node (node : workflow_node) : list string :=
  let model_files : gset string :=
    list_to_set (omap model_file (default [] (widgets_values node))) in
  elements model_files.

(** The loop of [extract_nodes] over [all_nodes]. *)
Fixpoint extract_results (channel_manager : ChannelManager.t)
    (group_node_types : gset string) (all_nodes : list workflow_node)
    : exn + list node_data :=
  match all_nodes with
  | [] => inr []
  | node :: all_nodes' =>
      match node_type node with
      | None => inl (KeyError "type")
      | Some node_type =>
          if decide (node_type ∈ group_node_types)
          then extract_results channel_manager group_node_types all_nodes' (* continue *)
          else
            let repo :=
              ChannelManager.get_repo_from_node_type str_lower channel_manager node_type in
            let model := extract_models_from_node node in
            match extract_results channel_manager group_node_types all_nodes' with
            | inl e => inl e
            | inr results =>
                inr ({| type := node_type; model := model; repo := repo |} :: results)
            end
      end
  end.

(** [workflow_data.get("extra", {}).get("groupNodes", {}).items()] *)
Definition group_items (workflow_data : workflow) : list (string * group_data) :=
  match extra workflow_data with
  | Some e => default [] (groupNodes e)
  | None => []
  end.

Definition extract_nodes (workflow_data : workflow) (channel_manager : ChannelManager.t)
    : exn + list node_data :=
  let groups := group_items workflow_data in
  let group_node_types : gset string := list_to_set (fst <$> groups) in
  let all_nodes :=
    default [] (nodes workflow_data) ++
    concat ((λ g, default [] (group_nodes g.2)) <$> groups) in
  match extract_results channel_manager group_node_types all_nodes with
  | inl e => inl e
  | inr results => inr (sorted_by_type results)
  end.

End Extraction.

End WorkflowProcessor.

(** ** ModelURLCache and ModelFinder *)

Module ModelURLCache.

(** The cache file, by what reading it gives: no file; a file that [open]
    or [json.load] raises on; a file holding the JSON of a dictionary. *)
Inductive file_state :=
| Missing
| Unreadable
| Holds (saved : gmap string string).

(** The file and whether [open(cache_file, 'w')] succeeds. *)
Record Disk := {
  file : file_state;
  writable : bool
}.

(** The [logger.error] lines of the class. *)
Inductive log_line :=
| ErrorLoadingCache
| ErrorSavingCache.

Record t := mk { cache : gmap string string }.

Definition _load_cache (self : t) (disk : Disk) : t * list log_line :=
  match file disk with
  | Missing => (self, [])
  | Holds saved => (mk saved, [])
  | Unreadable => (mk ∅, [ErrorLoadingCache])
  end.

Definition __init__ (disk : Disk) : t * list log_line :=
  _load_cache (mk ∅) disk.

Definition _save_cache (self : t) (disk : Disk) : Disk * list log_line :=
  if writable disk
  then ({| file := Holds (cache self); writable := writable disk |}, [])
  else (disk, [ErrorSavingCache]).

Definition get (self : t) (model_filename : string) : option string :=
  cache self !! model_filename.

Definition put (self : t) (model_filename url : string) (disk : Disk)
    : t * Disk * list log_line :=
  let self := mk (<[model_filename := url]> (cache self)) in
  let '(disk, log) := _save_cache self disk in
  (self, disk, log).

End ModelURLCache.

Module ModelFinder.

(** The object: its cache, and whether [setup] has opened a page. *)
Record t := mk {
  cache : ModelURLCache.t;
  _page : bool
}.

(** The loop of [find_model_online] over the result elements, each given
    by what [_extract_url] returns for it: the first URL that is not empty
    and contains "huggingface.co". *)
Fixpoint first_huggingface (urls : list (option string)) : option string :=
  match urls with
  | [] => None
  | Some url :: urls' =>
      if Str.truthy url && Str.contains "huggingface.co" url then Some url
      else first_huggingface urls'
  | None :: urls' => first_huggingface urls'
  end.

Section Methods.
(** The web search for a filename: what [_extract_url] returns for each
    result element of the page, in their order; [None] when the navigation
    or the query raises. *)
Variable search : string → option (list (option string)).

Definition find_model_online (self : t) (disk : ModelURLCache.Disk) (filename : string)
    : option string * (t * ModelURLCache.Disk) :=
  let cached_url := ModelURLCache.get (cache self) filename in
  if ChannelManager.truthy cached_url then (cached_url, (self, disk))
  else if negb (_page self) then (None, (self, disk))
  else
    match search filename with
    | None => (None, (self, disk)) (* except Exception: return None *)
    | Some urls =>
        match first_huggingface urls with
        | Some url =>
            let '(cache, disk, _) := ModelURLCache.put (cache self) filename url disk in
            (Some url, (mk cache (_page self), disk))
        | None => (None, (self, disk))
        end
    end.

End Methods.

End ModelFinder.

(** ** Running a method *)

(** The result and the final object and trace of a method called on [self]. *)
Definition run {S A} (m : M S A) (self : S) : (exn + A) * (S * list event) :=
  m (self, []).

(** ** The properties, in the words of the specification *)

Module Spec.
Import ModelPathInference.

(** The pattern table of the folder heuristic, in the order the
    specification lists it. *)
Definition heuristic_table : list (string * string) :=
  [ ("vae", "vae"); ("lora", "loras"); ("embedding", "embeddings");
    ("checkpoint", "checkpoints"); ("upscale", "upscale_models");
    ("controlnet", "controlnet"); ("clip", "clip");
    ("hypernetwork", "hypernetworks"); ("t2i", "checkpoints");
    ("sd", "checkpoints") ].

(** [folder] belongs to the first pattern of the table that occurs in [s]. *)
Definition first_match (table : list (string * string)) (s folder : string) : Prop :=
  ∃ i pattern,
    table !! i = Some (pattern, folder) ∧ Str.substring pattern s ∧
    ∀ j p f, j < i → table !! j = Some (p, f) → ¬ Str.substring p s.

Definition no_match (table : list (string * string)) (s : string) : Prop :=
  ∀ p f, (p, f) ∈ table → ¬ Str.substring p s.

(** The class-derived hit of a model: [display_name], at position [j] of
    its requiring node types, is the first one whose class [node_type] has
    a non-empty folder set [folders] in the ClassFolderMap. *)
Definition first_class_hit (self : t) (needed_by : list string) (j : nat)
    (display_name node_type : string) (folders : ODict.t) : Prop :=
  needed_by !! j = Some display_name ∧
  node_type = default display_name (node_class_mappings self !! display_name) ∧
  node_class_folders self !! node_type = Some folders ∧
  folders ≠ [] ∧
  ∀ j' d, j' < j → needed_by !! j' = Some d →
    node_class_folders self !! default d (node_class_mappings self !! d) = None ∨
    node_class_folders self !! default d (node_class_mappings self !! d) = Some [].

(** No requiring node type resolves to an entry of the ClassFolderMap. *)
Definition no_class_entry (self : t) (needed_by : list string) : Prop :=
  ∀ d, d ∈ needed_by →
    node_class_folders self !! default d (node_class_mappings self !! d) = None.

(** The record of a model resolved from its class. *)
Definition class_derived_record (filename : string) (needed_by : list string)
    (display_name node_type : string) (folders : ODict.t) (folder : string)
    : Output.model :=
  {| Output.filename := filename;
     Output.required_by := needed_by;
     Output.node_info :=
       Some {| Output.model_folders := folders;
               Output.source_file := "found_in_class_definition";
               Output.node_class := Some node_type;
               Output.display_name := Some display_name |};
     Output.inferred_path := Some ("models/" +:+ folder +:+ "/" +:+ filename) |}.

(** The record of a model whose class gives evidence and no path. *)
Definition class_evidence_record (filename : string) (needed_by : list string)
    (display_name node_type : string) (folders : ODict.t) : Output.model :=
  {| Output.filename := filename;
     Output.required_by := needed_by;
     Output.node_info :=
       Some {| Output.model_folders := folders;
               Output.source_file := "found_in_class_definition";
               Output.node_class := Some node_type;
               Output.display_name := Some display_name |};
     Output.inferred_path := None |}.

(** The accumulated map after the first [k] per-file results were merged
    into [m], each overwriting the keys it has. *)
Definition merged (k : nat) (results : list (gmap string ODict.t))
    (m : gmap string ODict.t) : gmap string ODict.t :=
  fold_left (λ m class_folders, class_folders ∪ m) (take k results) m.

(** The accumulated map covers every required class name, of a non-empty
    set of them. *)
Definition covers (required : gset string) (m : gmap string ODict.t) : Prop :=
  required ≠ ∅ ∧ ∀ node_type, node_type ∈ required → is_Some (m !! node_type).

(** The path of an event about a file. *)
Definition event_path (ev : event) : option Path :=
  match ev with
  | EvOpen p | EvParse p | EvErrorAnalyzing p _ => Some p
  | EvErrorLoading _ => None
  end.

(** The tree has a class definition somewhere. *)
Fixpoint has_class (n : node) : bool :=
  match n with
  | ClassDef _ _ _ _ _ => true
  | Module body => existsb has_class body
  | FunctionDef _ args body decorator_list returns =>
      has_class args || existsb has_class body || existsb has_class decorator_list ||
      match returns with Some r => has_class r | None => false end
  | Assign targets value => existsb has_class targets || has_class value
  | Call func args keywords =>
      has_class func || existsb has_class args || existsb has_class keywords
  | Attribute value _ => has_class value
  | Name _ | Constant _ => false
  | Dict keys values =>
      existsb (λ k, match k with Some k => has_class k | None => false end) keys ||
      existsb has_class values
  | Other children => existsb has_class children
  end.

(** The aliases a registration assignment gives, in the order of its
    entries; the aliases of a tree, in the order [ast.walk] meets them; the
    aliases of a file, none when it lacks the marker. *)
Definition node_aliases (n : node) : list (string * string) :=
  match n with
  | Assign [Name target] (Dict keys values) =>
      if decide (target = "NODE_CLASS_MAPPINGS") then
        omap (λ kv, match kv with
                    | (Some (Constant key), Name value) => Some (key, value)
                    | _ => None
                    end) (zip keys values)
      else []
  | _ => []
  end.

Definition tree_aliases (tree : node) : list (string * string) :=
  concat (node_aliases <$> walk tree).

Definition file_aliases (ast_parse : string → option node) (file : SourceFile)
    : list (string * string) :=
  match file_content file with
  | Some content =>
      if Str.contains "NODE_CLASS_MAPPINGS" content
      then from_option tree_aliases [] (ast_parse content)
      else []
  | None => []
  end.

(** Assigning aliases one after the other: the last assignment of a display
    name wins. *)
Definition assign_all (aliases : list (string * string)) (m : gmap string string)
    : gmap string string :=
  foldl (λ m kv, <[kv.1 := kv.2]> m) m aliases.

(** A file the loader gets through: it can be read, and it parses when it
    has the marker. *)
Definition loadable (ast_parse : string → option node) (file : SourceFile) : bool :=
  match file_content file with
  | Some content =>
      if Str.contains "NODE_CLASS_MAPPINGS" content
      then bool_decide (is_Some (ast_parse content))
      else true
  | None => false
  end.

(** What the loader does to a file it gets through, and to one it does
    not. *)
Definition load_events (ast_parse : string → option node) (file : SourceFile)
    : list event :=
  match file_content file with
  | Some content =>
      if Str.contains "NODE_CLASS_MAPPINGS" content
      then [EvOpen (file_path file); EvParse (file_path file)]
      else [EvOpen (file_path file)]
  | None => [EvOpen (file_path file)]
  end.

Definition load_failure (file : SourceFile) : exn :=
  match file_content file with
  | Some _ => SyntaxError
  | None => OSError (file_path file)
  end.

End Spec.

(** ** Source trees and manifests used as examples *)

Module Examples.

Definition get_filename_list (folder : string) : node :=
  Call (Attribute (Name "folder_paths") "get_filename_list") [Constant folder] [].

(** [(cls)] and [(self)]: an [arguments] node with one [arg]. *)
Definition one_argument : node := Other [Other []].

(** A class whose [INPUT_TYPES] classmethod returns a dictionary with one
    entry, the tuple of the file list of [folder]. *)
Definition node_class_text (folder : string) : string :=
  "class Loader:
    @classmethod
    def INPUT_TYPES(cls):
        return {'name': (folder_paths.get_filename_list('" +:+ folder +:+ "'),)}
".

Definition node_class_tree (folder : string) : node :=
  Module
    [ClassDef "Loader" [] []
       [FunctionDef "INPUT_TYPES" one_argument
          [Other [Dict [Some (Constant "name")] [Other [get_filename_list folder]]]]
          [Name "classmethod"] None]
       []].

(** A class followed by a qualifying call at module level. *)
Definition module_level_text : string :=
  "class A:
    @classmethod
    def INPUT_TYPES(cls):
        return {}
names = folder_paths.get_filename_list('vae')
".

Definition module_level_tree : node :=
  Module
    [ClassDef "A" [] []
       [FunctionDef "INPUT_TYPES" one_argument [Other [Dict [] []]]
          [Name "classmethod"] None]
       [];
     Assign [Name "names"] (get_filename_list "vae")].

(** A qualifying call alone at module level. *)
Definition bare_call_text : string :=
  "# INPUT_TYPES
names = folder_paths.get_filename_list('vae')
".

Definition bare_call_tree : node :=
  Module [Assign [Name "names"] (get_filename_list "vae")].

(** A class with a qualifying call in a method, in a file that does not
    spell the marker. *)
Definition no_marker_text : string :=
  "class Loader:
    def names(self):
        return folder_paths.get_filename_list('vae')
".

Definition no_marker_tree : node :=
  Module
    [ClassDef "Loader" [] []
       [FunctionDef "names" one_argument [Other [get_filename_list "vae"]] [] None]
       []].

(** A registration table, and a file that ends in the middle of one. *)
Definition mappings_text : string :=
  "NODE_CLASS_MAPPINGS = {'MyNode': ActualClass}
".

Definition mappings_tree : node :=
  Module [Assign [Name "NODE_CLASS_MAPPINGS"]
                 (Dict [Some (Constant "MyNode")] [Name "ActualClass"])].

Definition broken_text : string := "NODE_CLASS_MAPPINGS = {".

(** [ast.parse] on the texts above; [broken_text] is a syntax error. *)
Definition ast_parse (content : string) : option node :=
  if decide (content = node_class_text "") then Some (node_class_tree "")
  else if decide (content = node_class_text "loras") then Some (node_class_tree "loras")
  else if decide (content = module_level_text) then Some module_level_tree
  else if decide (content = bare_call_text) then Some bare_call_tree
  else if decide (content = no_marker_text) then Some no_marker_tree
  else if decide (content = mappings_text) then Some mappings_tree
  else None.

Definition file (path : Path) (content : string) : SourceFile :=
  {| file_path := path; file_content := Some content |}.

Definition model (filename : string) (needed_by : list string) : Manifest.model :=
  {| Manifest.filename := Some filename; Manifest.needed_by := Some needed_by |}.

Definition manifest (models : list Manifest.model) : Manifest.t :=
  {| Manifest.models := Some models |}.

Definition nodes_py : Path := ["custom_nodes"; "pack"; "nodes.py"].

(** Two packages, the first of which does not parse or cannot be read. *)
Definition broken_py : SourceFile :=
  file ["custom_nodes"; "a"; "__init__.py"] broken_text.

Definition unreadable_py : SourceFile :=
  {| file_path := ["custom_nodes"; "a"; "__init__.py"]; file_content := None |}.

Definition mappings_py : SourceFile :=
  file ["custom_nodes"; "b"; "__init__.py"] mappings_text.

(** A registration table below a hidden directory. *)
Definition hidden_py : SourceFile :=
  file ["custom_nodes"; ".cache"; "nodes.py"] mappings_text.

Definition checkpoint_manifest : Manifest.t :=
  manifest [model "my_checkpoint.safetensors" ["Loader"]].

(** Two files that declare folders, for a manifest that needs the class of
    the first only. *)
Definition two_packs : list SourceFile :=
  [file ["custom_nodes"; "a"; "nodes.py"] (node_class_text "loras");
   file ["custom_nodes"; "b"; "nodes.py"] module_level_text].

(** What [extract_nodes] gives for a workflow with a loader node that names
    two model files, a second loader that names one of them, and a node
    that names none. *)
Definition workflow_nodes : list WorkflowProcessor.node_data :=
  [ {| WorkflowProcessor.type := "LoraLoader";
       WorkflowProcessor.model := ["style.safetensors"; "base.ckpt"];
       WorkflowProcessor.repo := None |};
    {| WorkflowProcessor.type := "CheckpointLoader";
       WorkflowProcessor.model := ["base.ckpt"];
       WorkflowProcessor.repo := Some "https://github.com/comfyanonymous/ComfyUI" |};
    {| WorkflowProcessor.type := "SaveImage";
       WorkflowProcessor.model := [];
       WorkflowProcessor.repo := Some "https://github.com/comfyanonymous/ComfyUI" |} ].

(** [ModelPathInference(custom_nodes_path)._load_node_class_mappings()] *)
Definition load (tree : list SourceFile)
    : (exn + ()) * (ModelPathInference.t * list event) :=
  run (ModelPathInference._load_node_class_mappings ast_parse)
      (ModelPathInference.__init__ tree).

(** [ModelPathInference(custom_nodes_path)._analyze_node_classes()] *)
Definition scan (tree : list SourceFile)
    : (exn + ()) * (ModelPathInference.t * list event) :=
  run (ModelPathInference._analyze_node_classes ast_parse)
      (ModelPathInference.__init__ tree).

(** [ModelPathInference(custom_nodes_path).infer_model_paths(models_data)] *)
Definition infer (tree : list SourceFile) (models_data : Manifest.t)
    : (exn + Output.t) * (ModelPathInference.t * list event) :=
  run (ModelPathInference.infer_model_paths ast_parse Str.lower models_data)
      (ModelPathInference.__init__ tree).

(** A workflow with two loader nodes and an instance of a group, whose
    definition has a loader node of its own; a channel manager that knows
    the repository of one of the types. *)
Definition workflow_data : WorkflowProcessor.workflow :=
  {| WorkflowProcessor.nodes :=
       Some [ {| WorkflowProcessor.node_type := Some "LoraLoader";
                 WorkflowProcessor.widgets_values :=
                   Some [WorkflowProcessor.WString "Style.SafeTensors";
                         WorkflowProcessor.WOther;
                         WorkflowProcessor.WString "notes.txt"] |};
              {| WorkflowProcessor.node_type := Some "MyGroup";
                 WorkflowProcessor.widgets_values := None |};
              {| WorkflowProcessor.node_type := Some "CheckpointLoader";
                 WorkflowProcessor.widgets_values :=
                   Some [WorkflowProcessor.WString "base.ckpt"] |} ];
     WorkflowProcessor.extra :=
       Some {| WorkflowProcessor.groupNodes :=
                 Some [("MyGroup",
                        {| WorkflowProcessor.group_nodes :=
                             Some [ {| WorkflowProcessor.node_type :=
                                         Some "CheckpointLoader";
                                       WorkflowProcessor.widgets_values := None |} ] |})]
            |} |}.

Definition channel_manager : ChannelManager.t :=
  ChannelManager.mk {[ "LoraLoader" := "https://github.com/example/loaders" ]}.

End Examples.

(** ** Invariants and what the remaining properties are stated with *)

Module Props.
Import ModelPathInference.

(** A method keeps [P] of the object, whether it returns or raises, and
    what it returns satisfies [Q]. *)
Definition keeps {S A} (P : S → Prop) (m : M S A) (Q : A → Prop) : Prop :=
  ∀ w r w', m w = (r, w') → P w.1 → P w'.1 ∧ ∀ x, r = inr x → Q x.

(** The shape of a folder dictionary the visitor builds: not empty, every
    key its own value, no key twice. *)
Definition folders_ok (folders : ODict.t) : Prop :=
  folders ≠ [] ∧ Forall (λ kv, kv.1 = kv.2) folders ∧ NoDup (folders.*1).

Definition class_folders_ok (m : gmap string ODict.t) : Prop :=
  ∀ cls folders, m !! cls = Some folders → folders_ok folders.

(** A file that contributes nothing: it cannot be read, it lacks the
    marker, or it does not parse. *)
Definition contributes_nothing (ast_parse : string → option node) (file : SourceFile)
    : Prop :=
  match file_content file with
  | Some content =>
      Str.contains "INPUT_TYPES" content = false ∨ ast_parse content = None
  | None => True
  end.

(** The record of a model resolved from its filename. *)
Definition guessed_record (filename : string) (needed_by : list string)
    (folder : string) : Output.model :=
  {| Output.filename := filename;
     Output.required_by := needed_by;
     Output.node_info :=
       Some {| Output.model_folders := [(folder, folder)];
               Output.source_file := "guessed_from_filename";
               Output.node_class := None;
               Output.display_name := None |};
     Output.inferred_path := Some ("models/" +:+ folder +:+ "/" +:+ filename) |}.

(** What holds of every record: a path comes with its evidence, and is
    built from the first folder of the evidence, which is not empty. *)
Definition record_ok (r : Output.model) : Prop :=
  (Output.node_info r = None → Output.inferred_path r = None) ∧
  ∀ path, Output.inferred_path r = Some path →
    ∃ info folder,
      Output.node_info r = Some info ∧
      ODict.first_value (Output.model_folders info) = Some folder ∧
      folder ≠ "" ∧
      path = "models/" +:+ folder +:+ "/" +:+ Output.filename r.

(** The dictionary [d] groups the pairs: its keys are the first components
    of the pairs, each once, and a key holds the second components of its
    pairs. *)
Definition groups (d : list (string * gset string)) (pairs : list (string * string))
    : Prop :=
  NoDup d.*1 ∧
  (∀ k t, (k, t) ∈ pairs → k ∈ d.*1) ∧
  ∀ k s, (k, s) ∈ d → s ≠ ∅ ∧ ∀ t, t ∈ s ↔ (k, t) ∈ pairs.

(** The pairs of a model file and the type of a node that names it, and of
    a repository and the type of a node that comes from it, in the order
    [transform_nodes_data] meets them. *)
Definition model_pairs (nodes : list WorkflowProcessor.node_data)
    : list (string * string) :=
  nodes ≫= λ node,
    (λ model, (model, WorkflowProcessor.type node)) <$> WorkflowProcessor.model node.

Definition repo_pairs (nodes : list WorkflowProcessor.node_data)
    : list (string * string) :=
  nodes ≫= λ node,
    match WorkflowProcessor.repo node with
    | Some r => if Str.truthy r then [(r, WorkflowProcessor.type node)] else []
    | None => []
    end.

(** The nodes [extract_nodes] goes through: the nodes of the workflow, then
    those of the group definitions, in the order of the definitions. *)
Definition all_nodes (workflow_data : WorkflowProcessor.workflow)
    : list WorkflowProcessor.workflow_node :=
  default [] (WorkflowProcessor.nodes workflow_data) ++
  concat ((λ g, default [] (WorkflowProcessor.group_nodes g.2)) <$>
            WorkflowProcessor.group_items workflow_data).

(** The record of a node of type [node_type]. *)
Definition node_record (str_lower : string → string)
    (channel_manager : ChannelManager.t) (node : WorkflowProcessor.workflow_node)
    (node_type : string) : WorkflowProcessor.node_data :=
  {| WorkflowProcessor.type := node_type;
     WorkflowProcessor.model := WorkflowProcessor.extract_models_from_node str_lower node;
     WorkflowProcessor.repo :=
       ChannelManager.get_repo_from_node_type str_lower channel_manager node_type |}.

(** The records of the nodes whose type is not the name of a group
    definition, one for each such node, in the order of the nodes. *)
Definition kept_records (str_lower : string → string)
    (channel_manager : ChannelManager.t) (workflow_data : WorkflowProcessor.workflow)
    : list WorkflowProcessor.node_data :=
  omap (λ node,
          match WorkflowProcessor.node_type node with
          | Some node_type =>
              if decide (node_type ∈ (WorkflowProcessor.group_items workflow_data).*1)
              then None
              else Some (node_record str_lower channel_manager node node_type)
          | None => None
          end) (all_nodes workflow_data).

(** The order of the records by their type. *)
Definition type_le (x y : WorkflowProcessor.node_data) : Prop :=
  String.le (WorkflowProcessor.type x) (WorkflowProcessor.type y).

(** The node names a channel lists with their repository, in the order
    [populate_repo_mappings] assigns them. *)
Definition listed (mappings : list (string * ChannelManager.nodes_info))
    : list (string * string) :=
  mappings ≫= λ entry,
    match entry.2 with
    | ChannelManager.NodesInfo nodes => (λ node, (node, entry.1)) <$> nodes
    | ChannelManager.EmptyInfo | ChannelManager.OtherInfo => []
    end.

(** [KNOWN_NODES] with its patterns in lower case. *)
Definition known_patterns (str_lower : string → string) : list (string * string) :=
  (λ entry, (str_lower entry.1, entry.2)) <$> ChannelManager.KNOWN_NODES.

(** What the analysis of a file returns. *)
Definition file_result (ast_parse : string → option node) (file : SourceFile)
    : gmap string ODict.t :=
  match file_content file with
  | Some content =>
      if Str.contains "INPUT_TYPES" content then
        match ast_parse content with
        | Some tree => NodeVisitor.class_folders (NodeVisitor.visit tree NodeVisitor.__init__)
        | None => ∅
        end
      else ∅
  | None => ∅
  end.

(** The nodes of a tree: the tree itself and the children of its nodes. *)
Inductive inside (tree : node) : node → Prop :=
| inside_root : inside tree tree
| inside_child n c : inside tree n → c ∈ iter_child_nodes n → inside tree c.

(** The state in which [visit] goes through the children of a node: after
    [visit_ClassDef] has set the current class and gone through the
    [INPUT_TYPES] classmethods, after [visit_Call] has recorded the folder. *)
Definition before_children (n : node) (self : NodeVisitor.t) : NodeVisitor.t :=
  match n with
  | ClassDef name _ _ body _ =>
      fold_left (λ self item,
                   if NodeVisitor.is_INPUT_TYPES item
                   then NodeVisitor.generic_visit_with NodeVisitor.visit item self
                   else self)
                body (NodeVisitor.mk (NodeVisitor.class_folders self) (Some name))
  | Call func args _ =>
      match NodeVisitor.folder_argument func args with
      | Some folder_name => NodeVisitor.record_folder folder_name self
      | None => self
      end
  | _ => self
  end.

(** The folder is recorded for some class; the visitor is in a class. *)
Definition recorded (folder_name : string) (self : NodeVisitor.t) : Prop :=
  ∃ cls folders,
    NodeVisitor.class_folders self !! cls = Some folders ∧ folder_name ∈ folders.*1.

Definition in_class (self : NodeVisitor.t) : Prop :=
  ∃ cls, NodeVisitor.current_class self = Some cls ∧ cls ≠ "".

End Props.

(** ** Proof automation *)

(** Unfold the operations of [M] in the goal. *)
Ltac unfold_M :=
  unfold mbind, mret, M_bind, M_ret, Monad.bind, Monad.ret, Monad.raise,
    Monad.try_except, Monad.get, Monad.modify, Monad.emit; simpl.

Ltac unfold_M_in H :=
  unfold mbind, mret, M_bind, M_ret, Monad.bind, Monad.ret, Monad.raise,
    Monad.try_except, Monad.get, Monad.modify, Monad.emit in H; simpl in H.

(** Go through the elements of a list given in full. *)
Ltac elem_cases H :=
  repeat (apply elem_of_cons in H as [->|H]; [done|]); by apply elem_of_nil in H.

(** * Properties *)

(** ** Strings *)

Section StringFacts.
Implicit Types s p needle : string.

Lemma append_nil_l s : "" +:+ s = s.
Proof. reflexivity. Qed.

Lemma append_cons a s1 s2 : String a s1 +:+ s2 = String a (s1 +:+ s2).
Proof. reflexivity. Qed.

Lemma startswith_spec s p :
  Str.startswith s p = true ↔ ∃ after, s = p +:+ after.
Proof.
  revert s. induction p as [|a p IH]; intros s.
  - split; [intros _; by exists s | by destruct s].
  - destruct s as [|b s]; simpl.
    + split; [done | by intros [after ?]].
    + destruct (decide (a = b)) as [->|Hne].
      * rewrite IH. split; intros [after Hs]; exists after.
        -- by rewrite append_cons, Hs.
        -- rewrite append_cons in Hs. by simplify_eq.
      * split; [done|]. intros [after Hs]. rewrite append_cons in Hs.
        by simplify_eq.
Qed.

Lemma contains_spec needle s :
  Str.contains needle s = true ↔ Str.substring needle s.
Proof.
  unfold Str.substring. induction s as [|c s IH]; cbn [Str.contains].
  - rewrite orb_false_r, startswith_spec. split.
    + intros [after Hs]. by exists "", after.
    + intros ([|??] & after & Hs); [by exists after | done].
  - rewrite orb_true_iff, startswith_spec, IH. split.
    + intros [[after Hs] | (before & after & Hs)].
      * by exists "", after.
      * exists (String c before), after. by rewrite append_cons, Hs.
    + intros ([|c' before] & after & Hs).
      * left. by exists after.
      * right. exists before, after. rewrite append_cons in Hs. by simplify_eq.
Qed.

Lemma contains_false needle s :
  Str.contains needle s = false ↔ ¬ Str.substring needle s.
Proof. rewrite <-contains_spec. by destruct (Str.contains needle s). Qed.

End StringFacts.

(** ** The folder heuristic *)

Section Heuristic.
Import ModelPathInference.

Lemma first_pattern_some table s folder :
  first_pattern table s = Some folder ↔ Spec.first_match table s folder.
Proof.
  unfold Spec.first_match.
  induction table as [|[p0 f0] table IH]; simpl.
  - split; [done | by intros (i & pattern & ? & _)].
  - destruct (Str.contains p0 s) eqn:Hc.
    + apply contains_spec in Hc. split.
      * intros [= <-]. exists 0, p0. split_and!; [done..|]. intros; lia.
      * intros ([|i] & pattern & Hi & Hsub & Hfirst); [by simplify_eq/=|].
        destruct (Hfirst 0 p0 f0); [lia|done..].
    + apply contains_false in Hc. rewrite IH. split.
      * intros (i & pattern & Hi & Hsub & Hfirst).
        exists (S i), pattern. split_and!; [done..|].
        intros [|j] p f Hj Hl; simplify_eq/=; [done|].
        apply (Hfirst j p f); [lia|done].
      * intros ([|i] & pattern & Hi & Hsub & Hfirst); simplify_eq/=; [done|].
        exists i, pattern. split_and!; [done..|].
        intros j p f Hj Hl. apply (Hfirst (S j) p f); [lia|done].
Qed.

Lemma first_pattern_none table s :
  first_pattern table s = None ↔ Spec.no_match table s.
Proof.
  unfold Spec.no_match.
  induction table as [|[p0 f0] table IH]; simpl.
  - split; [|done]. intros _ p f Hin. by apply elem_of_nil in Hin.
  - destruct (Str.contains p0 s) eqn:Hc.
    + apply contains_spec in Hc. split; [done|].
      intros Hno. destruct (Hno p0 f0); [left | done].
    + apply contains_false in Hc. rewrite IH. split.
      * intros Hno p f [[= -> ->] | Hin]%elem_of_cons; eauto.
      * intros Hno p f Hin. apply (Hno p f). by right.
Qed.

(** C2. The folder heuristic lower-cases the filename and answers with the
    folder of the first pattern, in the order vae, lora, embedding,
    checkpoint, upscale, controlnet, clip, hypernetwork, t2i, sd, that
    occurs in it as a substring, and with no folder exactly when none
    occurs; "model_vae_sd.safetensors" goes to "vae". *)
Theorem guess_model_folder_first_match :
  ∀ (str_lower : string → string) (filename : string),
    (∀ folder,
        _guess_model_folder str_lower filename = Some folder ↔
        Spec.first_match Spec.heuristic_table (str_lower filename) folder) ∧
    (_guess_model_folder str_lower filename = None ↔
     Spec.no_match Spec.heuristic_table (str_lower filename)) ∧
    _guess_model_folder Str.lower "model_vae_sd.safetensors" = Some "vae" ∧
    _guess_model_folder Str.lower "Model_VAE_SD.safetensors" = Some "vae".
Proof.
  intros str_lower filename. split_and!.
  - intros folder. apply first_pattern_some.
  - apply first_pattern_none.
  - reflexivity.
  - reflexivity.
Qed.

End Heuristic.

(** ** The monad *)

Section MonadFacts.
Context {S : Type}.

Lemma bind_run {A B} (m : M S A) (k : A → M S B) w :
  (m ≫= k) w =
  match m w with
  | (inr x, w') => k x w'
  | (inl e, w') => (inl e, w')
  end.
Proof. reflexivity. Qed.

Lemma bind_inr {A B} (m : M S A) (k : A → M S B) w x w' :
  m w = (inr x, w') → (m ≫= k) w = k x w'.
Proof. intros H. by rewrite bind_run, H. Qed.

Lemma bind_inl {A B} (m : M S A) (k : A → M S B) w e w' :
  m w = (inl e, w') → (m ≫= k) w = (inl e, w').
Proof. intros H. by rewrite bind_run, H. Qed.

Lemma for_app {A} (l1 l2 : list A) (body : A → M S ()) w :
  for_ (l1 ++ l2) body w = (for_ l1 body;; for_ l2 body) w.
Proof.
  revert w. induction l1 as [|x l1 IH]; intros w; simpl.
  - reflexivity.
  - rewrite !bind_run. destruct (body x w) as [[e|[]] w']; [done|].
    by rewrite IH.
Qed.

(** A loop whose body raises at [x] ends there: what follows [x] is not
    run. *)
Lemma for_raises {A} (l1 l2 : list A) (x : A) (body : A → M S ()) w w1 w2 e :
  for_ l1 body w = (inr (), w1) →
  body x w1 = (inl e, w2) →
  for_ (l1 ++ x :: l2) body w = (inl e, w2).
Proof.
  intros H1 Hx. rewrite for_app, bind_run, H1. simpl.
  by rewrite bind_run, Hx.
Qed.

(** A comprehension whose element computation only reads the state. *)
Lemma for_list_reader {A B} (l : list A) (f : A → M S B) w :
  (∀ x, ∃ r, f x w = (r, w)) →
  (∃ ys, for_list l f w = (inr ys, w) ∧ Forall2 (λ x y, f x w = (inr y, w)) l ys) ∨
  (∃ e, for_list l f w = (inl e, w) ∧ Exists (λ x, f x w = (inl e, w)) l).
Proof.
  intros Hf. induction l as [|x l IH]; simpl.
  - left. by exists [].
  - rewrite bind_run. destruct (Hf x) as [[e|y] Hx]; rewrite Hx.
    + right. exists e. split; [done|]. by left.
    + rewrite bind_run. destruct IH as [(ys & -> & Hys) | (e & -> & He)].
      * left. exists (y :: ys). split; [done|]. by constructor.
      * right. exists e. split; [done|]. by right.
Qed.

End MonadFacts.

(** ** The tree scanner *)

Section Scanner.
Import ModelPathInference.
Variable ast_parse : string → option node.

(** A file analysis never raises and leaves the object alone; its result
    and its events depend on the file only. *)
Lemma analyze_file_run file :
  ∃ r evs,
    (∀ w, _analyze_file ast_parse file w = (inr r, (w.1, w.2 ++ evs))) ∧
    EvOpen (file_path file) ∈ evs ∧
    (∀ ev, ev ∈ evs → Spec.event_path ev = Some (file_path file)).
Proof.
  unfold _analyze_file, read, parse.
  destruct (file_content file) as [content|] eqn:Hcontent.
  - destruct (Str.contains "INPUT_TYPES" content) eqn:Hmarker.
    + destruct (ast_parse content) as [tree|] eqn:Hparse.
      * exists (NodeVisitor.class_folders (NodeVisitor.visit tree NodeVisitor.__init__)),
          [EvOpen (file_path file); EvParse (file_path file)].
        split_and!.
        -- intros [self tr]. unfold_M. rewrite Hmarker. simpl. rewrite Hparse.
           rewrite <-app_assoc. simpl.
           case_bool_decide as Hempty; [done|].
           destruct (decide (NodeVisitor.class_folders
                               (NodeVisitor.visit tree NodeVisitor.__init__) = ∅))
             as [->|]; done.
        -- set_solver.
        -- intros ev Hev. elem_cases Hev.
      * eexists ∅, [EvOpen (file_path file); EvParse (file_path file);
                     EvErrorAnalyzing (file_path file) SyntaxError].
        split_and!.
        -- intros [self tr]. unfold_M. rewrite Hmarker. simpl. rewrite Hparse.
           simpl. by rewrite <-!app_assoc.
        -- set_solver.
        -- intros ev Hev. elem_cases Hev.
    + eexists ∅, [EvOpen (file_path file)]. split_and!.
      * intros [self tr]. unfold_M. by rewrite Hmarker.
      * set_solver.
      * intros ev Hev. elem_cases Hev.
  - eexists ∅, [EvOpen (file_path file);
                 EvErrorAnalyzing (file_path file) (OSError (file_path file))].
    split_and!.
    + intros [self tr]. unfold_M. by rewrite <-app_assoc.
    + set_solver.
    + intros ev Hev. elem_cases Hev.
Qed.

Lemma analyze_files_run (files : list SourceFile) :
  ∃ results evs,
    (∀ w, for_list files (_analyze_file ast_parse) w = (inr results, (w.1, w.2 ++ evs))) ∧
    Forall2 (λ file r, ∀ w, (_analyze_file ast_parse file w).1 = inr r) files results ∧
    (∀ file, file ∈ files → EvOpen (file_path file) ∈ evs) ∧
    (∀ ev, ev ∈ evs → ∃ file, file ∈ files ∧ Spec.event_path ev = Some (file_path file)).
Proof.
  induction files as [|file files (results & evs & Hrun & Hres & Hopen & Hpath)].
  - exists [], []. split_and!.
    + intros [self tr]. simpl. unfold_M. by rewrite app_nil_r.
    + constructor.
    + set_solver.
    + set_solver.
  - destruct (analyze_file_run file) as (r & evs1 & Hrun1 & Hopen1 & Hpath1).
    exists (r :: results), (evs1 ++ evs). split_and!.
    + intros w. simpl. rewrite bind_run, Hrun1, bind_run, Hrun. simpl.
      by rewrite app_assoc.
    + constructor; [|done]. intros w. by rewrite Hrun1.
    + intros f [->|Hf]%elem_of_cons; set_solver.
    + intros ev [Hev|Hev]%elem_of_app.
      * exists file. split; [left | by apply Hpath1].
      * destruct (Hpath ev Hev) as (f & Hf & Hp). exists f. split; [by right | done].
Qed.

End Scanner.

(** ** Merging the per-file results *)

Section Merge.
Import ModelPathInference.

Lemma all_required_found_spec self :
  all_required_found self = true ↔
  ∀ node_type, node_type ∈ required_node_types self →
    is_Some (node_class_folders self !! node_type).
Proof.
  unfold all_required_found. rewrite forallb_forall. split.
  - intros H node_type Hin. eapply bool_decide_eq_true_1.
    apply H, list_elem_of_In. by apply elem_of_elements.
  - intros H node_type Hin%list_elem_of_In. apply bool_decide_eq_true_2.
    apply H. by apply elem_of_elements.
Qed.

Lemma early_exit_spec self :
  bool_decide (required_node_types self ≠ ∅) && all_required_found self = true ↔
  Spec.covers (required_node_types self) (node_class_folders self).
Proof.
  unfold Spec.covers.
  by rewrite andb_true_iff, bool_decide_eq_true, all_required_found_spec.
Qed.

Lemma set_node_class_folders_id self :
  set_node_class_folders (λ m, m) self = self.
Proof. by destruct self. Qed.

Lemma merged_S k results m r :
  results !! k = Some r →
  Spec.merged (S k) results m = r ∪ Spec.merged k results m.
Proof.
  intros Hk. unfold Spec.merged.
  by rewrite (take_S_r _ _ _ Hk), fold_left_app.
Qed.

Lemma merge_results_run results self tr :
  ∃ k,
    merge_results results (self, tr) =
      (inr (), (set_node_class_folders (Spec.merged k results) self, tr)) ∧
    k ≤ length results ∧
    (results ≠ [] → 0 < k) ∧
    (∀ j, 0 < j < k →
       ¬ Spec.covers (required_node_types self)
                     (Spec.merged j results (node_class_folders self))) ∧
    (k < length results →
       Spec.covers (required_node_types self)
                   (Spec.merged k results (node_class_folders self))).
Proof.
  revert self. induction results as [|r results IH]; intros self.
  - exists 0. split_and!; [|done|done|intros; lia|simpl; lia].
    simpl. unfold_M. by rewrite set_node_class_folders_id.
  - simpl. unfold_M.
    set (self1 := set_node_class_folders (λ m, r ∪ m) self).
    destruct (bool_decide (required_node_types self ≠ ∅) && all_required_found self1)
      eqn:Hexit.
    + exists 1. split_and!; [done|simpl; lia|lia|intros; lia|].
      intros _. by apply (early_exit_spec self1).
    + destruct (IH self1) as (k & Hrun & Hle & _ & Hbefore & Hafter).
      exists (S k). split_and!; [by rewrite Hrun|simpl; lia|lia|..].
      * intros [|[|j]] Hj; [lia|..].
        -- intros Hcov. apply (early_exit_spec self1) in Hcov.
           change (required_node_types self1) with (required_node_types self) in Hcov.
           congruence.
        -- apply (Hbefore (S j)). lia.
      * intros Hlt. apply Hafter. simpl in Hlt. lia.
Qed.

End Merge.

Section ScannerClaims.
Import ModelPathInference.

(** C3. The scanner first runs the analysis of every file it found, each to
    its result, and only then merges: the results are merged in the order
    of the files, each result overwriting, key by key, what was accumulated
    before it. After merging a result, when the accumulated map covers
    every class name of a non-empty [required_node_types], merging stops:
    the map is the merge of the first [k] results, the first count at which
    the accumulated map covers the required names (all the results when it
    never does). Stopping early changes nothing about the analyses: all
    the files were opened. *)
Theorem analyze_node_classes_merges_until_covered :
  ∀ (ast_parse : string → option node) (self : t) (tr : list event),
  ∃ (results : list (gmap string ODict.t)) (evs : list event) (k : nat),
    for_list (_find_python_files self) (_analyze_file ast_parse) (self, tr) =
      (inr results, (self, tr ++ evs)) ∧
    Forall2 (λ file r, ∀ w, (_analyze_file ast_parse file w).1 = inr r)
            (_find_python_files self) results ∧
    (∀ file, file ∈ _find_python_files self → EvOpen (file_path file) ∈ evs) ∧
    _analyze_node_classes ast_parse (self, tr) =
      merge_results results (self, tr ++ evs) ∧
    _analyze_node_classes ast_parse (self, tr) =
      (inr (), (set_node_class_folders (Spec.merged k results) self, tr ++ evs)) ∧
    k ≤ length results ∧
    (results ≠ [] → 0 < k) ∧
    (∀ j, 0 < j < k →
       ¬ Spec.covers (required_node_types self)
                     (Spec.merged j results (node_class_folders self))) ∧
    (k < length results →
       Spec.covers (required_node_types self)
                   (Spec.merged k results (node_class_folders self))) ∧
    (∀ j r node_type m,
       results !! j = Some r →
       Spec.merged (S j) results m !! node_type =
         match r !! node_type with
         | Some folders => Some folders
         | None => Spec.merged j results m !! node_type
         end).
Proof.
  intros ast_parse self tr.
  destruct (analyze_files_run ast_parse (_find_python_files self))
    as (results & evs & Hrun & Hres & Hopen & _).
  destruct (merge_results_run results self (tr ++ evs))
    as (k & Hmerge & Hle & Hpos & Hbefore & Hafter).
  assert (_analyze_node_classes ast_parse (self, tr) =
          merge_results results (self, tr ++ evs)) as Hsplit.
  { unfold _analyze_node_classes. rewrite bind_run. unfold Monad.get at 1.
    cbn [fst]. by rewrite bind_run, Hrun. }
  exists results, evs, k. split_and!; try done.
  - by rewrite Hsplit.
  - intros j r node_type m Hj. rewrite (merged_S _ _ _ _ Hj), lookup_union.
    by destruct (r !! node_type), (Spec.merged j results m !! node_type).
Qed.

(** C9. A file whose text does not contain "INPUT_TYPES" is read and
    nothing more: the analysis returns the empty result without handing the
    text to the parser, whatever the parser would make of it, and that
    result adds nothing to the ClassFolderMap when it is merged. *)
Theorem analyze_file_without_marker :
  ∀ (ast_parse : string → option node) (file : SourceFile) (content : string)
    (self : t) (tr : list event),
    file_content file = Some content →
    ¬ Str.substring "INPUT_TYPES" content →
    _analyze_file ast_parse file (self, tr) =
      (inr ∅, (self, tr ++ [EvOpen (file_path file)])) ∧
    ∀ k results m, Spec.merged (S k) (∅ :: results) m = Spec.merged k results m.
Proof.
  intros ast_parse file content self tr Hcontent Hmarker%contains_false. split.
  - unfold _analyze_file, read. unfold_M. by rewrite Hcontent, Hmarker.
  - intros k results m. unfold Spec.merged. simpl. by rewrite (left_id_L ∅ (∪)).
Qed.

End ScannerClaims.

(** ** The orchestrator *)

Section Orchestrator.
Import ModelPathInference.
Variable ast_parse : string → option node.
Variable str_lower : string → string.

(** The loader returns normally, whatever happens inside. *)
Lemma load_node_class_mappings_returns w :
  ∃ w', _load_node_class_mappings ast_parse w = (inr (), w').
Proof.
  unfold _load_node_class_mappings, Monad.try_except.
  match goal with |- context [match ?body w with _ => _ end] =>
    destruct (body w) as [[e|[]] w1] end.
  - by eexists.
  - by eexists.
Qed.

Lemma analyze_node_classes_returns w :
  ∃ w', _analyze_node_classes ast_parse w = (inr (), w').
Proof.
  destruct w as [self tr].
  destruct (analyze_files_run ast_parse (_find_python_files self))
    as (results & evs & Hrun & _).
  destruct (merge_results_run results self (tr ++ evs)) as (k & Hmerge & _).
  eexists. unfold _analyze_node_classes. rewrite bind_run.
  unfold Monad.get at 1. cbn [fst]. by rewrite bind_run, Hrun.
Qed.

(** Resolving a model reads the object and changes nothing. *)
Lemma infer_model_reader model w :
  ∃ r, infer_model str_lower model w = (r, w).
Proof.
  unfold infer_model, get_filename, get_needed_by.
  destruct (Manifest.filename model), (Manifest.needed_by model);
    unfold_M; try by eexists.
  destruct (folder_from_classes _ _) as [inferred_folder node_info].
  destruct (negb _); [destruct (_guess_model_folder _ _) as [folder|];
                      [destruct (Str.truthy folder)|]|]; by eexists.
Qed.

Lemma infer_model_keys model w r :
  infer_model str_lower model w = (inr r, w) →
  Manifest.filename model = Some (Output.filename r) ∧
  Manifest.needed_by model = Some (Output.required_by r).
Proof.
  unfold infer_model, get_filename, get_needed_by.
  destruct (Manifest.filename model), (Manifest.needed_by model);
    unfold_M; try done.
  destruct (folder_from_classes _ _) as [inferred_folder node_info].
  destruct (negb _); [destruct (_guess_model_folder _ _) as [folder|];
                      [destruct (Str.truthy folder)|]|];
    by intros [= <-].
Qed.

Lemma infer_model_raises model w e :
  infer_model str_lower model w = (inl e, w) →
  (Manifest.filename model = None ∧ e = KeyError "filename") ∨
  (Manifest.needed_by model = None ∧ e = KeyError "needed_by").
Proof.
  unfold infer_model, get_filename, get_needed_by.
  destruct (Manifest.filename model), (Manifest.needed_by model);
    unfold_M; try (intros [= <-]; by auto).
  destruct (folder_from_classes _ _) as [inferred_folder node_info].
  destruct (negb _); [destruct (_guess_model_folder _ _) as [folder|];
                      [destruct (Str.truthy folder)|]|]; done.
Qed.

(** The three ways a call of [infer_model_paths] ends. *)
Lemma infer_model_paths_cases models_data w :
  ∃ w',
    (Exists (λ model, Manifest.needed_by model = None) (get_models models_data) ∧
     infer_model_paths ast_parse str_lower models_data w =
       (inl (KeyError "needed_by"), w')) ∨
    (Forall (λ model, is_Some (Manifest.needed_by model)) (get_models models_data) ∧
     Exists (λ model, Manifest.filename model = None) (get_models models_data) ∧
     infer_model_paths ast_parse str_lower models_data w =
       (inl (KeyError "filename"), w')) ∨
    (∃ out,
       infer_model_paths ast_parse str_lower models_data w = (inr out, w') ∧
       Forall2 (λ model r, infer_model str_lower model w' = (inr r, w'))
               (get_models models_data) out).
Proof.
  unfold infer_model_paths.
  destruct (load_node_class_mappings_returns w) as [w1 Hload].
  rewrite (bind_inr _ _ _ _ _ Hload).
  rewrite (bind_inr Monad.get _ w1 w1.1 w1 eq_refl).
  set (body := λ model : Manifest.model,
         needed_by ← get_needed_by model; mret (mapped_class w1.1 <$> needed_by)).
  destruct (for_list_reader (get_models models_data) body w1)
    as [(required & Hrequired & Hall) | (e & Hrequired & Hex)].
  { intros model. unfold body, get_needed_by.
    destruct (Manifest.needed_by model); unfold_M; by eexists. }
  - rewrite (bind_inr _ _ _ _ _ Hrequired).
    set (w2 := (set_required_node_types (list_to_set (concat required)) w1.1, w1.2)).
    rewrite (bind_inr (Monad.modify _) _ w1 () w2 eq_refl).
    destruct (analyze_node_classes_returns w2) as [w3 Hanalyze].
    rewrite (bind_inr _ _ _ _ _ Hanalyze).
    assert (Forall (λ model, is_Some (Manifest.needed_by model))
                   (get_models models_data)) as Hneeded.
    { clear -Hall. induction Hall as [|model ys models yss Hm _ IH]; constructor; [|done].
      unfold body, get_needed_by in Hm.
      destruct (Manifest.needed_by model); [by eexists|]. by unfold_M_in Hm. }
    destruct (for_list_reader (get_models models_data) (infer_model str_lower) w3)
      as [(out & Hout & Hrecords) | (e & Hout & Hex)].
    { intros model. apply infer_model_reader. }
    + exists w3. right. right. by exists out.
    + exists w3. right. left.
      assert (e = KeyError "filename" ∧
              Exists (λ model, Manifest.filename model = None) (get_models models_data))
        as [-> ?]; [|done].
      clear -Hex Hneeded. induction Hex as [model models Hm | model models _ IH].
      * apply infer_model_raises in Hm as [[? ->] | [Hnone _]].
        -- split; [done | by left].
        -- apply Forall_cons in Hneeded as [[? Hsome] _]. congruence.
      * apply Forall_cons in Hneeded as [_ Hneeded].
        destruct (IH Hneeded) as [-> ?]. split; [done | by right].
  - rewrite (bind_inl _ _ _ _ _ Hrequired). exists w1. left.
    assert (e = KeyError "needed_by" ∧
            Exists (λ model, Manifest.needed_by model = None) (get_models models_data))
      as [-> ?]; [|done].
    clear -Hex. induction Hex as [model models Hm | model models _ [-> ?]].
    + unfold body, get_needed_by in Hm.
      destruct (Manifest.needed_by model) eqn:Hnone; unfold_M_in Hm; [done|].
      injection Hm as <-. split; [done | by left].
    + split; [done | by right].
Qed.

(** The loop over the requiring node types, by what it finds. *)
Lemma folder_from_classes_none self needed_by :
  Spec.no_class_entry self needed_by →
  folder_from_classes self needed_by = (None, None).
Proof.
  unfold Spec.no_class_entry.
  induction needed_by as [|d needed_by IH]; intros Hnone; [done|].
  cbn [folder_from_classes]. unfold mapped_class. rewrite (Hnone d) by left.
  apply IH. intros d' Hd'. apply Hnone. by right.
Qed.

Lemma folder_from_classes_hit self needed_by j display_name node_type folders :
  Spec.first_class_hit self needed_by j display_name node_type folders →
  folder_from_classes self needed_by =
    (ODict.first_value folders,
     Some {| Output.model_folders := folders;
             Output.source_file := "found_in_class_definition";
             Output.node_class := Some node_type;
             Output.display_name := Some display_name |}).
Proof.
  unfold Spec.first_class_hit. revert j.
  induction needed_by as [|d needed_by IH];
    intros j (Hj & Hclass & Hfolders & Hne & Hfirst); [done|].
  cbn [folder_from_classes]. unfold mapped_class. subst node_type.
  destruct j as [|j]; simpl in Hj.
  - injection Hj as ->. rewrite Hfolders. by destruct folders.
  - assert (∀ j' d', j' < j → needed_by !! j' = Some d' →
        node_class_folders self !! default d' (node_class_mappings self !! d') = None ∨
        node_class_folders self !! default d' (node_class_mappings self !! d') = Some [])
      as Hrest.
    { intros j' d' Hj' Hd'. apply (Hfirst (S j') d'); [lia|done]. }
    assert (node_class_folders self !! default d (node_class_mappings self !! d) = None ∨
            node_class_folders self !! default d (node_class_mappings self !! d) = Some [])
      as [Hd | Hd] by (apply (Hfirst 0 d); [lia|done]).
    + rewrite Hd. by apply (IH j).
    + rewrite Hd. cbn [ODict.truthy]. by apply (IH j).
Qed.

End Orchestrator.

Section FolderResolutionFacts.
Import ModelPathInference.
Context {V : Type}.
Variable truthy : V → bool.
Variable str_lower : string → string.

Lemma guessed_folder_truthy filename folder :
  _guess_model_folder str_lower filename = Some folder → Str.truthy folder = true.
Proof.
  unfold _guess_model_folder, MODEL_PATTERNS. cbn [first_pattern].
  repeat (destruct (Str.contains _ _); [by intros [= <-]|]). done.
Qed.

Lemma resolution_from_classes_hit (aliases : gmap string string)
    (class_folders : gmap string (list (V * V))) needed_by j display_name node_type
    folders :
  FolderResolution.first_hit aliases class_folders needed_by j display_name node_type
                             folders →
  FolderResolution.folder_from_classes aliases class_folders needed_by =
    (FolderResolution.first_value folders,
     Some (FolderResolution.found_in_class_definition folders node_type display_name)).
Proof.
  unfold FolderResolution.first_hit. revert j.
  induction needed_by as [|d needed_by IH];
    intros j (Hj & Hclass & Hfolders & Hne & Hfirst); [done|].
  cbn [FolderResolution.folder_from_classes]. subst node_type.
  destruct j as [|j]; simpl in Hj.
  - injection Hj as ->. rewrite Hfolders. by destruct folders.
  - assert (∀ j' d', j' < j → needed_by !! j' = Some d' →
        class_folders !! default d' (aliases !! d') = None ∨
        class_folders !! default d' (aliases !! d') = Some []) as Hrest.
    { intros j' d' Hj' Hd'. apply (Hfirst (S j') d'); [lia|done]. }
    assert (class_folders !! default d (aliases !! d) = None ∨
            class_folders !! default d (aliases !! d) = Some []) as [Hd | Hd]
      by (apply (Hfirst 0 d); [lia|done]).
    + rewrite Hd. by apply (IH j).
    + rewrite Hd. cbn [FolderResolution.dict_truthy]. by apply (IH j).
Qed.

End FolderResolutionFacts.

Section FolderResolutionStrings.
Import ModelPathInference.
Variable str_lower : string → string.

Lemma folder_from_classes_resolution self needed_by :
  folder_from_classes self needed_by =
    ((FolderResolution.folder_from_classes (node_class_mappings self)
        (node_class_folders self) needed_by).1,
     FolderResolution.evidence <$>
       (FolderResolution.folder_from_classes (node_class_mappings self)
          (node_class_folders self) needed_by).2).
Proof.
  induction needed_by as [|d needed_by IH]; [done|].
  cbn [FolderResolution.folder_from_classes folder_from_classes]. unfold mapped_class.
  destruct (node_class_folders self !! default d (node_class_mappings self !! d))
    as [folders|]; [|done].
  by destruct folders.
Qed.

(** The record of [infer_model] is built from what [resolve] gives on the
    maps of the object. *)
Lemma infer_model_resolve model w filename needed_by :
  Manifest.filename model = Some filename →
  Manifest.needed_by model = Some needed_by →
  infer_model str_lower model w =
    (inr (FolderResolution.record filename needed_by
            (FolderResolution.resolve Str.truthy str_lower (node_class_mappings w.1)
               (node_class_folders w.1) filename needed_by)), w).
Proof.
  intros Hfilename Hneeded.
  unfold infer_model, get_filename, get_needed_by.
  rewrite Hfilename, Hneeded. unfold_M.
  unfold FolderResolution.resolve. rewrite folder_from_classes_resolution.
  destruct (FolderResolution.folder_from_classes _ _ _) as [inferred_folder node_info].
  unfold FolderResolution.record, FolderResolution.falsy, truthy. cbn [fst snd].
  destruct inferred_folder as [folder|]; simpl.
  - destruct (Str.truthy folder) eqn:Hfolder; simpl; [by rewrite Hfolder|].
    destruct (_guess_model_folder str_lower filename) as [guessed|]; simpl; [|done].
    destruct (Str.truthy guessed) eqn:Hguessed; simpl; by rewrite ?Hguessed.
  - destruct (_guess_model_folder str_lower filename) as [guessed|]; simpl; [|done].
    destruct (Str.truthy guessed) eqn:Hguessed; simpl; by rewrite ?Hguessed.
Qed.

End FolderResolutionStrings.

Section OrchestratorClaims.
Import ModelPathInference.

Lemma infer_model_unresolved str_lower model w filename needed_by :
  Manifest.filename model = Some filename →
  Manifest.needed_by model = Some needed_by →
  Spec.no_class_entry w.1 needed_by →
  _guess_model_folder str_lower filename = None →
  infer_model str_lower model w =
    (inr {| Output.filename := filename; Output.required_by := needed_by;
            Output.node_info := None; Output.inferred_path := None |}, w).
Proof.
  intros Hfilename Hneeded Hclasses Hguess.
  unfold infer_model, get_filename, get_needed_by.
  rewrite Hfilename, Hneeded. unfold_M.
  by rewrite (folder_from_classes_none _ _ Hclasses), Hguess.
Qed.

Lemma first_value_elem (folders : ODict.t) :
  folders ≠ [] →
  ∃ folder, ODict.first_value folders = Some folder ∧ folder ∈ ODict.values folders.
Proof.
  destruct folders as [|[k v] folders]; [done|]. intros _.
  exists v. split; [done | by left].
Qed.

(** C7. When every entry of the manifest has its keys, the call returns its
    records, and a model none of whose requiring node types resolves to an
    entry of the ClassFolderMap and whose lower-cased filename contains no
    pattern of the heuristic gets a record with [inferred_path] null and
    [node_info] null: nothing is raised for it. *)
Theorem unresolved_model_has_null_path_and_info :
  ∀ (ast_parse : string → option node) (str_lower : string → string)
    (models_data : Manifest.t) (self : t),
    Forall (λ model, is_Some (Manifest.filename model) ∧
                     is_Some (Manifest.needed_by model))
           (get_models models_data) →
    ∃ out self' tr,
      run (infer_model_paths ast_parse str_lower models_data) self =
        (inr out, (self', tr)) ∧
      ∀ i model filename needed_by,
        get_models models_data !! i = Some model →
        Manifest.filename model = Some filename →
        Manifest.needed_by model = Some needed_by →
        Spec.no_class_entry self' needed_by →
        Spec.no_match Spec.heuristic_table (str_lower filename) →
        ∃ r, out !! i = Some r ∧
             Output.filename r = filename ∧
             Output.required_by r = needed_by ∧
             Output.inferred_path r = None ∧
             Output.node_info r = None.
Proof.
  intros ast_parse str_lower models_data self Hkeys. unfold run.
  destruct (infer_model_paths_cases ast_parse str_lower models_data (self, []))
    as ([self' tr] & [[Hex _] | [(_ & Hex & _) | (out & Hrun & Hout)]]).
  - apply Exists_exists in Hex as (model & Hin & Hnone).
    rewrite Forall_forall in Hkeys. destruct (Hkeys model Hin) as [_ [? ?]].
    congruence.
  - apply Exists_exists in Hex as (model & Hin & Hnone).
    rewrite Forall_forall in Hkeys. destruct (Hkeys model Hin) as [[? ?] _].
    congruence.
  - exists out, self', tr. split; [done|].
    intros i model filename needed_by Hi Hfilename Hneeded Hclasses Hpatterns.
    destruct (Forall2_lookup_l _ _ _ _ _ Hout Hi) as (r & Hr & Hmodel).
    exists r. split; [done|].
    apply first_pattern_none in Hpatterns.
    rewrite (infer_model_unresolved str_lower model (self', tr) filename needed_by)
      in Hmodel by done.
    by injection Hmodel as <-.
Qed.

(** C1, as the code has it. The orchestrator goes through the requiring
    node types of a model in their order, maps each through the AliasTable
    (the display name itself when it has no alias), and stops at the first
    whose class has a non-empty folder dictionary in the ClassFolderMap: it
    picks the first folder of that dictionary and keeps the evidence of
    that class, whatever the later node types are. The filename heuristic
    is left alone when the picked folder is truthy, and consulted when it
    is falsy; then a folder the heuristic finds replaces the class-derived
    folder and evidence, and when it finds none the evidence of the class
    stays and there is no folder.

    The first part states this for folder dictionaries of any values, with
    any truth value of theirs. The second part is about the records of a
    run, whose folder dictionaries hold strings, where falsy is the empty
    string: every record is built from what [resolve] gives; a picked
    folder that is not the empty string gives the class-derived record,
    with the picked folder in the path whatever pattern the filename
    matches; the empty string gives the record of the heuristic's guess or,
    without a guess, a record with the evidence of the class and a null
    path. *)
Theorem class_folder_precedes_heuristic :
  (∀ (V : Type) (truthy : V → bool) (str_lower : string → string)
     (node_class_mappings : gmap string string)
     (node_class_folders : gmap string (list (V * V)))
     (filename : string) (needed_by : list string) (j : nat)
     (display_name node_type : string) (folders : list (V * V)),
     FolderResolution.first_hit node_class_mappings node_class_folders needed_by j
                                display_name node_type folders →
     ∃ folder,
       FolderResolution.first_value folders = Some folder ∧
       folder ∈ folders.*2 ∧
       (truthy folder = true →
        FolderResolution.resolve truthy str_lower node_class_mappings
                                 node_class_folders filename needed_by =
          (Some (FolderResolution.class_folder folder),
           Some (FolderResolution.found_in_class_definition folders node_type
                                                            display_name))) ∧
       (truthy folder = false →
        FolderResolution.resolve truthy str_lower node_class_mappings
                                 node_class_folders filename needed_by =
          match _guess_model_folder str_lower filename with
          | Some guessed =>
              (Some (FolderResolution.guessed_folder guessed),
               Some (FolderResolution.guessed_from_filename guessed))
          | None =>
              (None,
               Some (FolderResolution.found_in_class_definition folders node_type
                                                                display_name))
          end)) ∧
  (∀ (ast_parse : string → option node) (str_lower : string → string)
     (models_data : Manifest.t) (self self' : t) (out : Output.t) (tr : list event)
     (i j : nat) (model : Manifest.model) (filename display_name node_type : string)
     (needed_by : list string) (folders : ODict.t),
     run (infer_model_paths ast_parse str_lower models_data) self =
       (inr out, (self', tr)) →
     get_models models_data !! i = Some model →
     Manifest.filename model = Some filename →
     Manifest.needed_by model = Some needed_by →
     Spec.first_class_hit self' needed_by j display_name node_type folders →
     out !! i =
       Some (FolderResolution.record filename needed_by
               (FolderResolution.resolve Str.truthy str_lower
                  (node_class_mappings self') (node_class_folders self')
                  filename needed_by)) ∧
     ∃ folder,
       ODict.first_value folders = Some folder ∧
       folder ∈ ODict.values folders ∧
       (folder ≠ "" →
        out !! i = Some (Spec.class_derived_record filename needed_by display_name
                                                   node_type folders folder)) ∧
       (folder = "" →
        out !! i =
          Some match _guess_model_folder str_lower filename with
               | Some guessed => Props.guessed_record filename needed_by guessed
               | None => Spec.class_evidence_record filename needed_by display_name
                                                    node_type folders
               end)).
Proof.
  split.
  - intros V truthy str_lower aliases class_folders filename needed_by j display_name
      node_type folders Hhit.
    assert (∃ folder, FolderResolution.first_value folders = Some folder ∧
                      folder ∈ folders.*2) as (folder & Hfirst & Hin).
    { destruct Hhit as (_ & _ & _ & Hne & _).
      destruct folders as [|[k v] folders]; [done|]. exists v. split; [done | by left]. }
    exists folder. split_and!; [done..| |].
    + intros Htruthy. unfold FolderResolution.resolve.
      rewrite (resolution_from_classes_hit _ _ _ _ _ _ _ Hhit), Hfirst.
      unfold FolderResolution.falsy. by rewrite Htruthy.
    + intros Hfalsy. unfold FolderResolution.resolve.
      rewrite (resolution_from_classes_hit _ _ _ _ _ _ _ Hhit), Hfirst.
      unfold FolderResolution.falsy. rewrite Hfalsy. simpl.
      destruct (_guess_model_folder str_lower filename) as [guessed|] eqn:Hguess;
        [|done].
      by rewrite (guessed_folder_truthy str_lower filename guessed Hguess).
  - intros ast_parse str_lower models_data self self' out tr i j model filename
      display_name node_type needed_by folders Hrun Hi Hfilename Hneeded Hhit.
    unfold run in Hrun.
    destruct (infer_model_paths_cases ast_parse str_lower models_data (self, []))
      as (w' & [[_ Hrun'] | [(_ & _ & Hrun') | (out' & Hrun' & Hout)]]);
      rewrite Hrun in Hrun'; simplify_eq.
    destruct (Forall2_lookup_l _ _ _ _ _ Hout Hi) as (r & Hr & Hmodel).
    rewrite (infer_model_resolve str_lower model (self', tr) filename needed_by)
      in Hmodel by done.
    injection Hmodel as <-. cbn [fst] in *. split; [done|].
    destruct (first_value_elem folders) as (folder & Hfirst & Hin).
    { by destruct Hhit as (_ & _ & _ & ? & _). }
    exists folder. split_and!; [done..| |].
    + intros Hfolder. rewrite Hr. f_equal. unfold FolderResolution.resolve.
      rewrite (resolution_from_classes_hit _ _ _ _ _ _ _ Hhit).
      change (FolderResolution.first_value folders) with (ODict.first_value folders).
      rewrite Hfirst. unfold FolderResolution.falsy.
      by destruct folder.
    + intros ->. rewrite Hr. f_equal. unfold FolderResolution.resolve.
      rewrite (resolution_from_classes_hit _ _ _ _ _ _ _ Hhit).
      change (FolderResolution.first_value folders) with (ODict.first_value folders).
      rewrite Hfirst. unfold FolderResolution.falsy. simpl.
      destruct (_guess_model_folder str_lower filename) as [guessed|] eqn:Hguess;
        [|done].
      rewrite (guessed_folder_truthy str_lower filename guessed Hguess).
      unfold FolderResolution.record, Props.guessed_record. simpl.
      by rewrite (guessed_folder_truthy str_lower filename guessed Hguess).
Qed.

(** C6, as the code has it. A manifest without the key [models] is not an
    error: it is read as an empty list of models and the result is the
    empty list. A manifest whose list of models has an entry without
    [needed_by] or without [filename] makes the call raise [KeyError], and
    no result is returned. *)
Theorem missing_model_key_is_fatal :
  ∀ (ast_parse : string → option node) (str_lower : string → string)
    (models_data : Manifest.t) (self : t),
    (Manifest.models models_data = None →
     (run (infer_model_paths ast_parse str_lower models_data) self).1 = inr []) ∧
    (∀ models,
       Manifest.models models_data = Some models →
       Exists (λ model, Manifest.filename model = None ∨
                        Manifest.needed_by model = None) models →
       ∃ key, (key = "filename" ∨ key = "needed_by") ∧
              (run (infer_model_paths ast_parse str_lower models_data) self).1 =
                inl (KeyError key)).
Proof.
  intros ast_parse str_lower models_data self. unfold run.
  destruct (infer_model_paths_cases ast_parse str_lower models_data (self, []))
    as (w' & Hcases).
  unfold get_models in Hcases. split.
  - intros Hnone. rewrite Hnone in Hcases. simpl in Hcases.
    destruct Hcases as [[Hex _] | [(_ & Hex & _) | (out & -> & Hout)]].
    + by apply Exists_nil in Hex.
    + by apply Exists_nil in Hex.
    + by apply Forall2_nil_inv_l in Hout as ->.
  - intros models Hsome Hmissing. rewrite Hsome in Hcases. simpl in Hcases.
    destruct Hcases as [[_ ->] | [(_ & _ & ->) | (out & _ & Hout)]].
    + exists "needed_by". auto.
    + exists "filename". auto.
    + exfalso. apply Exists_exists in Hmissing as (model & Hin & Hnone).
      apply list_elem_of_lookup in Hin as [i Hi].
      destruct (Forall2_lookup_l _ _ _ _ _ Hout Hi) as (r & _ & Hmodel).
      apply infer_model_keys in Hmodel as [? ?].
      destruct Hnone; congruence.
Qed.

(** Every record of a result carries the filename and the [needed_by] list
    of its manifest entry. *)
Lemma infer_records_carry_keys ast_parse str_lower models_data self out w' :
  run (infer_model_paths ast_parse str_lower models_data) self = (inr out, w') →
  Forall2 (λ model r, Manifest.filename model = Some (Output.filename r) ∧
                      Manifest.needed_by model = Some (Output.required_by r))
          (get_models models_data) out.
Proof.
  unfold run. intros Hrun.
  destruct (infer_model_paths_cases ast_parse str_lower models_data (self, []))
    as (w'' & [[_ Hrun'] | [(_ & _ & Hrun') | (out' & Hrun' & Hout)]]);
    rewrite Hrun in Hrun'; simplify_eq.
  eapply Forall2_impl; [exact Hout|].
  intros model r Hr. by apply infer_model_keys in Hr.
Qed.

End OrchestratorClaims.

(** ** The transform pipeline *)

Section Transform.
Import WorkflowProcessor.

Lemma sorted_elem t (s : gset string) : t ∈ sorted s ↔ t ∈ s.
Proof. unfold sorted. by rewrite merge_sort_Permutation, elem_of_elements. Qed.

Lemma sorted_nonempty (s : gset string) : s ≠ ∅ → sorted s ≠ [].
Proof.
  intros Hs Hnil. apply Hs, set_eq. intros t.
  rewrite <-sorted_elem, Hnil. set_solver.
Qed.

Lemma add_needed_by_ok (nodes : list node_data) (node : node_data) (key : string)
    (d : list (string * gset string)) :
  node ∈ nodes → key ∈ model node →
  Forall (λ e, e.2 ≠ ∅ ∧
               ∀ t, t ∈ e.2 → ∃ n, n ∈ nodes ∧ type n = t ∧ e.1 ∈ model n) d →
  Forall (λ e, e.2 ≠ ∅ ∧
               ∀ t, t ∈ e.2 → ∃ n, n ∈ nodes ∧ type n = t ∧ e.1 ∈ model n)
         (add_needed_by key (type node) d).
Proof.
  intros Hnode Hkey. induction d as [|[key' needed] d IH]; intros Hd; simpl.
  - repeat constructor; simpl; [set_solver|].
    intros t ->%elem_of_singleton. by exists node.
  - apply Forall_cons in Hd as [[Hne Hneeded] Hd]. simpl in *.
    destruct (decide (key' = key)) as [->|].
    + constructor; [|done]. simpl. split; [set_solver|].
      intros t [Ht | ->%elem_of_singleton]%elem_of_union; [by apply Hneeded|].
      by exists node.
    + constructor; [done | by apply IH].
Qed.

Lemma models_dict_ok (all nodes : list node_data) (d : list (string * gset string)) :
  (∀ n, n ∈ nodes → n ∈ all) →
  Forall (λ e, e.2 ≠ ∅ ∧
               ∀ t, t ∈ e.2 → ∃ n, n ∈ all ∧ type n = t ∧ e.1 ∈ model n) d →
  Forall (λ e, e.2 ≠ ∅ ∧
               ∀ t, t ∈ e.2 → ∃ n, n ∈ all ∧ type n = t ∧ e.1 ∈ model n)
         (fold_left (λ models_dict node,
                       fold_left (λ models_dict model,
                                    add_needed_by model (type node) models_dict)
                                 (model node) models_dict) nodes d).
Proof.
  revert d. induction nodes as [|node nodes IH]; intros d Hsub Hd; simpl; [done|].
  apply IH; [intros n Hn; apply Hsub; by right|].
  assert (node ∈ all) as Hnode by (apply Hsub; by left).
  assert (∀ m, m ∈ model node → m ∈ model node) as Hms by done.
  revert d Hd Hms. generalize (model node) at 1 3 as ms.
  induction ms as [|m ms IHms]; intros d Hd Hms; simpl; [done|].
  apply IHms; [|intros m' Hm'; apply Hms; by right].
  apply add_needed_by_ok; [done | apply Hms; by left | done].
Qed.

(** C8. Every model entry [transform_nodes_data] creates has a non-empty
    [needed_by] list, each element of which is the type of a node that
    references the model's filename. The records [infer_model_paths] returns
    carry, entry by entry, the filename and the [needed_by] list of the
    manifest unchanged as [required_by]. So for the manifest the transform
    produces the call returns one record per entry, and no record has an
    empty [required_by]. *)
Theorem model_records_have_requiring_nodes :
  ∀ (nodes : list node_data),
    Forall (λ m, needed_by m ≠ [] ∧
                 ∀ t, t ∈ needed_by m →
                      ∃ n, n ∈ nodes ∧ type n = t ∧ filename m ∈ model n)
           (models (transform_nodes_data nodes)) ∧
    (∀ (ast_parse : string → option node) (str_lower : string → string)
       (models_data : Manifest.t) (self : ModelPathInference.t) out w',
       run (ModelPathInference.infer_model_paths ast_parse str_lower models_data) self =
         (inr out, w') →
       Forall2 (λ model r, Manifest.filename model = Some (Output.filename r) ∧
                           Manifest.needed_by model = Some (Output.required_by r))
               (ModelPathInference.get_models models_data) out) ∧
    ∀ (ast_parse : string → option node) (str_lower : string → string)
      (self : ModelPathInference.t),
    ∃ out w',
      run (ModelPathInference.infer_model_paths ast_parse str_lower
             (as_manifest (transform_nodes_data nodes))) self = (inr out, w') ∧
      Output.filename <$> out = filename <$> models (transform_nodes_data nodes) ∧
      Output.required_by <$> out = needed_by <$> models (transform_nodes_data nodes) ∧
      Forall (λ r, Output.required_by r ≠ []) out.
Proof.
  intros nodes.
  assert (Forall (λ m, needed_by m ≠ [] ∧
                       ∀ t, t ∈ needed_by m →
                            ∃ n, n ∈ nodes ∧ type n = t ∧ filename m ∈ model n)
                 (models (transform_nodes_data nodes))) as Hmodels.
  { unfold transform_nodes_data. simpl. apply Forall_fmap.
    eapply Forall_impl; [apply (models_dict_ok nodes nodes []); by auto|].
    intros [f needed] [Hne Hneeded]. simpl in *. split.
    - by apply sorted_nonempty.
    - intros t Ht%sorted_elem. by apply Hneeded. }
  split; [done|]. split; [by apply infer_records_carry_keys|].
  intros ast_parse str_lower self.
  revert Hmodels. generalize (transform_nodes_data nodes) as data. intros data Hmodels.
  destruct (infer_model_paths_cases ast_parse str_lower (as_manifest data) (self, []))
    as (w' & [[Hex _] | [(_ & Hex & _) | (out & Hrun & _)]]).
  - apply Exists_exists in Hex as (model & Hin & Hnone).
    unfold ModelPathInference.get_models, as_manifest in Hin. simpl in Hin.
    by apply list_elem_of_fmap in Hin as (m & -> & _).
  - apply Exists_exists in Hex as (model & Hin & Hnone).
    unfold ModelPathInference.get_models, as_manifest in Hin. simpl in Hin.
    by apply list_elem_of_fmap in Hin as (m & -> & _).
  - exists out, w'. split; [done|].
    apply infer_records_carry_keys in Hrun.
    unfold ModelPathInference.get_models, as_manifest in Hrun. simpl in Hrun.
    revert Hmodels Hrun. generalize (models data) as ms.
    intros ms. revert out.
    induction ms as [|m ms IH]; intros out Hms Hout.
    + by apply Forall2_nil_inv_l in Hout as ->.
    + apply Forall2_cons_inv_l in Hout as (r & out' & [Hf Hn] & Hout & ->).
      apply Forall_cons in Hms as [[Hne _] Hms]. simpl in Hf, Hn.
      injection Hf as Hf. injection Hn as Hn.
      destruct (IH out' Hms Hout) as (Hfs & Hns & Hall).
      rewrite !fmap_cons, Hfs, Hns, <-Hf, <-Hn.
      split_and!; [done..|]. constructor; [congruence | done].
Qed.

End Transform.

(** ** The syntax-tree walk *)

Section Walk.

Lemma node_size_children n :
  node_size n = S (sum_list_with node_size (iter_child_nodes n)).
Proof.
  destruct n as [body|name bases keywords body decos|name args body decos returns|
                 targets value|func args keywords|value attr|id|value|keys values|
                 children]; simpl; f_equal;
    rewrite ?sum_list_with_app; simpl; try lia.
  - destruct returns; simpl; lia.
  - f_equal. induction keys as [|[k|] keys IH]; simpl; [done| |done].
    f_equal. exact IH.
Qed.

(** More steps than the queue has nodes change nothing: the walk is not
    cut short. *)
Lemma walk_queue_enough steps todo :
  sum_list_with node_size todo ≤ steps →
  walk_queue steps todo = walk_queue (sum_list_with node_size todo) todo.
Proof.
  revert todo. induction steps as [|steps IH]; intros [|n todo] Hle; simpl in *;
    try done.
  - pose proof (node_size_children n). lia.
  - rewrite (node_size_children n) in *. simpl. f_equal.
    rewrite IH by (rewrite sum_list_with_app; lia).
    f_equal. rewrite sum_list_with_app. lia.
Qed.

Lemma walk_queue_length steps todo :
  sum_list_with node_size todo ≤ steps →
  length (walk_queue steps todo) = sum_list_with node_size todo.
Proof.
  revert todo. induction steps as [|steps IH]; intros [|n todo] Hle; simpl in *;
    try done.
  - pose proof (node_size_children n). lia.
  - rewrite (node_size_children n) in *. simpl. f_equal.
    rewrite IH by (rewrite sum_list_with_app; lia).
    rewrite sum_list_with_app. lia.
Qed.

(** The walk of a tree yields exactly as many nodes as the tree has, and
    is the same with any larger number of steps. *)
Lemma walk_is_complete :
  ∀ (tree : node) (extra : nat),
    walk_queue (node_size tree + extra) [tree] = walk tree ∧
    length (walk tree) = node_size tree.
Proof.
  intros tree extra. unfold walk. split.
  - rewrite walk_queue_enough by (simpl; lia). simpl. by rewrite Nat.add_0_r.
  - rewrite walk_queue_length by (simpl; lia). simpl. lia.
Qed.

End Walk.

(** ** The class-mapping loader *)

Section Loader.
Import ModelPathInference.
Variable ast_parse : string → option node.

Lemma for_update {S A} (l : list A) (body : A → M S ()) (upd : A → S → S) s tr :
  (∀ x s tr, body x (s, tr) = (inr (), (upd x s, tr))) →
  for_ l body (s, tr) = (inr (), (foldl (λ s x, upd x s) s l, tr)).
Proof.
  intros Hbody. revert s. induction l as [|x l IH]; intros s; simpl; [done|].
  by rewrite (bind_inr _ _ _ _ _ (Hbody x s tr)), IH.
Qed.

Lemma set_node_class_mappings_id self :
  set_node_class_mappings (λ m, m) self = self.
Proof. by destruct self. Qed.

Lemma assign_all_app l1 l2 m :
  Spec.assign_all (l1 ++ l2) m = Spec.assign_all l2 (Spec.assign_all l1 m).
Proof. unfold Spec.assign_all. by rewrite foldl_app. Qed.

Lemma set_assign_all_app l1 l2 self :
  set_node_class_mappings (Spec.assign_all (l1 ++ l2)) self =
  set_node_class_mappings (Spec.assign_all l2)
    (set_node_class_mappings (Spec.assign_all l1) self).
Proof.
  unfold set_node_class_mappings. simpl. f_equal. apply assign_all_app.
Qed.

(** The loop over the entries of a registration dictionary. *)
Lemma load_entries_run (entries : list (option node * node)) self tr :
  for_ entries (λ kv,
      match kv with
      | (Some (Constant key), Name value) =>
          Monad.modify (set_node_class_mappings <[key := value]>)
      | _ => mret ()
      end) (self, tr) =
  (inr (), (set_node_class_mappings
              (Spec.assign_all
                 (omap (λ kv, match kv with
                              | (Some (Constant key), Name value) => Some (key, value)
                              | _ => None
                              end) entries)) self, tr)).
Proof.
  revert self. induction entries as [|[key value] entries IH]; intros self; simpl.
  - by rewrite set_node_class_mappings_id.
  - destruct key as [[]|], value; simpl;
      try (rewrite (bind_inr (mret ()) _ _ () (self, tr) eq_refl); by rewrite IH).
    rewrite (bind_inr (Monad.modify _) _ (self, tr) ()
               (set_node_class_mappings <[value0 := id]> self, tr) eq_refl).
    by rewrite IH.
Qed.

(** The loop over the nodes [ast.walk] gives. *)
Lemma load_nodes_run (nodes : list node) self tr :
  for_ nodes (λ node,
      match node with
      | Assign [Name target] (Dict keys values) =>
          if decide (target = "NODE_CLASS_MAPPINGS") then
            for_ (zip keys values) (λ kv,
              match kv with
              | (Some (Constant key), Name value) =>
                  Monad.modify (set_node_class_mappings <[key := value]>)
              | _ => mret ()
              end)
          else mret ()
      | _ => mret ()
      end) (self, tr) =
  (inr (), (set_node_class_mappings
              (Spec.assign_all (concat (Spec.node_aliases <$> nodes))) self, tr)).
Proof.
  revert self. induction nodes as [|n nodes IH]; intros self.
  - simpl. by rewrite set_node_class_mappings_id.
  - cbn [for_ fmap list_fmap concat]. rewrite set_assign_all_app.
    assert (∀ w : t * list event, (mret () : M t ()) w = (inr (), w)) as Hret
      by done.
    destruct n as [| | |[|[| | | | | |target| | |] [|]] value| | | | | |];
      try (rewrite (bind_inr _ _ _ _ _ (Hret _)), IH; done).
    destruct value;
      try (rewrite (bind_inr _ _ _ _ _ (Hret _)), IH; done).
    unfold Spec.node_aliases.
    destruct (decide (target = "NODE_CLASS_MAPPINGS")).
    + by rewrite (bind_inr _ _ _ _ _ (load_entries_run _ _ _)), IH.
    + by rewrite (bind_inr _ _ _ _ _ (Hret _)), IH.
Qed.

Lemma read_run file self tr :
  read file (self, tr) =
  (match file_content file with
   | Some content => inr content
   | None => inl (OSError (file_path file))
   end, (self, tr ++ [EvOpen (file_path file)])).
Proof. unfold read. unfold_M. by destruct (file_content file). Qed.

Lemma parse_run file content self tr :
  parse ast_parse file content (self, tr) =
  (match ast_parse content with
   | Some tree => inr tree
   | None => inl SyntaxError
   end, (self, tr ++ [EvParse (file_path file)])).
Proof. unfold parse. unfold_M. by destruct (ast_parse content). Qed.

(** A file the loader gets through adds its aliases; one it does not get
    through raises, the aliases as they were. *)
Lemma load_file_run file self tr :
  load_file ast_parse file (self, tr) =
  if Spec.loadable ast_parse file then
    (inr (), (set_node_class_mappings
                (Spec.assign_all (Spec.file_aliases ast_parse file)) self,
              tr ++ Spec.load_events ast_parse file))
  else (inl (Spec.load_failure file), (self, tr ++ Spec.load_events ast_parse file)).
Proof.
  unfold load_file, Spec.loadable, Spec.file_aliases, Spec.load_events,
    Spec.load_failure.
  rewrite bind_run, read_run.
  destruct (file_content file) as [content|]; [|done].
  destruct (Str.contains "NODE_CLASS_MAPPINGS" content); simpl.
  - rewrite bind_run, parse_run, <-app_assoc. simpl.
    destruct (ast_parse content) as [tree|]; simpl.
    + apply load_nodes_run.
    + done.
  - unfold_M. by rewrite set_node_class_mappings_id.
Qed.

Lemma load_files_run (files : list SourceFile) self tr :
  Forall (λ file, Spec.loadable ast_parse file = true) files →
  for_ files (load_file ast_parse) (self, tr) =
  (inr (), (set_node_class_mappings
              (Spec.assign_all (concat (Spec.file_aliases ast_parse <$> files))) self,
            tr ++ concat (Spec.load_events ast_parse <$> files))).
Proof.
  revert self tr. induction files as [|file files IH]; intros self tr Hfiles.
  - simpl. by rewrite set_node_class_mappings_id, app_nil_r.
  - apply Forall_cons in Hfiles as [Hfile Hfiles].
    cbn [for_ fmap list_fmap concat].
    erewrite bind_inr; [|by rewrite load_file_run, Hfile].
    rewrite IH by done. by rewrite set_assign_all_app, app_assoc.
Qed.

(** In a tree all of whose files the loader gets through, the AliasTable
    receives the aliases of every file, in the order of the listing, hidden
    paths included. *)
Lemma loader_without_failure self tr :
  Forall (λ file, Spec.loadable ast_parse file = true) (custom_nodes_path self) →
  _load_node_class_mappings ast_parse (self, tr) =
  (inr (), (set_node_class_mappings
              (Spec.assign_all
                 (concat (Spec.file_aliases ast_parse <$> custom_nodes_path self)))
              self,
            tr ++ concat (Spec.load_events ast_parse <$> custom_nodes_path self))).
Proof.
  intros Hfiles. unfold _load_node_class_mappings, Monad.try_except.
  rewrite (bind_inr Monad.get _ (self, tr) self (self, tr) eq_refl).
  by rewrite load_files_run.
Qed.

(** The first file the loader does not get through ends the loading: the
    exception is logged, and the AliasTable has the aliases of the files
    before it only, whatever follows. *)
Lemma loader_stops_at_first_failure self tr before bad after :
  custom_nodes_path self = before ++ bad :: after →
  Forall (λ file, Spec.loadable ast_parse file = true) before →
  Spec.loadable ast_parse bad = false →
  _load_node_class_mappings ast_parse (self, tr) =
  (inr (), (set_node_class_mappings
              (Spec.assign_all (concat (Spec.file_aliases ast_parse <$> before))) self,
            tr ++ concat (Spec.load_events ast_parse <$> before) ++
              Spec.load_events ast_parse bad ++
              [EvErrorLoading (Spec.load_failure bad)])).
Proof.
  intros Htree Hbefore Hbad. unfold _load_node_class_mappings, Monad.try_except.
  rewrite (bind_inr Monad.get _ (self, tr) self (self, tr) eq_refl), Htree.
  erewrite for_raises;
    [|by apply load_files_run|by rewrite load_file_run, Hbad].
  unfold_M. by rewrite <-!app_assoc.
Qed.

(** The scanner opens, parses and reports on files without a hidden path
    component only. *)
Lemma scanner_skips_hidden_paths self tr r self' tr' :
  _analyze_node_classes ast_parse (self, tr) = (r, (self', tr')) →
  ∃ evs, tr' = tr ++ evs ∧
         ∀ ev p, ev ∈ evs → Spec.event_path ev = Some p → hidden p = false.
Proof.
  intros Hrun.
  destruct (analyze_files_run ast_parse (_find_python_files self))
    as (results & evs & Hfiles & _ & _ & Hpaths).
  destruct (merge_results_run results self (tr ++ evs)) as (k & Hmerge & _).
  unfold _analyze_node_classes in Hrun.
  rewrite (bind_inr Monad.get _ (self, tr) self (self, tr) eq_refl) in Hrun.
  rewrite (bind_inr _ _ _ _ _ (Hfiles _)) in Hrun. cbn [fst snd] in Hrun.
  rewrite Hmerge in Hrun. injection Hrun as _ _ <-. exists evs. split; [done|].
  intros ev p Hev Hp. destruct (Hpaths ev Hev) as (file & Hfile & Hpath).
  unfold _find_python_files in Hfile.
  apply list_elem_of_filter in Hfile as [Hhidden _].
  assert (p = file_path file) as -> by congruence.
  by destruct (hidden (file_path file)).
Qed.

End Loader.

(** ** The source visitor *)

Section Visitor.
Import NodeVisitor.

Lemma folder_argument_spec func args folder_name :
  folder_argument func args = Some folder_name ↔
  func = Attribute (Name "folder_paths") "get_filename_list" ∧
  ∃ rest, args = Constant folder_name :: rest.
Proof.
  unfold folder_argument. split.
  - destruct func as [| | | | |[]| | | |]; try done.
    destruct args as [|[] rest]; try done.
    case_decide as Hnames; [|done]. destruct Hnames as [-> ->].
    intros [= ->]. eauto.
  - intros [-> [rest ->]]. by rewrite decide_True.
Qed.

Lemma node_size_child n c : c ∈ iter_child_nodes n → node_size c < node_size n.
Proof.
  intros Hc. rewrite (node_size_children n).
  pose proof (sum_list_with_in _ node_size _ Hc). lia.
Qed.

Lemma existsb_false {A} (f : A → bool) l x :
  existsb f l = false → x ∈ l → f x = false.
Proof.
  intros Hl Hx. destruct (f x) eqn:Hfx; [|done].
  rewrite <-Hl. symmetry. apply existsb_exists. exists x.
  split; [by apply list_elem_of_In | done].
Qed.

Lemma has_class_children n c :
  Spec.has_class n = false → c ∈ iter_child_nodes n → Spec.has_class c = false.
Proof.
  destruct n as [body|name bases keywords body decos|name args body decos returns|
                 targets value|func args keywords|value attr|id|value|keys values|
                 children]; simpl; try done;
    rewrite ?orb_false_iff; intros Hn Hc; destruct_and?;
    repeat (apply elem_of_app in Hc as [Hc|Hc] || apply elem_of_cons in Hc as [->|Hc]);
    try done; try (by apply elem_of_nil in Hc); eauto using existsb_false.
  - destruct returns as [r|]; simpl in Hc; [|by apply elem_of_nil in Hc].
    by apply list_elem_of_singleton in Hc as ->.
  - apply list_elem_of_omap in Hc as ([k|] & Hk & [= ->]).
    match goal with
    | H : existsb _ keys = false |- _ => by apply (existsb_false _ _ _ H) in Hk
    end.
Qed.

Lemma visit_all_fixed (visit : node → t → t) l self :
  (∀ c, c ∈ l → visit c self = self) → visit_all visit l self = self.
Proof.
  unfold visit_all. induction l as [|c l IH]; intros Hl; simpl; [done|].
  rewrite Hl by left. apply IH. intros c' Hc'. apply Hl. by right.
Qed.

(** Outside of any class, and with no class in the tree, visiting changes
    nothing: a qualifying call records no folder as long as no class
    definition was entered. *)
Lemma visit_without_class n :
  ∀ self, current_class self = None → Spec.has_class n = false → visit n self = self.
Proof.
  induction n as [n IH] using (induction_ltof1 _ node_size).
  intros self Hnone Hclass.
  assert (∀ c, c ∈ iter_child_nodes n → visit c self = self) as Hchildren.
  { intros c Hc. apply IH; [by apply node_size_child|done|].
    by apply (has_class_children n). }
  destruct n as [body|name bases keywords body decos|name args body decos returns|
                 targets value|func args keywords|value attr|id|value|keys values|
                 children]; simpl in Hchildren; try done; cbn [visit generic_visit_with].
  - apply visit_all_fixed. auto.
  - rewrite (Hchildren args) by left.
    rewrite (visit_all_fixed visit body self)
      by (intros; apply Hchildren; set_solver).
    rewrite (visit_all_fixed visit decos self)
      by (intros; apply Hchildren; set_solver).
    destruct returns; [|done]. apply Hchildren. set_solver.
  - rewrite (visit_all_fixed visit targets self)
      by (intros; apply Hchildren; set_solver).
    apply Hchildren. set_solver.
  - assert (match folder_argument func args with
            | Some folder_name => record_folder folder_name self
            | None => self
            end = self) as ->.
    { destruct (folder_argument func args); [|done].
      unfold record_folder. by rewrite Hnone. }
    rewrite (Hchildren func) by left.
    rewrite (visit_all_fixed visit args self)
      by (intros; apply Hchildren; set_solver).
    by rewrite (visit_all_fixed visit keywords self)
      by (intros; apply Hchildren; set_solver).
  - apply Hchildren. by left.
  - assert (∀ l s, (∀ k, Some k ∈ l → visit k s = s) →
              fold_left (λ self k, match k with Some k => visit k self | None => self end)
                        l s = s) as Hkeys.
    { induction l as [|[k|] l IHl]; intros s Hl; simpl; [done|..].
      - rewrite Hl by left. apply IHl. intros k' Hk'. apply Hl. by right.
      - apply IHl. intros k' Hk'. apply Hl. by right. }
    rewrite (Hkeys keys self).
    + apply visit_all_fixed. intros c Hc. apply Hchildren. set_solver.
    + intros k Hk. apply Hchildren. apply elem_of_app. left.
      apply list_elem_of_omap. by exists (Some k).
  - apply visit_all_fixed. auto.
Qed.

(** The analysis of a tree that has no class definition finds no folder,
    whatever qualifying calls the tree has. *)
Lemma analysis_of_tree_without_class tree :
  Spec.has_class tree = false →
  class_folders (visit tree __init__) = ∅.
Proof. intros Hclass. by rewrite visit_without_class. Qed.

End Visitor.

(** ** The code on the example inputs *)

Section Evaluations.
Import ModelPathInference Examples.

(** C4, where the code departs from it. The visitor never resets
    [current_class] when it leaves a class: a qualifying call at module
    level that follows a class definition is recorded as a folder of that
    class ([A] here, whose body has no such call), although no class
    encloses it. The same call alone in a module records nothing. *)
Theorem module_level_call_after_class_is_recorded :
  NodeVisitor.class_folders
    (NodeVisitor.visit module_level_tree NodeVisitor.__init__) =
    {[ "A" := [("vae", "vae")] ]} ∧
  NodeVisitor.class_folders
    (NodeVisitor.visit bare_call_tree NodeVisitor.__init__) = ∅ ∧
  (run (_analyze_file ast_parse (file nodes_py module_level_text)) (__init__ [])).1 =
    inr {[ "A" := [("vae", "vae")] ]} ∧
  (infer [file nodes_py module_level_text] (manifest [model "decoder.pt" ["A"]])).1 =
    inr [Spec.class_derived_record "decoder.pt" ["A"] "A" "A" [("vae", "vae")] "vae"].
Proof. split_and!; by vm_compute. Qed.

(** C5, where the code departs from it. The [try] of the loader encloses
    its loop over the files: the first file that cannot be read or parsed
    ends the loop, and the files after it are never opened. The alias of
    the second package is lost when the first one fails, and found when
    the failing package comes second. *)
Theorem loader_stops_at_first_failing_file :
  load [broken_py; mappings_py] =
    (inr (), (__init__ [broken_py; mappings_py],
              [EvOpen (file_path broken_py); EvParse (file_path broken_py);
               EvErrorLoading SyntaxError])) ∧
  load [unreadable_py; mappings_py] =
    (inr (), (__init__ [unreadable_py; mappings_py],
              [EvOpen (file_path unreadable_py);
               EvErrorLoading (OSError (file_path unreadable_py))])) ∧
  node_class_mappings (load [mappings_py; broken_py]).2.1 =
    {[ "MyNode" := "ActualClass" ]} ∧
  node_class_mappings (load [mappings_py]).2.1 = {[ "MyNode" := "ActualClass" ]}.
Proof. split_and!; by vm_compute. Qed.

(** C10, where the code departs from it. A file below a hidden directory
    that contains "NODE_CLASS_MAPPINGS" is read, parsed and merged by the
    loader when the loader reaches it, and never opened by the scanner; but
    the loader does not reach it when a file before it fails, and then its
    aliases are not in the AliasTable. *)
Theorem hidden_file_after_failing_file_is_not_loaded :
  hidden (file_path hidden_py) = true ∧
  Str.contains "NODE_CLASS_MAPPINGS" mappings_text = true ∧
  (load [broken_py; hidden_py]).2.2 =
    [EvOpen (file_path broken_py); EvParse (file_path broken_py);
     EvErrorLoading SyntaxError] ∧
  node_class_mappings (load [broken_py; hidden_py]).2.1 = ∅ ∧
  (load [hidden_py]).2.2 =
    [EvOpen (file_path hidden_py); EvParse (file_path hidden_py)] ∧
  node_class_mappings (load [hidden_py]).2.1 = {[ "MyNode" := "ActualClass" ]} ∧
  (scan [hidden_py]).2.2 = [].
Proof. split_and!; by vm_compute. Qed.

(** C1 as stated fails: the class of the model's requiring node type has a
    non-empty folder set in the ClassFolderMap, so a class-derived folder is
    found, but the folder is the empty string (the class calls
    [get_filename_list('')]); the orchestrator then consults the filename
    heuristic, and the model resolves to "checkpoints", with the evidence
    of a guess. The same happens with a folder dictionary that holds the
    integer 0 (the class calls [get_filename_list(0)]). *)
Lemma empty_class_folder_falls_back_to_heuristic :
  let result := infer [file nodes_py (node_class_text "")] checkpoint_manifest in
  Spec.first_class_hit result.2.1 ["Loader"] 0 "Loader" "Loader" [("", "")] ∧
  ODict.first_value [("", "")] = Some "" ∧
  result.1 =
    inr [ {| Output.filename := "my_checkpoint.safetensors";
             Output.required_by := ["Loader"];
             Output.node_info :=
               Some {| Output.model_folders := [("checkpoints", "checkpoints")];
                       Output.source_file := "guessed_from_filename";
                       Output.node_class := None;
                       Output.display_name := None |};
             Output.inferred_path :=
               Some "models/checkpoints/my_checkpoint.safetensors" |} ] ∧
  FolderResolution.resolve (λ n : Z, negb (n =? 0)%Z) Str.lower ∅
    ({[ "Loader" := [(0, 0)%Z] ]} : gmap string (list (Z * Z)))
    "my_checkpoint.safetensors" ["Loader"] =
    (Some (FolderResolution.guessed_folder "checkpoints"),
     Some (FolderResolution.guessed_from_filename "checkpoints")).
Proof.
  split_and!; [|done|by vm_compute|by vm_compute].
  unfold Spec.first_class_hit. split_and!; [by vm_compute..| |intros; lia].
  discriminate.
Qed.

(** C6 as stated fails: a manifest without the key [models] raises
    nothing, the call returns the empty list of records. *)
Lemma manifest_without_models_is_not_an_error :
  (infer [] {| Manifest.models := None |}).1 = inr [] ∧
  (infer [file nodes_py (node_class_text "loras")] {| Manifest.models := None |}).1 =
    inr [].
Proof. split; by vm_compute. Qed.

End Evaluations.

(** ** The theorems at concrete inputs *)

Section Witnesses.
Import ModelPathInference Examples.

(** Folder dictionaries of integers, where 0 is falsy: the class "A" of
    the second requiring node type is the first with folders, and its
    folder 0 sends a filename without pattern to no folder, with the
    evidence of "A" and not of "B"; the folder 7 of "B" is taken whatever
    the filename matches. Then the run in which the class of the model
    declares "loras" and its filename matches the pattern "checkpoint":
    the model resolves to "loras". *)
Lemma class_folder_precedes_heuristic_witness :
  let truthy := λ n : Z, negb (n =? 0)%Z in
  let class_folders : gmap string (list (Z * Z)) :=
    {[ "A" := [(0, 0)%Z]; "B" := [(7, 7)%Z] ]} in
  let tree := [file nodes_py (node_class_text "loras")] in
  FolderResolution.first_hit ∅ class_folders ["Z"; "A"; "B"] 1 "A" "A" [(0, 0)%Z] ∧
  FolderResolution.resolve truthy Str.lower ∅ class_folders "model.bin"
                           ["Z"; "A"; "B"] =
    (None, Some (FolderResolution.found_in_class_definition [(0, 0)%Z] "A" "A")) ∧
  FolderResolution.first_hit ∅ class_folders ["B"; "A"] 0 "B" "B" [(7, 7)%Z] ∧
  FolderResolution.resolve truthy Str.lower ∅ class_folders
                           "my_checkpoint.safetensors" ["B"; "A"] =
    (Some (FolderResolution.class_folder 7%Z),
     Some (FolderResolution.found_in_class_definition [(7, 7)%Z] "B" "B")) ∧
  _guess_model_folder Str.lower "my_checkpoint.safetensors" = Some "checkpoints" ∧
  ∃ out self' tr,
    infer tree checkpoint_manifest = (inr out, (self', tr)) ∧
    Spec.first_class_hit self' ["Loader"] 0 "Loader" "Loader" [("loras", "loras")] ∧
    out !! 0 = Some (Spec.class_derived_record "my_checkpoint.safetensors" ["Loader"]
                       "Loader" "Loader" [("loras", "loras")] "loras") ∧
    Output.inferred_path <$> out !! 0 =
      Some (Some "models/loras/my_checkpoint.safetensors").
Proof.
  intros truthy class_folders tree.
  destruct class_folder_precedes_heuristic as [Hloop Hrecords].
  assert (FolderResolution.first_hit ∅ class_folders ["Z"; "A"; "B"] 1 "A" "A"
            [(0, 0)%Z]) as HhitA.
  { unfold FolderResolution.first_hit.
    split_and!; [by vm_compute..|discriminate|].
    intros [|j'] d Hlt Hd; [|lia]. injection Hd as <-. left. by vm_compute. }
  assert (FolderResolution.first_hit ∅ class_folders ["B"; "A"] 0 "B" "B"
            [(7, 7)%Z]) as HhitB.
  { unfold FolderResolution.first_hit.
    split_and!; [by vm_compute..|discriminate|intros; lia]. }
  split; [exact HhitA|]. split.
  { destruct (Hloop Z truthy Str.lower ∅ class_folders "model.bin" ["Z"; "A"; "B"] 1
                "A" "A" [(0, 0)%Z] HhitA) as (folder & [= <-] & _ & _ & Hfalsy).
    by rewrite Hfalsy. }
  split; [exact HhitB|]. split.
  { destruct (Hloop Z truthy Str.lower ∅ class_folders "my_checkpoint.safetensors"
                ["B"; "A"] 0 "B" "B" [(7, 7)%Z] HhitB)
      as (folder & [= <-] & _ & Htruthy & _).
    by rewrite Htruthy. }
  split; [reflexivity|].
  set (result := infer tree checkpoint_manifest).
  assert (result =
          (inr [Spec.class_derived_record "my_checkpoint.safetensors" ["Loader"]
                  "Loader" "Loader" [("loras", "loras")] "loras"],
           (result.2.1, result.2.2))) as Hrun by (by vm_compute).
  assert (Spec.first_class_hit result.2.1 ["Loader"] 0 "Loader" "Loader"
            [("loras", "loras")]) as Hhit.
  { unfold Spec.first_class_hit.
    split_and!; [by vm_compute..|discriminate|intros; lia]. }
  destruct (Hrecords ast_parse Str.lower checkpoint_manifest
              (__init__ tree) result.2.1 _ result.2.2 0 0
              (model "my_checkpoint.safetensors" ["Loader"])
              "my_checkpoint.safetensors" "Loader" "Loader" ["Loader"]
              [("loras", "loras")] Hrun eq_refl eq_refl eq_refl Hhit)
    as (_ & folder & [= <-] & _ & Hout & _).
  eexists _, _, _. split; [exact Hrun|]. split; [exact Hhit|].
  split; [by apply Hout|]. by rewrite Hout.
Defined.

(** The second entry of the manifest has no filename: [KeyError]. *)
Lemma missing_model_key_is_fatal_witness :
  let models := [model "a.pt" ["Loader"];
                 {| Manifest.filename := None; Manifest.needed_by := Some ["Loader"] |}] in
  Exists (λ model, Manifest.filename model = None ∨ Manifest.needed_by model = None)
         models ∧
  (infer [file nodes_py (node_class_text "loras")] (manifest models)).1 =
    inl (KeyError "filename") ∧
  ∃ key, (key = "filename" ∨ key = "needed_by") ∧
         (infer [file nodes_py (node_class_text "loras")] (manifest models)).1 =
           inl (KeyError key).
Proof.
  intros models.
  assert (Exists (λ model, Manifest.filename model = None ∨
                           Manifest.needed_by model = None) models) as Hmissing.
  { right. left. by left. }
  split; [exact Hmissing|]. split; [by vm_compute|].
  exact (proj2 (missing_model_key_is_fatal ast_parse Str.lower (manifest models)
                  (__init__ [file nodes_py (node_class_text "loras")]))
               models eq_refl Hmissing).
Defined.

(** A model of an unknown node type with a filename that matches no
    pattern, over an empty source tree. *)
Lemma unresolved_model_has_null_path_and_info_witness :
  let models_data := manifest [model "mystery.bin" ["UnknownNode"]] in
  Forall (λ model, is_Some (Manifest.filename model) ∧
                   is_Some (Manifest.needed_by model))
         (get_models models_data) ∧
  Spec.no_match Spec.heuristic_table (Str.lower "mystery.bin") ∧
  ∃ out self' tr,
    infer [] models_data = (inr out, (self', tr)) ∧
    Spec.no_class_entry self' ["UnknownNode"] ∧
    ∃ r, out !! 0 = Some r ∧
         Output.filename r = "mystery.bin" ∧
         Output.required_by r = ["UnknownNode"] ∧
         Output.inferred_path r = None ∧
         Output.node_info r = None.
Proof.
  intros models_data.
  assert (Forall (λ model, is_Some (Manifest.filename model) ∧
                           is_Some (Manifest.needed_by model))
                 (get_models models_data)) as Hkeys.
  { repeat constructor; by eexists. }
  assert (Spec.no_match Spec.heuristic_table (Str.lower "mystery.bin")) as Hpatterns.
  { by apply first_pattern_none. }
  split; [exact Hkeys|]. split; [exact Hpatterns|].
  destruct (unresolved_model_has_null_path_and_info ast_parse Str.lower models_data
              (__init__ []) Hkeys) as (out & self' & tr & Hrun & Hall).
  exists out, self', tr. split; [exact Hrun|].
  assert (Spec.no_class_entry self' ["UnknownNode"]) as Hclasses.
  { assert (self' = (infer [] models_data).2.1) as ->.
    { unfold infer. by rewrite Hrun. }
    intros d Hd. elem_cases Hd. }
  split; [exact Hclasses|].
  exact (Hall 0 (model "mystery.bin" ["UnknownNode"]) "mystery.bin" ["UnknownNode"]
           eq_refl eq_refl eq_refl Hclasses Hpatterns).
Defined.

(** A file with a qualifying call inside a class, whose text does not
    contain "INPUT_TYPES": visiting its tree would find the folder, its
    analysis returns nothing and does not parse it. *)
Lemma analyze_file_without_marker_witness :
  file_content (file nodes_py no_marker_text) = Some no_marker_text ∧
  ¬ Str.substring "INPUT_TYPES" no_marker_text ∧
  ast_parse no_marker_text = Some no_marker_tree ∧
  NodeVisitor.class_folders (NodeVisitor.visit no_marker_tree NodeVisitor.__init__) =
    {[ "Loader" := [("vae", "vae")] ]} ∧
  _analyze_file ast_parse (file nodes_py no_marker_text) (__init__ [], []) =
    (inr ∅, (__init__ [], [EvOpen nodes_py])).
Proof.
  assert (¬ Str.substring "INPUT_TYPES" no_marker_text) as Hmarker.
  { by apply contains_false. }
  split_and!; [reflexivity|exact Hmarker|by vm_compute|by vm_compute|].
  exact (proj1 (analyze_file_without_marker ast_parse (file nodes_py no_marker_text)
                  no_marker_text (__init__ []) [] eq_refl Hmarker)).
Defined.

(** The required class is covered after the first of two results: the
    second file was analysed, its result is not merged. *)
Lemma analyze_node_classes_merges_until_covered_witness :
  let self := set_required_node_types {[ "Loader" ]} (__init__ two_packs) in
  let result := run (_analyze_node_classes ast_parse) self in
  result.2.2 =
    [EvOpen ["custom_nodes"; "a"; "nodes.py"]; EvParse ["custom_nodes"; "a"; "nodes.py"];
     EvOpen ["custom_nodes"; "b"; "nodes.py"]; EvParse ["custom_nodes"; "b"; "nodes.py"]] ∧
  node_class_folders result.2.1 = {[ "Loader" := [("loras", "loras")] ]} ∧
  (for_list (_find_python_files self) (_analyze_file ast_parse) (self, [])).1 =
    inr [ {[ "Loader" := [("loras", "loras")] ]}; {[ "A" := [("vae", "vae")] ]} ] ∧
  ∃ results evs k,
    result = (inr (), (set_node_class_folders (Spec.merged k results) self, [] ++ evs)) ∧
    k ≤ length results.
Proof.
  intros self result.
  split; [by vm_compute|]. split; [by vm_compute|]. split; [by vm_compute|].
  destruct (analyze_node_classes_merges_until_covered ast_parse self [])
    as (results & evs & k & _ & _ & _ & _ & Hrun & Hle & _).
  exists results, evs, k. split; [exact Hrun | exact Hle].
Defined.

(** The manifest of the example workflow: two models, each with the types
    of the nodes that name it. *)
Lemma model_records_have_requiring_nodes_witness :
  WorkflowProcessor.models (WorkflowProcessor.transform_nodes_data workflow_nodes) =
    [ {| WorkflowProcessor.filename := "style.safetensors";
         WorkflowProcessor.needed_by := ["LoraLoader"] |};
      {| WorkflowProcessor.filename := "base.ckpt";
         WorkflowProcessor.needed_by := ["CheckpointLoader"; "LoraLoader"] |} ] ∧
  ∃ out w',
    run (infer_model_paths ast_parse Str.lower
           (WorkflowProcessor.as_manifest
              (WorkflowProcessor.transform_nodes_data workflow_nodes)))
        (__init__ two_packs) = (inr out, w') ∧
    Output.filename <$> out =
      WorkflowProcessor.filename <$>
        WorkflowProcessor.models (WorkflowProcessor.transform_nodes_data workflow_nodes) ∧
    Output.required_by <$> out =
      WorkflowProcessor.needed_by <$>
        WorkflowProcessor.models (WorkflowProcessor.transform_nodes_data workflow_nodes) ∧
    Forall (λ r, Output.required_by r ≠ []) out.
Proof.
  split; [by vm_compute|].
  exact (proj2 (proj2 (model_records_have_requiring_nodes workflow_nodes))
               ast_parse Str.lower (__init__ two_packs)).
Defined.

(** The first package does not parse: the second is never opened. *)
Lemma loader_stops_at_first_failure_witness :
  Spec.loadable ast_parse broken_py = false ∧
  load [broken_py; mappings_py] =
    (inr (), (__init__ [broken_py; mappings_py],
              [EvOpen (file_path broken_py); EvParse (file_path broken_py);
               EvErrorLoading SyntaxError])).
Proof.
  assert (Spec.loadable ast_parse broken_py = false) as Hbad by reflexivity.
  split; [exact Hbad|].
  exact (loader_stops_at_first_failure ast_parse (__init__ [broken_py; mappings_py]) []
           [] broken_py [mappings_py] eq_refl (Forall_nil_2 _) Hbad).
Defined.

(** Both files load: the later assignment of a display name is the one
    that stays, and the hidden file is read like the other. *)
Lemma loader_without_failure_witness :
  Forall (λ file, Spec.loadable ast_parse file = true) [mappings_py; hidden_py] ∧
  load [mappings_py; hidden_py] =
    (inr (), (set_node_class_mappings
                (Spec.assign_all [("MyNode", "ActualClass"); ("MyNode", "ActualClass")])
                (__init__ [mappings_py; hidden_py]),
              [EvOpen (file_path mappings_py); EvParse (file_path mappings_py);
               EvOpen (file_path hidden_py); EvParse (file_path hidden_py)])).
Proof.
  assert (Forall (λ file, Spec.loadable ast_parse file = true) [mappings_py; hidden_py])
    as Hfiles by (repeat constructor).
  split; [exact Hfiles|].
  exact (loader_without_failure ast_parse (__init__ [mappings_py; hidden_py]) [] Hfiles).
Defined.

(** A tree with a hidden file and a visible one: the scanner's events are
    about the visible one. *)
Lemma scanner_skips_hidden_paths_witness :
  let tree := [hidden_py; file nodes_py (node_class_text "loras")] in
  (scan tree).2.2 = [EvOpen nodes_py; EvParse nodes_py] ∧
  ∃ evs, (scan tree).2.2 = [] ++ evs ∧
         ∀ ev p, ev ∈ evs → Spec.event_path ev = Some p → hidden p = false.
Proof.
  intros tree. split; [by vm_compute|].
  apply (scanner_skips_hidden_paths ast_parse (__init__ tree) []
           (scan tree).1 (scan tree).2.1 (scan tree).2.2).
  unfold scan, run. by destruct (_analyze_node_classes _ _) as [? [? ?]].
Defined.

(** A module that has a qualifying call and no class. *)
Lemma analysis_of_tree_without_class_witness :
  Spec.has_class bare_call_tree = false ∧
  NodeVisitor.class_folders (NodeVisitor.visit bare_call_tree NodeVisitor.__init__) = ∅.
Proof.
  assert (Spec.has_class bare_call_tree = false) as Hclass by reflexivity.
  split; [exact Hclass|].
  exact (analysis_of_tree_without_class bare_call_tree Hclass).
Defined.

End Witnesses.

(** * Further properties of the code *)

(** ** Invariants of methods *)

Section Keeps.
Context {S : Type}.
Implicit Types P : S → Prop.

Lemma keeps_ret {A} P (x : A) (Q : A → Prop) : Q x → Props.keeps P (mret x) Q.
Proof. intros HQ w r w' [= <- <-] HP. split; [done|]. by intros ? [= <-]. Qed.

Lemma keeps_raise {A} P e (Q : A → Prop) : Props.keeps P (Monad.raise e) Q.
Proof. intros w r w' [= <- <-] HP. split; [done|]. by intros ? [=]. Qed.

Lemma keeps_bind {A B} P (m : M S A) (k : A → M S B) (Q : A → Prop) (R : B → Prop) :
  Props.keeps P m Q → (∀ x, Q x → Props.keeps P (k x) R) → Props.keeps P (m ≫= k) R.
Proof.
  intros Hm Hk w r w'. rewrite bind_run.
  destruct (m w) as [[e|x] w1] eqn:Hmw; intros Hrun HP.
  - injection Hrun as <- <-. destruct (Hm _ _ _ Hmw HP) as [HP1 _].
    split; [done|]. by intros ? [=].
  - destruct (Hm _ _ _ Hmw HP) as [HP1 HQ].
    by apply (Hk x (HQ x eq_refl) _ _ _ Hrun).
Qed.

Lemma keeps_try {A} P (body : M S A) handler (Q : A → Prop) :
  Props.keeps P body Q → (∀ e, Props.keeps P (handler e) Q) →
  Props.keeps P (Monad.try_except body handler) Q.
Proof.
  intros Hbody Hhandler w r w'. unfold Monad.try_except.
  destruct (body w) as [[e|x] w1] eqn:Hbw; intros Hrun HP.
  - destruct (Hbody _ _ _ Hbw HP) as [HP1 _]. by apply (Hhandler e _ _ _ Hrun).
  - injection Hrun as <- <-. by apply (Hbody _ _ _ Hbw).
Qed.

Lemma keeps_get P : Props.keeps P Monad.get P.
Proof. intros w r w' [= <- <-] HP. split; [done|]. by intros ? [= <-]. Qed.

Lemma keeps_modify P (f : S → S) :
  (∀ s, P s → P (f s)) → Props.keeps P (Monad.modify f) (λ _, True).
Proof. intros Hf w r w' [= <- <-] HP. split; [by apply Hf | done]. Qed.

Lemma keeps_emit P ev : Props.keeps P (Monad.emit ev) (λ _, True).
Proof. by intros w r w' [= <- <-] HP. Qed.

Lemma keeps_weaken {A} P (m : M S A) (Q Q' : A → Prop) :
  Props.keeps P m Q → (∀ x, Q x → Q' x) → Props.keeps P m Q'.
Proof.
  intros Hm HQ w r w' Hrun HP. destruct (Hm _ _ _ Hrun HP) as [HP' HQx].
  split; [done|]. intros x ->. by apply HQ, HQx.
Qed.

Lemma keeps_for {A} P (l : list A) (body : A → M S ()) :
  (∀ x, x ∈ l → Props.keeps P (body x) (λ _, True)) →
  Props.keeps P (for_ l body) (λ _, True).
Proof.
  induction l as [|x l IH]; intros Hbody; simpl.
  - by apply keeps_ret.
  - eapply keeps_bind; [apply Hbody; by left|].
    intros _ _. apply IH. intros y Hy. apply Hbody. by right.
Qed.

Lemma keeps_for_list {A B} P (l : list A) (f : A → M S B) (Q : B → Prop) :
  (∀ x, x ∈ l → Props.keeps P (f x) Q) →
  Props.keeps P (for_list l f) (Forall Q).
Proof.
  induction l as [|x l IH]; intros Hf; simpl.
  - by apply keeps_ret.
  - eapply keeps_bind; [apply Hf; by left|]. intros y Hy.
    eapply keeps_bind; [apply IH; intros z Hz; apply Hf; by right|].
    intros ys Hys. apply keeps_ret. by constructor.
Qed.

End Keeps.

(** ** The shape of the ClassFolderMap *)

Section ClassFolderShape.
Import ModelPathInference.

Lemma odict_set_keys k v (d : ODict.t) :
  (ODict.set k v d).*1 = if decide (k ∈ d.*1) then d.*1 else d.*1 ++ [k].
Proof.
  induction d as [|[k' v'] d IH]; csimpl; [done|].
  destruct (decide (k' = k)) as [->|Hne]; csimpl.
  - by rewrite decide_True by left.
  - rewrite IH. destruct (decide (k ∈ d.*1)) as [Hin|Hnin].
    + by rewrite decide_True by (by right).
    + rewrite decide_False; [done|]. by intros [?|?]%elem_of_cons.
Qed.

Lemma odict_set_ok folder_name (d : ODict.t) :
  Forall (λ kv, kv.1 = kv.2) d → NoDup (d.*1) →
  Props.folders_ok (ODict.set folder_name folder_name d).
Proof.
  intros Hkv Hnodup. split_and!.
  - by destruct d as [|[k v] d]; simpl; [|destruct (decide _)].
  - clear Hnodup. induction d as [|[k v] d IH]; simpl.
    + by repeat constructor.
    + apply Forall_cons in Hkv as [Hk Hkv].
      destruct (decide (k = folder_name)); constructor; auto.
  - rewrite odict_set_keys. destruct (decide (folder_name ∈ d.*1)); [done|].
    apply NoDup_app. split_and!; [done| |apply NoDup_singleton].
    intros k Hk ->%list_elem_of_singleton. done.
Qed.

Lemma record_folder_ok folder_name (self : NodeVisitor.t) :
  Props.class_folders_ok (NodeVisitor.class_folders self) →
  Props.class_folders_ok
    (NodeVisitor.class_folders (NodeVisitor.record_folder folder_name self)).
Proof.
  intros Hok. unfold NodeVisitor.record_folder.
  destruct (NodeVisitor.current_class self) as [cls|]; [|done].
  destruct (Str.truthy cls); [|done]. simpl.
  intros cls' folders. destruct (decide (cls = cls')) as [->|Hne].
  - rewrite lookup_insert_eq. intros [= <-].
    destruct (NodeVisitor.class_folders self !! cls') as [old|] eqn:Hold; simpl.
    + destruct (Hok _ _ Hold) as (_ & ? & ?). by apply (odict_set_ok folder_name old).
    + apply (odict_set_ok folder_name []); [done | apply NoDup_nil_2].
  - rewrite lookup_insert_ne by done. apply Hok.
Qed.

Lemma visit_all_keeps (P : NodeVisitor.t → Prop) (visit : node → NodeVisitor.t → NodeVisitor.t)
    l self :
  (∀ c self, c ∈ l → P self → P (visit c self)) → P self →
  P (NodeVisitor.visit_all visit l self).
Proof.
  unfold NodeVisitor.visit_all. revert self.
  induction l as [|c l IH]; intros self Hl HP; simpl; [done|].
  apply IH; [intros c' self' Hc'; apply Hl; by right|]. apply Hl; [by left|done].
Qed.

Lemma visit_keys_keeps (P : NodeVisitor.t → Prop)
    (visit : node → NodeVisitor.t → NodeVisitor.t) (keys : list (option node)) self :
  (∀ k self, Some k ∈ keys → P self → P (visit k self)) → P self →
  P (fold_left (λ self k, match k with Some k => visit k self | None => self end)
               keys self).
Proof.
  revert self. induction keys as [|[k|] keys IH]; intros self Hkeys HP; simpl; [done|..].
  - apply IH; [intros k' self' Hk'; apply Hkeys; by right|].
    apply Hkeys; [by left|done].
  - apply IH; [intros k' self' Hk'; apply Hkeys; by right|done].
Qed.

(** Visiting keeps every property of the visitor that entering a class and
    recording a folder keep. *)
Lemma visit_keeps (P : NodeVisitor.t → Prop) :
  (∀ self name, P self → P (NodeVisitor.mk (NodeVisitor.class_folders self) (Some name))) →
  (∀ self folder_name, P self → P (NodeVisitor.record_folder folder_name self)) →
  ∀ n self, P self → P (NodeVisitor.visit n self).
Proof.
  intros Hclass Hrecord n.
  induction n as [n IH] using (induction_ltof1 _ node_size).
  assert (∀ c self, c ∈ iter_child_nodes n → P self → P (NodeVisitor.visit c self))
    as Hchildren.
  { intros c self Hc. apply IH. by apply node_size_child. }
  assert (∀ l self, (∀ c, c ∈ l → c ∈ iter_child_nodes n) → P self →
                    P (NodeVisitor.visit_all NodeVisitor.visit l self)) as Hall.
  { intros l self Hl. apply visit_all_keeps. intros c self' Hc. apply Hchildren. auto. }
  assert (∀ self, P self → P (NodeVisitor.generic_visit_with NodeVisitor.visit n self))
    as Hgeneric.
  { intros self HP. clear IH.
    destruct n as [body|name bases keywords body decos|name args body decos returns|
                   targets value|func args keywords|value attr|id|value|keys values|
                   children]; simpl in *; try done.
    - by apply Hall.
    - repeat (apply Hall; [set_solver|]). done.
    - destruct returns as [r|].
      + apply Hchildren; [set_solver|]. repeat (apply Hall; [set_solver|]).
        apply Hchildren; [set_solver|done].
      + repeat (apply Hall; [set_solver|]). apply Hchildren; [set_solver|done].
    - apply Hchildren; [set_solver|]. by apply Hall; [set_solver|].
    - repeat (apply Hall; [set_solver|]). apply Hchildren; [set_solver|done].
    - apply Hchildren; [set_solver|done].
    - apply Hall; [set_solver|]. apply visit_keys_keeps; [|done].
      intros k self' Hk. apply Hchildren. apply elem_of_app. left.
      apply list_elem_of_omap. by exists (Some k).
    - by apply Hall. }
  intros self HP.
  destruct n as [body|name bases keywords body decos|name args body decos returns|
                 targets value|func args keywords|value attr|id|value|keys values|
                 children]; try (by apply Hgeneric).
  - cbn [NodeVisitor.visit]. apply Hgeneric.
    assert (∀ l self, (∀ c, c ∈ l → c ∈ body) → P self →
              P (fold_left (λ self item,
                   if NodeVisitor.is_INPUT_TYPES item
                   then NodeVisitor.generic_visit_with NodeVisitor.visit item self
                   else self) l self)) as Hitems.
    { induction l as [|item l IHl]; intros self' Hl HP'; simpl; [done|].
      apply IHl; [intros c Hc; apply Hl; by right|].
      destruct (NodeVisitor.is_INPUT_TYPES item) eqn:Hitem; [|done].
      destruct item as [| |iname iargs ibody idecos ireturns| | | | | | |]; try done.
      assert (FunctionDef iname iargs ibody idecos ireturns ∈ body) as Hin
        by (apply Hl; by left).
      assert (∀ c self, c ∈ iter_child_nodes (FunctionDef iname iargs ibody idecos ireturns) →
                P self → P (NodeVisitor.visit c self)) as Hgrand.
      { intros c self'' Hc. apply IH. unfold ltof.
        etrans; [by apply node_size_child|]. apply node_size_child. simpl.
        rewrite !elem_of_app. auto. }
      simpl in Hgrand. simpl.
      destruct ireturns as [r|].
      - apply Hgrand; [set_solver|].
        apply visit_all_keeps; [intros; apply Hgrand; [set_solver|done]|].
        apply visit_all_keeps; [intros; apply Hgrand; [set_solver|done]|].
        apply Hgrand; [set_solver|done].
      - apply visit_all_keeps; [intros; apply Hgrand; [set_solver|done]|].
        apply visit_all_keeps; [intros; apply Hgrand; [set_solver|done]|].
        apply Hgrand; [set_solver|done]. }
    apply Hitems; [done|]. by apply Hclass.
  - cbn [NodeVisitor.visit]. apply Hgeneric.
    destruct (NodeVisitor.folder_argument func args); [by apply Hrecord|done].
Qed.

Lemma visit_class_folders_ok tree :
  Props.class_folders_ok
    (NodeVisitor.class_folders (NodeVisitor.visit tree NodeVisitor.__init__)).
Proof.
  apply (visit_keeps (λ self, Props.class_folders_ok (NodeVisitor.class_folders self))).
  - done.
  - intros self folder_name. apply record_folder_ok.
  - intros cls folders Hl. simpl in Hl. by rewrite lookup_empty in Hl.
Qed.

Lemma union_class_folders_ok (r m : gmap string ODict.t) :
  Props.class_folders_ok r → Props.class_folders_ok m → Props.class_folders_ok (r ∪ m).
Proof.
  intros Hr Hm cls folders [Hl | [_ Hl]]%lookup_union_Some_raw; eauto.
Qed.

End ClassFolderShape.

(** ** What a call of [infer_model_paths] keeps *)

Section Invariants.
Import ModelPathInference.
Variable ast_parse : string → option node.
Variable str_lower : string → string.

Lemma read_keeps (P : t → Prop) file : Props.keeps P (read file) (λ _, True).
Proof.
  unfold read. eapply keeps_bind; [apply keeps_emit|]. intros _ _.
  destruct (file_content file); [by apply keeps_ret | apply keeps_raise].
Qed.

Lemma parse_keeps (P : t → Prop) file content :
  Props.keeps P (parse ast_parse file content) (λ _, True).
Proof.
  unfold parse. eapply keeps_bind; [apply keeps_emit|]. intros _ _.
  destruct (ast_parse content); [by apply keeps_ret | apply keeps_raise].
Qed.

Lemma load_file_keeps file :
  Props.keeps (λ self, Props.class_folders_ok (node_class_folders self))
              (load_file ast_parse file) (λ _, True).
Proof.
  unfold load_file. eapply keeps_bind; [apply read_keeps|]. intros content _.
  destruct (negb _); [by apply keeps_ret|].
  eapply keeps_bind; [apply parse_keeps|]. intros tree _.
  apply keeps_for. intros n _.
  repeat case_match; try by apply keeps_ret.
  apply keeps_for. intros kv _.
  repeat case_match; try by apply keeps_ret.
  by apply keeps_modify.
Qed.

Lemma load_node_class_mappings_keeps :
  Props.keeps (λ self, Props.class_folders_ok (node_class_folders self))
              (_load_node_class_mappings ast_parse) (λ _, True).
Proof.
  apply keeps_try.
  - eapply keeps_bind; [apply keeps_get|]. intros self _.
    apply keeps_for. intros file _. apply load_file_keeps.
  - intros e. apply keeps_emit.
Qed.

Lemma empty_class_folders_ok : Props.class_folders_ok ∅.
Proof. intros cls folders Hl. by rewrite lookup_empty in Hl. Qed.

Lemma analyze_file_keeps (P : t → Prop) file :
  Props.keeps P (_analyze_file ast_parse file) Props.class_folders_ok.
Proof.
  apply keeps_try.
  - eapply keeps_bind; [apply read_keeps|]. intros content _.
    destruct (negb _); [apply keeps_ret, empty_class_folders_ok|].
    eapply keeps_bind; [apply parse_keeps|]. intros tree _.
    cbv zeta. case_bool_decide; apply keeps_ret;
      [apply visit_class_folders_ok | apply empty_class_folders_ok].
  - intros e. eapply keeps_bind; [apply keeps_emit|]. intros _ _.
    apply keeps_ret, empty_class_folders_ok.
Qed.

Lemma merge_results_keeps results :
  Forall Props.class_folders_ok results →
  Props.keeps (λ self, Props.class_folders_ok (node_class_folders self))
              (merge_results results) (λ _, True).
Proof.
  induction results as [|class_folders results IH]; intros Hall; simpl.
  - by apply keeps_ret.
  - apply Forall_cons in Hall as [Hfirst Hall].
    eapply keeps_bind.
    { apply keeps_modify. intros self Hself. simpl.
      by apply union_class_folders_ok. }
    intros _ _. eapply keeps_bind; [apply keeps_get|]. intros self _.
    destruct (_ && _); [by apply keeps_ret | by apply IH].
Qed.

Lemma analyze_node_classes_keeps :
  Props.keeps (λ self, Props.class_folders_ok (node_class_folders self))
              (_analyze_node_classes ast_parse) (λ _, True).
Proof.
  unfold _analyze_node_classes.
  eapply keeps_bind; [apply keeps_get|]. intros self _.
  eapply keeps_bind; [apply keeps_for_list; intros file _; apply analyze_file_keeps|].
  intros results Hresults. by apply merge_results_keeps.
Qed.

(** The loop over the requiring node types leaves evidence whenever it
    leaves a folder, and the folder is the first of the evidence. *)
Lemma folder_from_classes_evidence self needed_by :
  match folder_from_classes self needed_by with
  | (inferred_folder, Some info) =>
      inferred_folder = ODict.first_value (Output.model_folders info)
  | (inferred_folder, None) => inferred_folder = None
  end.
Proof.
  induction needed_by as [|display_name needed_by IH]; simpl; [done|].
  destruct (node_class_folders self !! mapped_class self display_name)
    as [folders|]; [|done].
  by destruct (ODict.truthy folders).
Qed.

Lemma truthy_nonempty folder : Str.truthy folder = true → folder ≠ "".
Proof. by destruct folder. Qed.

Lemma infer_model_record_ok model w r :
  infer_model str_lower model w = (inr r, w) → Props.record_ok r.
Proof.
  unfold infer_model, get_filename, get_needed_by.
  destruct (Manifest.filename model) as [filename|],
           (Manifest.needed_by model) as [needed_by|]; unfold_M; try done.
  pose proof (folder_from_classes_evidence w.1 needed_by) as Hevidence.
  destruct (folder_from_classes _ _) as [inferred_folder node_info].
  destruct (truthy inferred_folder) eqn:Htruthy; simpl.
  - destruct inferred_folder as [folder|]; [|done]. simpl in Htruthy.
    rewrite Htruthy. intros [= <-]. split; simpl.
    + intros ->. done.
    + intros path [= <-]. destruct node_info as [info|]; [|done].
      exists info, folder. split_and!; [done..|by apply truthy_nonempty|done].
  - destruct (_guess_model_folder _ _) as [folder|].
    + destruct (Str.truthy folder) eqn:Hfolder; intros [= <-]; split; simpl; try done.
      * rewrite Hfolder. intros path [= <-]. eexists _, folder.
        split_and!; [done..|by apply truthy_nonempty|done].
      * by rewrite Hfolder.
      * by rewrite Hfolder.
    + by intros [= <-].
Qed.

End Invariants.
Section InvariantProperties.
Import ModelPathInference.
Variable ast_parse : string → option node.
Variable str_lower : string → string.

Lemma infer_model_keeps (P : t → Prop) model :
  Props.keeps P (infer_model str_lower model) Props.record_ok.
Proof.
  intros w r w' Hrun HP.
  destruct (infer_model_reader str_lower model w) as [r' Hr].
  rewrite Hr in Hrun. injection Hrun as -> <-. split; [done|].
  intros x ->. by apply (infer_model_record_ok str_lower model w).
Qed.

Lemma infer_model_paths_keeps models_data :
  Props.keeps (λ self, Props.class_folders_ok (node_class_folders self))
              (infer_model_paths ast_parse str_lower models_data)
              (Forall Props.record_ok).
Proof.
  unfold infer_model_paths.
  eapply keeps_bind; [apply load_node_class_mappings_keeps|]. intros _ _.
  eapply keeps_bind; [apply keeps_get|]. intros self _.
  eapply keeps_bind.
  { apply keeps_for_list with (Q := λ _, True). intros model _.
    eapply keeps_bind with (Q := λ _, True); [|intros; by apply keeps_ret].
    unfold get_needed_by.
    destruct (Manifest.needed_by model); [by apply keeps_ret | apply keeps_raise]. }
  intros required _.
  eapply keeps_bind; [by apply keeps_modify|]. intros _ _.
  eapply keeps_bind; [apply analyze_node_classes_keeps|]. intros _ _.
  apply keeps_for_list. intros model _. apply infer_model_keeps.
Qed.

(** X6. Whatever the source tree and the manifest are, and whether the
    call returns or raises, a call of [infer_model_paths] on an object whose
    ClassFolderMap is well formed leaves it well formed: every class it
    has an entry for has at least one folder, every folder is recorded
    under its own name, and no folder is recorded twice for a class. The
    map of a new object, which is empty, is well formed. *)
Theorem infer_model_paths_keeps_class_folders_well_formed :
  ∀ (models_data : Manifest.t) (self : t),
    Props.class_folders_ok (node_class_folders self) →
    Props.class_folders_ok
      (node_class_folders
         (run (infer_model_paths ast_parse str_lower models_data) self).2.1).
Proof.
  intros models_data self Hself. unfold run.
  destruct (infer_model_paths _ _ _ _) as [r w'] eqn:Hrun.
  by apply (infer_model_paths_keeps models_data _ _ _ Hrun).
Qed.

(** X7. In every record a call of [infer_model_paths] returns, an inferred
    path comes with evidence: a record without [node_info] has no path, and
    a path is "models/", the first folder of the [model_folders] of the
    evidence, which is not the empty string, "/" and the filename of the
    record. *)
Theorem inferred_path_is_built_from_its_evidence :
  ∀ (models_data : Manifest.t) (self : t) (out : Output.t) (w' : t * list event),
    run (infer_model_paths ast_parse str_lower models_data) self = (inr out, w') →
    Forall Props.record_ok out.
Proof.
  intros models_data self out w' Hrun. unfold run in Hrun.
  destruct (infer_model_paths_cases ast_parse str_lower models_data (self, []))
    as (w'' & [[_ Hrun'] | [(_ & _ & Hrun') | (out' & Hrun' & Hout)]]);
    rewrite Hrun in Hrun'; simplify_eq.
  apply Forall_forall. intros r Hr.
  apply list_elem_of_lookup in Hr as [i Hi].
  destruct (Forall2_lookup_r _ _ _ _ _ Hout Hi) as (model & _ & Hmodel).
  by apply (infer_model_record_ok str_lower model w'').
Qed.

Lemma model_patterns_folder_truthy s folder :
  first_pattern MODEL_PATTERNS s = Some folder → Str.truthy folder = true.
Proof.
  unfold MODEL_PATTERNS. cbn [first_pattern].
  repeat (destruct (Str.contains _ s); [by intros [= <-]|]). done.
Qed.

Lemma infer_model_guessed model w filename needed_by folder :
  Manifest.filename model = Some filename →
  Manifest.needed_by model = Some needed_by →
  Spec.no_class_entry w.1 needed_by →
  _guess_model_folder str_lower filename = Some folder →
  infer_model str_lower model w =
    (inr (Props.guessed_record filename needed_by folder), w).
Proof.
  intros Hfilename Hneeded Hclasses Hguess.
  unfold infer_model, get_filename, get_needed_by.
  rewrite Hfilename, Hneeded. unfold_M.
  rewrite (folder_from_classes_none _ _ Hclasses), Hguess.
  apply model_patterns_folder_truthy in Hguess. by destruct folder.
Qed.

(** X8. A model none of whose requiring node types resolves to an entry of
    the ClassFolderMap and whose lower-cased filename contains a pattern of
    the heuristic gets the record of a guess: the path is below the folder
    of the first pattern that occurs, and the evidence names that folder
    alone, with the source "guessed_from_filename" and no class or display
    name. *)
Theorem model_without_class_entry_is_guessed_from_filename :
  ∀ (models_data : Manifest.t) (self self' : t) (out : Output.t) (tr : list event)
    (i : nat) (model : Manifest.model) (filename : string) (needed_by : list string)
    (folder : string),
    run (infer_model_paths ast_parse str_lower models_data) self =
      (inr out, (self', tr)) →
    get_models models_data !! i = Some model →
    Manifest.filename model = Some filename →
    Manifest.needed_by model = Some needed_by →
    Spec.no_class_entry self' needed_by →
    Spec.first_match Spec.heuristic_table (str_lower filename) folder →
    out !! i = Some (Props.guessed_record filename needed_by folder).
Proof.
  intros models_data self self' out tr i model filename needed_by folder
    Hrun Hi Hfilename Hneeded Hclasses Hmatch.
  unfold run in Hrun.
  destruct (infer_model_paths_cases ast_parse str_lower models_data (self, []))
    as (w' & [[_ Hrun'] | [(_ & _ & Hrun') | (out' & Hrun' & Hout)]]);
    rewrite Hrun in Hrun'; simplify_eq.
  destruct (Forall2_lookup_l _ _ _ _ _ Hout Hi) as (r & Hr & Hmodel).
  apply first_pattern_some in Hmatch.
  rewrite (infer_model_guessed model (self', tr) filename needed_by folder)
    in Hmodel by done.
  by injection Hmodel as <-.
Qed.

End InvariantProperties.

Section InvariantWitnesses.
Import ModelPathInference Examples.

(** A new object over two packages that declare folders. *)
Lemma infer_model_paths_keeps_class_folders_well_formed_witness :
  Props.class_folders_ok (node_class_folders (__init__ two_packs)) ∧
  node_class_folders (infer two_packs checkpoint_manifest).2.1 =
    {[ "Loader" := [("loras", "loras")] ]} ∧
  Props.class_folders_ok
    (node_class_folders (infer two_packs checkpoint_manifest).2.1).
Proof.
  assert (Props.class_folders_ok (node_class_folders (__init__ two_packs))) as Hnew.
  { apply empty_class_folders_ok. }
  split; [exact Hnew|]. split; [by vm_compute|].
  exact (infer_model_paths_keeps_class_folders_well_formed ast_parse Str.lower
           checkpoint_manifest (__init__ two_packs) Hnew).
Defined.

(** The record of a model resolved from its class. *)
Lemma inferred_path_is_built_from_its_evidence_witness :
  let tree := [file nodes_py (node_class_text "loras")] in
  (infer tree checkpoint_manifest).1 =
    inr [Spec.class_derived_record "my_checkpoint.safetensors" ["Loader"]
           "Loader" "Loader" [("loras", "loras")] "loras"] ∧
  ∃ out w', infer tree checkpoint_manifest = (inr out, w') ∧ Forall Props.record_ok out.
Proof.
  intros tree. split; [by vm_compute|].
  set (result := infer tree checkpoint_manifest).
  assert (result =
          (inr [Spec.class_derived_record "my_checkpoint.safetensors" ["Loader"]
                  "Loader" "Loader" [("loras", "loras")] "loras"], result.2))
    as Hrun by (by vm_compute).
  eexists _, _. split; [exact Hrun|].
  exact (inferred_path_is_built_from_its_evidence ast_parse Str.lower
           checkpoint_manifest (__init__ tree) _ _ Hrun).
Defined.

(** A model of an unknown node type whose filename contains "lora", over
    an empty source tree. *)
Lemma model_without_class_entry_is_guessed_from_filename_witness :
  let models_data := manifest [model "My_LoRA.safetensors" ["UnknownNode"]] in
  Spec.first_match Spec.heuristic_table (Str.lower "My_LoRA.safetensors") "loras" ∧
  Spec.no_class_entry (infer [] models_data).2.1 ["UnknownNode"] ∧
  ∃ out, (infer [] models_data).1 = inr out ∧
    out !! 0 = Some (Props.guessed_record "My_LoRA.safetensors" ["UnknownNode"] "loras") ∧
    Output.inferred_path <$> out !! 0 =
      Some (Some "models/loras/My_LoRA.safetensors").
Proof.
  intros models_data.
  assert (Spec.first_match Spec.heuristic_table (Str.lower "My_LoRA.safetensors")
            "loras") as Hmatch.
  { by apply first_pattern_some. }
  assert (Spec.no_class_entry (infer [] models_data).2.1 ["UnknownNode"]) as Hclasses.
  { intros d Hd. elem_cases Hd. }
  split; [exact Hmatch|]. split; [exact Hclasses|].
  set (result := infer [] models_data) in *.
  assert (result =
          (inr [Props.guessed_record "My_LoRA.safetensors" ["UnknownNode"] "loras"],
           (result.2.1, result.2.2))) as Hrun by (by vm_compute).
  eexists. split; [by rewrite Hrun|].
  pose proof (model_without_class_entry_is_guessed_from_filename ast_parse Str.lower
                models_data (__init__ []) result.2.1 _ result.2.2 0
                (model "My_LoRA.safetensors" ["UnknownNode"])
                "My_LoRA.safetensors" ["UnknownNode"] "loras"
                Hrun eq_refl eq_refl eq_refl Hclasses Hmatch) as Hout.
  split; [exact Hout|]. by rewrite Hout.
Defined.

End InvariantWitnesses.

(** ** What [transform_nodes_data] collects *)

Section Grouping.
Import WorkflowProcessor.

Lemma add_needed_by_keys key t d :
  (add_needed_by key t d).*1 = if decide (key ∈ d.*1) then d.*1 else d.*1 ++ [key].
Proof.
  induction d as [|[k s] d IH]; csimpl; [done|].
  destruct (decide (k = key)) as [->|Hne]; csimpl.
  - by rewrite decide_True by left.
  - rewrite IH. destruct (decide (key ∈ d.*1)) as [Hin|Hnin].
    + by rewrite decide_True by (by right).
    + rewrite decide_False; [done|]. intros [?|?]%elem_of_cons; by simplify_eq.
Qed.

Lemma add_needed_by_elem key t d k s :
  NoDup d.*1 → (k, s) ∈ add_needed_by key t d →
  (k ≠ key ∧ (k, s) ∈ d) ∨
  (k = key ∧ ((∃ s0, (key, s0) ∈ d ∧ s = s0 ∪ {[ t ]}) ∨ ((key ∉ d.*1) ∧ s = {[ t ]}))).
Proof.
  induction d as [|[k' s'] d IH]; csimpl; intros Hnodup Hin.
  - apply list_elem_of_singleton in Hin as [= -> ->]. right. split; [done|].
    right. split; [apply not_elem_of_nil | done].
  - apply NoDup_cons in Hnodup as [Hk' Hnodup].
    destruct (decide (k' = key)) as [->|Hne].
    + apply elem_of_cons in Hin as [[= -> ->] | Hin].
      * right. split; [done|]. left. exists s'. split; [by left | done].
      * left. split; [|by right]. intros ->. apply Hk'.
        apply list_elem_of_fmap. by exists (key, s).
    + apply elem_of_cons in Hin as [[= -> ->] | Hin].
      * left. split; [done | by left].
      * destruct (IH Hnodup Hin) as [[? ?] | [-> [(s0 & ? & ->) | [Hnin ->]]]].
        -- left. split; [done | by right].
        -- right. split; [done|]. left. exists s0. split; [by right | done].
        -- right. split; [done|]. right. split; [|done].
           intros [?|?]%elem_of_cons; by simplify_eq.
Qed.

Lemma groups_add key t d pairs :
  Props.groups d pairs → Props.groups (add_needed_by key t d) (pairs ++ [(key, t)]).
Proof.
  intros (Hnodup & Hkeys & Hsets). split_and!.
  - rewrite add_needed_by_keys. destruct (decide (key ∈ d.*1)); [done|].
    apply NoDup_app. split_and!; [done| |apply NoDup_singleton].
    by intros k Hk ->%list_elem_of_singleton.
  - intros k t' Hin. rewrite add_needed_by_keys.
    apply elem_of_app in Hin as [Hin | [= -> ->]%list_elem_of_singleton].
    + destruct (decide (key ∈ d.*1)); [by apply (Hkeys k t')|].
      apply elem_of_app. left. by apply (Hkeys k t').
    + destruct (decide (key ∈ d.*1)); [done|]. apply elem_of_app. right. by left.
  - intros k s Hin.
    destruct (add_needed_by_elem key t d k s Hnodup Hin)
      as [[Hne Hd] | [-> [(s0 & Hd & ->) | [Hnin ->]]]].
    + destruct (Hsets k s Hd) as [Hnonempty Hs]. split; [done|].
      intros t'. rewrite Hs, elem_of_app, list_elem_of_singleton.
      split; [by left|]. by intros [? | [= ? ?]].
    + destruct (Hsets key s0 Hd) as [_ Hs].
      split; [by intros [_ ?%non_empty_singleton_L]%empty_union_L|].
      intros t'. rewrite elem_of_union, elem_of_singleton, Hs, elem_of_app,
        list_elem_of_singleton.
      split; [intros [? | ->]; by auto | intros [? | [= ->]]; by auto].
    + split; [apply non_empty_singleton_L|].
      intros t'. rewrite elem_of_singleton, elem_of_app, list_elem_of_singleton.
      split; [intros ->; by right|].
      intros [Hp | [= ->]]; [|done]. destruct Hnin. by apply (Hkeys key t').
Qed.

Lemma groups_fold l d pairs :
  Props.groups d pairs →
  Props.groups (fold_left (λ d kv, add_needed_by kv.1 kv.2 d) l d) (pairs ++ l).
Proof.
  revert d pairs. induction l as [|[k t] l IH]; intros d pairs Hd; simpl.
  - by rewrite app_nil_r.
  - rewrite (cons_middle (k, t) pairs l), (assoc_L (++)). by apply IH, groups_add.
Qed.

Lemma groups_nil : Props.groups [] [].
Proof.
  split_and!; [apply NoDup_nil_2| |]; intros ? ? Hin; by apply elem_of_nil in Hin.
Qed.

Lemma models_dict_pairs nodes d :
  fold_left (λ models_dict node,
               fold_left (λ models_dict model,
                            add_needed_by model (type node) models_dict)
                         (model node) models_dict) nodes d =
  fold_left (λ d kv, add_needed_by kv.1 kv.2 d) (Props.model_pairs nodes) d.
Proof.
  revert d. induction nodes as [|node nodes IH]; intros d; [done|].
  unfold Props.model_pairs. csimpl. rewrite fold_left_app, IH. f_equal.
  generalize (model node) as ms. clear. intros ms. revert d.
  induction ms as [|m ms IHms]; intros d; [done|]. csimpl. by rewrite IHms.
Qed.

Lemma repos_dict_pairs nodes d :
  fold_left (λ repos_dict node,
               match repo node with
               | Some r => if Str.truthy r then add_needed_by r (type node) repos_dict
                           else repos_dict
               | None => repos_dict
               end) nodes d =
  fold_left (λ d kv, add_needed_by kv.1 kv.2 d) (Props.repo_pairs nodes) d.
Proof.
  revert d. induction nodes as [|node nodes IH]; intros d; [done|].
  unfold Props.repo_pairs. csimpl. rewrite fold_left_app, IH. f_equal.
  destruct (repo node) as [r|]; [|done]. by destruct (Str.truthy r).
Qed.

Lemma model_pairs_elem nodes f t :
  (f, t) ∈ Props.model_pairs nodes ↔ ∃ n, n ∈ nodes ∧ type n = t ∧ f ∈ model n.
Proof.
  unfold Props.model_pairs. rewrite list_elem_of_bind. split.
  - intros (n & Hin & Hn). apply list_elem_of_fmap in Hin as (m & [= -> ->] & Hm).
    by exists n.
  - intros (n & Hn & <- & Hf). exists n. split; [|done].
    apply list_elem_of_fmap. by exists f.
Qed.

Lemma repo_pairs_elem nodes u t :
  (u, t) ∈ Props.repo_pairs nodes ↔
  ∃ n, n ∈ nodes ∧ type n = t ∧ repo n = Some u ∧ u ≠ "".
Proof.
  unfold Props.repo_pairs. rewrite list_elem_of_bind. split.
  - intros (n & Hin & Hn). exists n. destruct (repo n) as [r|]; [|by apply elem_of_nil in Hin].
    destruct r as [|a r]; simpl in Hin; [by apply elem_of_nil in Hin|].
    by apply list_elem_of_singleton in Hin as [= -> ->].
  - intros (n & Hn & <- & Hrepo & Hu). exists n. split; [|done]. rewrite Hrepo.
    destruct u; [done|]. simpl. by left.
Qed.

Lemma sorted_Sorted (s : gset string) : Sorted String.le (sorted s).
Proof. apply (Sorted_merge_sort String.le). Qed.

Lemma sorted_NoDup (s : gset string) : NoDup (sorted s).
Proof. unfold sorted. rewrite merge_sort_Permutation. apply NoDup_elements. Qed.

(** What a grouped dictionary gives once its sets are sorted. *)
Lemma groups_records {A} (mk : string → list string → A) (key : A → string)
    (needed : A → list string) d pairs :
  (∀ k l, key (mk k l) = k) → (∀ k l, needed (mk k l) = l) →
  Props.groups d pairs →
  NoDup (key <$> ((λ '(k, s), mk k (sorted s)) <$> d)) ∧
  (∀ k, k ∈ key <$> ((λ '(k, s), mk k (sorted s)) <$> d) ↔ ∃ t, (k, t) ∈ pairs) ∧
  ∀ r, r ∈ (λ '(k, s), mk k (sorted s)) <$> d →
    needed r ≠ [] ∧ Sorted String.le (needed r) ∧ NoDup (needed r) ∧
    ∀ t, t ∈ needed r ↔ (key r, t) ∈ pairs.
Proof.
  intros Hkey Hneeded (Hnodup & Hkeys & Hsets).
  assert (key <$> ((λ '(k, s), mk k (sorted s)) <$> d) = d.*1) as ->.
  { rewrite <-list_fmap_compose. apply list_fmap_ext. by intros i [k s] _; simpl. }
  split_and!; [done| |].
  - intros k. split.
    + intros ([k' s] & -> & Hin)%list_elem_of_fmap. simpl.
      destruct (Hsets _ _ Hin) as [Hne Hs].
      apply set_choose_L in Hne as [t Ht]. exists t. by apply Hs.
    + intros [t Ht]. by apply (Hkeys k t).
  - intros r ([k s] & -> & Hin)%list_elem_of_fmap.
    destruct (Hsets _ _ Hin) as [Hne Hs]. rewrite Hkey, Hneeded.
    split_and!; [by apply sorted_nonempty|apply sorted_Sorted|apply sorted_NoDup|].
    intros t. by rewrite sorted_elem.
Qed.

(** X9. The model entries of [transform_nodes_data]: there is one entry
    for every filename that some node names, and no other; the [needed_by]
    list of an entry has the types of the nodes that name its filename, all
    of them, each once, in ascending order. *)
Theorem transform_lists_every_model_once :
  ∀ (nodes : list node_data),
    NoDup (filename <$> models (transform_nodes_data nodes)) ∧
    (∀ f, f ∈ filename <$> models (transform_nodes_data nodes) ↔
          ∃ n, n ∈ nodes ∧ f ∈ model n) ∧
    ∀ m, m ∈ models (transform_nodes_data nodes) →
      Sorted String.le (needed_by m) ∧ NoDup (needed_by m) ∧
      ∀ t, t ∈ needed_by m ↔ ∃ n, n ∈ nodes ∧ type n = t ∧ filename m ∈ model n.
Proof.
  intros nodes. unfold transform_nodes_data. cbn [models].
  rewrite models_dict_pairs.
  destruct (groups_records (λ f l, {| filename := f; needed_by := l |})
              filename needed_by
              (fold_left (λ d kv, add_needed_by kv.1 kv.2 d) (Props.model_pairs nodes) [])
              (Props.model_pairs nodes)) as (Hnodup & Hkeys & Hrecords); [done..| |].
  { apply (groups_fold _ [] []), groups_nil. }
  split_and!; [done| |].
  - intros f. rewrite Hkeys. split.
    + intros [t (n & ? & ? & ?)%model_pairs_elem]. by exists n.
    + intros (n & ? & ?). exists (type n). apply model_pairs_elem. by exists n.
  - intros m Hm. destruct (Hrecords m Hm) as (_ & ? & ? & Hneeded).
    split_and!; [done..|]. intros t. by rewrite Hneeded, model_pairs_elem.
Qed.

Lemma repos_records (nodes : list node_data) :
    NoDup (url <$> repos (transform_nodes_data nodes)) ∧
    (∀ u, u ∈ url <$> repos (transform_nodes_data nodes) ↔
          ∃ n, n ∈ nodes ∧ repo n = Some u ∧ u ≠ "") ∧
    ∀ r, r ∈ repos (transform_nodes_data nodes) →
      repo_needed_by r ≠ [] ∧
      Sorted String.le (repo_needed_by r) ∧ NoDup (repo_needed_by r) ∧
      ∀ t, t ∈ repo_needed_by r ↔ ∃ n, n ∈ nodes ∧ type n = t ∧ repo n = Some (url r).
Proof.
  unfold transform_nodes_data. cbn [repos].
  rewrite repos_dict_pairs.
  destruct (groups_records (λ u l, {| url := u; repo_needed_by := l |})
              url repo_needed_by
              (fold_left (λ d kv, add_needed_by kv.1 kv.2 d) (Props.repo_pairs nodes) [])
              (Props.repo_pairs nodes)) as (Hnodup & Hkeys & Hrecords); [done..| |].
  { apply (groups_fold _ [] []), groups_nil. }
  split_and!; [done| |].
  - intros u. rewrite Hkeys. split.
    + intros [t (n & ? & ? & ? & ?)%repo_pairs_elem]. by exists n.
    + intros (n & ? & ? & ?). exists (type n). apply repo_pairs_elem. by exists n.
  - intros r Hr. destruct (Hrecords r Hr) as (? & ? & ? & Hneeded).
    split_and!; [done..|]. intros t. rewrite Hneeded, repo_pairs_elem. split.
    + intros (n & ? & ? & ? & ?). by exists n.
    + intros (n & Hn & Ht & Hrepo). exists n. split_and!; [done..|].
      assert (url r ∈ url <$> repos (transform_nodes_data nodes)) as Hu.
      { apply list_elem_of_fmap. exists r. split; [done|].
        unfold transform_nodes_data. cbn [repos]. by rewrite repos_dict_pairs. }
      unfold transform_nodes_data in Hu. cbn [repos] in Hu.
      rewrite repos_dict_pairs in Hu.
      apply Hkeys in Hu as [t' (n' & _ & _ & _ & ?)%repo_pairs_elem]. done.
Qed.

(** X10. The repository entries of [transform_nodes_data]: there is one
    entry for every repository that some node has, other than the empty
    string, and no other; the [needed_by] list of an entry has the types of
    the nodes of that repository, all of them, each once, in ascending
    order, and is not empty. *)
Theorem transform_lists_every_repo_once :
  ∀ (nodes : list node_data),
    NoDup (url <$> repos (transform_nodes_data nodes)) ∧
    (∀ u, u ∈ url <$> repos (transform_nodes_data nodes) ↔
          ∃ n, n ∈ nodes ∧ repo n = Some u ∧ u ≠ "") ∧
    ∀ r, r ∈ repos (transform_nodes_data nodes) →
      repo_needed_by r ≠ [] ∧
      Sorted String.le (repo_needed_by r) ∧ NoDup (repo_needed_by r) ∧
      ∀ t, t ∈ repo_needed_by r ↔ ∃ n, n ∈ nodes ∧ type n = t ∧ repo n = Some (url r).
Proof. apply repos_records. Qed.

(** X11. The node types of [transform_nodes_data] are the types of the
    nodes, each once, in ascending order; the unmapped ones are, in the same
    manner, the types of the nodes whose [repo] is [None], so they are among
    the node types. A node whose [repo] is the empty string is counted
    neither as unmapped nor for a repository. *)
Theorem transform_node_types_and_unmapped :
  ∀ (nodes : list node_data),
    let data := transform_nodes_data nodes in
    Sorted String.le (node_types data) ∧ NoDup (node_types data) ∧
    (∀ t, t ∈ node_types data ↔ ∃ n, n ∈ nodes ∧ type n = t) ∧
    Sorted String.le (unmapped_nodes data) ∧ NoDup (unmapped_nodes data) ∧
    (∀ t, t ∈ unmapped_nodes data ↔ ∃ n, n ∈ nodes ∧ type n = t ∧ repo n = None) ∧
    (∀ t, t ∈ unmapped_nodes data → t ∈ node_types data) ∧
    (∀ t, (∀ n, n ∈ nodes → type n = t → repo n = Some "") →
          (t ∉ unmapped_nodes data) ∧
          ∀ r, r ∈ repos data → t ∉ repo_needed_by r).
Proof.
  intros nodes data.
  assert (∀ t, t ∈ node_types data ↔ ∃ n, n ∈ nodes ∧ type n = t) as Htypes.
  { intros t. unfold data, transform_nodes_data. cbn [node_types].
    rewrite sorted_elem, elem_of_list_to_set, list_elem_of_fmap.
    split; [intros (n & -> & ?); by exists n | intros (n & ? & <-); by exists n]. }
  assert (∀ t, t ∈ unmapped_nodes data ↔ ∃ n, n ∈ nodes ∧ type n = t ∧ repo n = None)
    as Hunmapped.
  { intros t. unfold data, transform_nodes_data. cbn [unmapped_nodes].
    rewrite sorted_elem, elem_of_list_to_set, list_elem_of_fmap. split.
    - intros (n & -> & [Hrepo%bool_decide_unpack Hn]%list_elem_of_filter).
      by exists n.
    - intros (n & Hn & <- & Hrepo). exists n. split; [done|].
      apply list_elem_of_filter. split; [by apply bool_decide_pack | done]. }
  split_and!; [apply sorted_Sorted|apply sorted_NoDup|done|apply sorted_Sorted|
               apply sorted_NoDup|done| |].
  - intros t (n & ? & ? & _)%Hunmapped. apply Htypes. by exists n.
  - intros t Hempty. split.
    + intros (n & Hn & Ht & Hnone)%Hunmapped. by rewrite (Hempty n Hn Ht) in Hnone.
    + intros r Hr Ht.
      destruct (repos_records nodes) as (_ & Hurls & Hrecords).
      destruct (Hrecords r Hr) as (_ & _ & _ & Hneeded).
      apply Hneeded in Ht as (n & Hn & Ht & Hrepo).
      assert (url r ∈ url <$> repos (transform_nodes_data nodes)) as Hu.
      { apply list_elem_of_fmap. by exists r. }
      apply Hurls in Hu as (n' & _ & _ & Hne).
      rewrite (Hempty n Hn Ht) in Hrepo. congruence.
Qed.

End Grouping.

(** ** What [extract_nodes] returns *)

Section ExtractNodes.
Import WorkflowProcessor.
Variable str_lower : string → string.

Lemma endswith_spec s suffix :
  Str.endswith s suffix = true ↔ ∃ prefix, s = prefix +:+ suffix.
Proof.
  induction s as [|a s IH]; cbn [Str.endswith].
  - rewrite orb_false_r, bool_decide_eq_true. split.
    + intros <-. by exists "".
    + intros [prefix Heq]. destruct prefix; [done|]. by rewrite append_cons in Heq.
  - rewrite orb_true_iff, bool_decide_eq_true, IH. split.
    + intros [<- | [prefix ->]]; [by exists ""|]. by exists (String a prefix).
    + intros [[|b prefix] Heq].
      * left. by rewrite append_nil_l in Heq.
      * right. rewrite append_cons in Heq. injection Heq as -> ->. by exists prefix.
Qed.

Lemma model_file_spec value f :
  model_file str_lower value = Some f ↔
  value = WString f ∧
  ∃ ext prefix, ext ∈ model_extensions ∧ str_lower f = prefix +:+ ext.
Proof.
  destruct value as [s|]; cbn [model_file]; [|by split; [|intros [? _]]].
  destruct (existsb (Str.endswith (str_lower s)) model_extensions) eqn:Hext.
  - apply existsb_exists in Hext as (ext & Hin%list_elem_of_In & Hends).
    apply endswith_spec in Hends as [prefix Hprefix]. split.
    + intros [= <-]. split; [done|]. by exists ext, prefix.
    + by intros [[= <-] _].
  - split; [done|]. intros [[= <-] (ext & prefix & Hin & Hprefix)].
    assert (existsb (Str.endswith (str_lower s)) model_extensions = true) as Htrue.
    { apply existsb_exists. exists ext. split; [by apply list_elem_of_In|].
      apply endswith_spec. by exists prefix. }
    congruence.
Qed.

(** X12. The model files of a node are the string widget values whose
    lower-cased form ends with ".safetensors", ".pt", ".pth", ".onnx",
    ".bin" or ".ckpt", in their own spelling, each once; a node without
    [widgets_values] has none. *)
Theorem extract_models_from_node_by_extension :
  ∀ (node : workflow_node),
    NoDup (extract_models_from_node str_lower node) ∧
    (widgets_values node = None → extract_models_from_node str_lower node = []) ∧
    ∀ f, f ∈ extract_models_from_node str_lower node ↔
         ∃ values ext prefix,
           widgets_values node = Some values ∧ WString f ∈ values ∧
           ext ∈ model_extensions ∧ str_lower f = prefix +:+ ext.
Proof.
  intros node. unfold extract_models_from_node. split_and!.
  - apply NoDup_elements.
  - intros ->. simpl. apply elements_empty.
  - intros f. rewrite elem_of_elements, elem_of_list_to_set, list_elem_of_omap.
    split.
    + intros (value & Hin & (-> & ext & prefix & ? & ?)%model_file_spec).
      destruct (widgets_values node) as [values|]; [|by apply elem_of_nil in Hin].
      by exists values, ext, prefix.
    + intros (values & ext & prefix & -> & Hin & ? & ?).
      exists (WString f). split; [done|]. apply model_file_spec.
      split; [done|]. by exists ext, prefix.
Qed.

Lemma extract_results_run channel_manager (group_node_types : gset string) all_nodes :
  (Exists (λ node, node_type node = None) all_nodes ∧
   extract_results str_lower channel_manager group_node_types all_nodes =
     inl (KeyError "type")) ∨
  (Forall (λ node, is_Some (node_type node)) all_nodes ∧
   extract_results str_lower channel_manager group_node_types all_nodes =
     inr (omap (λ node,
                  match node_type node with
                  | Some node_type =>
                      if decide (node_type ∈ group_node_types) then None
                      else Some (Props.node_record str_lower channel_manager node
                                                   node_type)
                  | None => None
                  end) all_nodes)).
Proof.
  induction all_nodes as [|node all_nodes IH]; [right; by split|].
  cbn [extract_results omap list_omap].
  destruct (node_type node) as [t|] eqn:Ht; [|left; split; [by left | done]].
  destruct IH as [[Hex ->] | [Hall ->]].
  - left. split; [by right|]. by destruct (decide (t ∈ group_node_types)).
  - right. split; [constructor; [by rewrite Ht | done]|].
    by destruct (decide (t ∈ group_node_types)).
Qed.

Lemma extract_nodes_run channel_manager workflow_data :
  (Exists (λ node, node_type node = None) (Props.all_nodes workflow_data) ∧
   extract_nodes str_lower workflow_data channel_manager = inl (KeyError "type")) ∨
  (Forall (λ node, is_Some (node_type node)) (Props.all_nodes workflow_data) ∧
   extract_nodes str_lower workflow_data channel_manager =
     inr (sorted_by_type (Props.kept_records str_lower channel_manager workflow_data))).
Proof.
  unfold extract_nodes, Props.kept_records.
  destruct (extract_results_run channel_manager
              (list_to_set (group_items workflow_data).*1)
              (Props.all_nodes workflow_data)) as [[Hex Hrun] | [Hall Hrun]].
  - left. split; [done|]. unfold Props.all_nodes in Hrun. by rewrite Hrun.
  - right. split; [done|]. unfold Props.all_nodes in Hrun. rewrite Hrun.
    do 2 f_equal. apply list_omap_ext, Forall_Forall2_diag, Forall_true.
    intros node. destruct (node_type node) as [t|]; [|done].
    destruct (decide (t ∈ (list_to_set (group_items workflow_data).*1 : gset string)))
      as [Hin|Hnin], (decide (t ∈ (group_items workflow_data).*1)) as [Hin'|Hnin'];
      try done.
    + by apply elem_of_list_to_set in Hin.
    + destruct Hnin. by apply elem_of_list_to_set.
Qed.

Lemma insert_by_type_Permutation x l : insert_by_type x l ≡ₚ x :: l.
Proof.
  induction l as [|y l IH]; simpl; [done|].
  case_bool_decide; [done|]. by rewrite IH, Permutation_swap.
Qed.

Lemma sorted_by_type_Permutation l : sorted_by_type l ≡ₚ l.
Proof.
  induction l as [|x l IH]; simpl; [done|].
  by rewrite insert_by_type_Permutation, IH.
Qed.

Lemma insert_by_type_Sorted x l :
  Sorted Props.type_le l → Sorted Props.type_le (insert_by_type x l).
Proof.
  induction l as [|y l IH]; intros Hl; simpl.
  - by repeat constructor.
  - case_bool_decide as Hle.
    + constructor; [done|]. by constructor.
    + apply Sorted_inv in Hl as [Hl Hhd].
      assert (Props.type_le y x) as Hyx.
      { unfold Props.type_le. by destruct (total String.le (type x) (type y)). }
      constructor; [by apply IH|].
      destruct l as [|z l]; simpl; [by constructor|].
      case_bool_decide; constructor; [done|]. by apply HdRel_inv in Hhd.
Qed.

Lemma sorted_by_type_Sorted l : Sorted Props.type_le (sorted_by_type l).
Proof.
  induction l as [|x l IH]; simpl; [constructor|]. by apply insert_by_type_Sorted.
Qed.

Lemma insert_by_type_filter t x l :
  filter (λ r, type r = t) (insert_by_type x l) = filter (λ r, type r = t) (x :: l).
Proof.
  induction l as [|y l IH]; simpl; [done|].
  case_bool_decide as Hle; [done|].
  rewrite (filter_cons _ y), IH, !filter_cons.
  destruct (decide (type y = t)) as [Hy|Hy], (decide (type x = t)) as [Hx|Hx];
    try done.
  destruct Hle. by rewrite Hx, Hy.
Qed.

Lemma sorted_by_type_filter t l :
  filter (λ r, type r = t) (sorted_by_type l) = filter (λ r, type r = t) l.
Proof.
  induction l as [|x l IH]; simpl; [done|].
  by rewrite insert_by_type_filter, !filter_cons, IH.
Qed.

(** X13. [extract_nodes] raises [KeyError] exactly when one of the nodes
    it goes through, those of the workflow and those of the group
    definitions, has no [type], also when the node would be left out as a
    group node; otherwise it returns a list. *)
Theorem extract_nodes_raises_on_node_without_type :
  ∀ (workflow_data : workflow) (channel_manager : ChannelManager.t),
    (extract_nodes str_lower workflow_data channel_manager = inl (KeyError "type") ↔
     Exists (λ node, node_type node = None) (Props.all_nodes workflow_data)) ∧
    ((∃ results, extract_nodes str_lower workflow_data channel_manager = inr results) ↔
     Forall (λ node, is_Some (node_type node)) (Props.all_nodes workflow_data)).
Proof.
  intros workflow_data channel_manager.
  destruct (extract_nodes_run channel_manager workflow_data)
    as [[Hex ->] | [Hall ->]].
  - split; [done|]. split; [by intros [? ?]|].
    intros Hall. apply Exists_exists in Hex as (node & Hin & Hnone).
    rewrite Forall_forall in Hall. destruct (Hall node Hin) as [? ?]. congruence.
  - split; [|split; [done | by eexists]]. split; [done|].
    intros Hex. apply Exists_exists in Hex as (node & Hin & Hnone).
    rewrite Forall_forall in Hall. destruct (Hall node Hin) as [? ?]. congruence.
Qed.

(** X14. The list [extract_nodes] returns has one record for every node
    whose type is not the name of a group definition, the nodes inside the
    group definitions included, and no other: a type that occurs on several
    nodes has several records. The record of a node has its type, its model
    files and the repository of its type. *)
Theorem extract_nodes_has_a_record_per_node :
  ∀ (workflow_data : workflow) (channel_manager : ChannelManager.t)
    (results : list node_data),
    extract_nodes str_lower workflow_data channel_manager = inr results →
    results ≡ₚ Props.kept_records str_lower channel_manager workflow_data ∧
    (∀ r, r ∈ results → (type r ∉ (group_items workflow_data).*1)) ∧
    ∀ node t,
      node ∈ Props.all_nodes workflow_data → node_type node = Some t →
      (t ∉ (group_items workflow_data).*1) →
      Props.node_record str_lower channel_manager node t ∈ results.
Proof.
  intros workflow_data channel_manager results Hrun.
  destruct (extract_nodes_run channel_manager workflow_data)
    as [[_ Hrun'] | [_ Hrun']]; rewrite Hrun in Hrun'; [done|].
  injection Hrun' as ->.
  assert (∀ r, r ∈ sorted_by_type
                     (Props.kept_records str_lower channel_manager workflow_data) ↔
               ∃ node t, node ∈ Props.all_nodes workflow_data ∧
                         node_type node = Some t ∧
                         (t ∉ (group_items workflow_data).*1) ∧
                         r = Props.node_record str_lower channel_manager node t)
    as Helem.
  { intros r. rewrite sorted_by_type_Permutation. unfold Props.kept_records.
    rewrite list_elem_of_omap. split.
    - intros (node & Hin & Hr). destruct (node_type node) as [t|] eqn:Ht; [|done].
      destruct (decide _) as [|Hnin]; [done|]. injection Hr as <-. by exists node, t.
    - intros (node & t & Hin & Ht & Hnin & ->). exists node. split; [done|].
      rewrite Ht. by rewrite decide_False. }
  split_and!.
  - apply sorted_by_type_Permutation.
  - intros r (node & t & _ & _ & Hnin & ->)%Helem. done.
  - intros node t Hin Ht Hnin. apply Helem. by exists node, t.
Qed.

(** X15. The list [extract_nodes] returns is in ascending order of the
    types, and the sort is stable: the records of one type are in the order
    of their nodes. *)
Theorem extract_nodes_sorts_by_type_stably :
  ∀ (workflow_data : workflow) (channel_manager : ChannelManager.t)
    (results : list node_data),
    extract_nodes str_lower workflow_data channel_manager = inr results →
    Sorted Props.type_le results ∧
    ∀ t, filter (λ r, type r = t) results =
         filter (λ r, type r = t)
                (Props.kept_records str_lower channel_manager workflow_data).
Proof.
  intros workflow_data channel_manager results Hrun.
  destruct (extract_nodes_run channel_manager workflow_data)
    as [[_ Hrun'] | [_ Hrun']]; rewrite Hrun in Hrun'; [done|].
  injection Hrun' as ->. split.
  - apply sorted_by_type_Sorted.
  - intros t. apply sorted_by_type_filter.
Qed.

End ExtractNodes.

Section ExtractNodesWitnesses.
Import WorkflowProcessor Examples.

(** The instance of the group is left out, the loader inside its
    definition is not: there are two records of type "CheckpointLoader". *)
Lemma extract_nodes_has_a_record_per_node_witness :
  ∃ results,
    extract_nodes Str.lower workflow_data channel_manager = inr results ∧
    type <$> results = ["CheckpointLoader"; "CheckpointLoader"; "LoraLoader"] ∧
    WorkflowProcessor.model <$> results = [["base.ckpt"]; []; ["Style.SafeTensors"]] ∧
    results ≡ₚ Props.kept_records Str.lower channel_manager workflow_data ∧
    ∀ r, r ∈ results → (type r ∉ (group_items workflow_data).*1).
Proof.
  assert (extract_nodes Str.lower workflow_data channel_manager =
          inr (sorted_by_type (Props.kept_records Str.lower channel_manager
                                                  workflow_data))) as Hrun.
  { by vm_compute. }
  eexists. split; [exact Hrun|]. split; [by vm_compute|]. split; [by vm_compute|].
  destruct (extract_nodes_has_a_record_per_node Str.lower workflow_data
              channel_manager _ Hrun) as (Hperm & Hgroups & _).
  split; [exact Hperm | exact Hgroups].
Defined.

Lemma extract_nodes_sorts_by_type_stably_witness :
  ∃ results,
    extract_nodes Str.lower workflow_data channel_manager = inr results ∧
    Sorted Props.type_le results ∧
    filter (λ r, type r = "CheckpointLoader") results =
    filter (λ r, type r = "CheckpointLoader")
           (Props.kept_records Str.lower channel_manager workflow_data).
Proof.
  assert (extract_nodes Str.lower workflow_data channel_manager =
          inr (sorted_by_type (Props.kept_records Str.lower channel_manager
                                                  workflow_data))) as Hrun.
  { by vm_compute. }
  eexists. split; [exact Hrun|].
  destruct (extract_nodes_sorts_by_type_stably Str.lower workflow_data
              channel_manager _ Hrun) as (Hsorted & Hstable).
  split; [exact Hsorted | exact (Hstable "CheckpointLoader")].
Defined.

End ExtractNodesWitnesses.

(** ** The repository of a node type *)

Section Channels.
Import ChannelManager.
Variable str_lower : string → string.
Variable get_node_mappings : string → exn + list (string * nodes_info).

Lemma assign_all_not_assigned aliases (m : gmap string string) k :
  k ∉ aliases.*1 → Spec.assign_all aliases m !! k = m !! k.
Proof.
  unfold Spec.assign_all. revert m.
  induction aliases as [|[k' v'] aliases IH]; intros m Hk; csimpl in *; [done|].
  apply not_elem_of_cons in Hk as [Hne Hk].
  rewrite IH by done. by rewrite lookup_insert_ne.
Qed.

Lemma assign_all_last before after (m : gmap string string) k v :
  k ∉ after.*1 → Spec.assign_all (before ++ (k, v) :: after) m !! k = Some v.
Proof.
  intros Hk. rewrite assign_all_app. unfold Spec.assign_all at 1. simpl.
  fold (Spec.assign_all after (<[k:=v]> (Spec.assign_all before m))).
  rewrite assign_all_not_assigned by done. apply lookup_insert_eq.
Qed.

Lemma add_repo_assign repo_map repo_url info :
  add_repo repo_map repo_url info =
  Spec.assign_all (Props.listed [(repo_url, info)]) repo_map.
Proof.
  unfold Props.listed. csimpl. rewrite app_nil_r.
  destruct info as [nodes| |]; [|done..]. simpl.
  unfold Spec.assign_all. revert repo_map.
  induction nodes as [|node nodes IH]; intros repo_map; [done|]. csimpl. apply IH.
Qed.

Lemma listed_cons entry mappings :
  Props.listed (entry :: mappings) = Props.listed [entry] ++ Props.listed mappings.
Proof. unfold Props.listed. csimpl. by rewrite app_nil_r. Qed.

Lemma add_channel_assign repo_map mappings :
  add_channel repo_map mappings = Spec.assign_all (Props.listed mappings) repo_map.
Proof.
  unfold add_channel. revert repo_map.
  induction mappings as [|[repo_url info] mappings IH]; intros repo_map; [done|].
  rewrite listed_cons, assign_all_app. simpl. by rewrite IH, add_repo_assign.
Qed.

Lemma populate_from_run channels fetched repo_map :
  Forall2 (λ channel mappings, get_node_mappings channel.2 = inr mappings)
          channels fetched →
  populate_from get_node_mappings channels repo_map =
    inr (Spec.assign_all (concat (Props.listed <$> fetched)) repo_map).
Proof.
  intros Hfetched. revert repo_map.
  induction Hfetched as [|[name channel_url] mappings channels fetched Hfetch _ IH];
    intros repo_map; [done|].
  simpl in *. rewrite Hfetch, IH, assign_all_app. by rewrite add_channel_assign.
Qed.

Lemma populate_from_raises before channel after e repo_map :
  Forall (λ channel, ∃ mappings, get_node_mappings channel.2 = inr mappings) before →
  get_node_mappings channel.2 = inl e →
  populate_from get_node_mappings (before ++ channel :: after) repo_map = inl e.
Proof.
  intros Hbefore Hfetch. revert repo_map.
  induction Hbefore as [|[name channel_url] before [mappings Hfirst] _ IH];
    intros repo_map; simpl in *.
  - destruct channel as [name channel_url]. simpl in *. by rewrite Hfetch.
  - rewrite Hfirst. apply IH.
Qed.

(** X16. [populate_repo_mappings] gives every node name the repository of
    the last place that lists it, in the order of the channels and, within a
    channel, of its map, and gives nothing to a name no channel lists. When
    the fetch of a channel raises, the call raises the same, and no mapping
    is assigned. *)
Theorem populate_repo_mappings_last_listing_wins :
  ∀ (channels : list (string * string)),
    (∀ fetched,
       Forall2 (λ channel mappings, get_node_mappings channel.2 = inr mappings)
               channels fetched →
       ∃ self,
         populate_repo_mappings get_node_mappings channels = inr self ∧
         (∀ node, node ∉ (concat (Props.listed <$> fetched)).*1 →
                  repo_mappings self !! node = None) ∧
         ∀ before node repo_url after,
           concat (Props.listed <$> fetched) = before ++ (node, repo_url) :: after →
           node ∉ after.*1 →
           repo_mappings self !! node = Some repo_url) ∧
    ∀ before channel after e,
      channels = before ++ channel :: after →
      Forall (λ channel, ∃ mappings, get_node_mappings channel.2 = inr mappings)
             before →
      get_node_mappings channel.2 = inl e →
      populate_repo_mappings get_node_mappings channels = inl e.
Proof.
  intros channels. unfold populate_repo_mappings. split.
  - intros fetched Hfetched. rewrite (populate_from_run _ _ _ Hfetched).
    eexists. split; [done|]. simpl. split.
    + intros node Hnode. by rewrite assign_all_not_assigned.
    + intros before node repo_url after -> Hnode. by apply assign_all_last.
  - intros before channel after e -> Hbefore Hfetch.
    by rewrite (populate_from_raises _ _ _ _ _ Hbefore Hfetch).
Qed.

Lemma first_known_patterns items node_type :
  first_known str_lower items node_type =
  ModelPathInference.first_pattern ((λ entry, (str_lower entry.1, entry.2)) <$> items)
                                   (str_lower node_type).
Proof.
  induction items as [|[pattern repo] items IH]; [done|]. csimpl. by rewrite IH.
Qed.

Lemma find_repo_by_pattern_truthy node_type repo :
  find_repo_by_pattern str_lower node_type = Some repo → repo ≠ "".
Proof.
  unfold find_repo_by_pattern, KNOWN_NODES. cbn [first_known].
  repeat (destruct (Str.contains _ _); [by intros [= <-]|]). done.
Qed.

(** X17. The repository of a node type is the one [repo_mappings] has for
    it, when it has one that is not the empty string, whatever the name of
    the type contains. Otherwise it is the repository of the first pattern
    of [KNOWN_NODES], "rgthree" then "crystools", that occurs in the name,
    both in lower case, and [None] when none occurs. The answer is never the
    empty string. *)
Theorem get_repo_from_node_type_mapping_then_pattern :
  ∀ (self : t) (node_type : string),
    (∀ repo, repo_mappings self !! node_type = Some repo → repo ≠ "" →
             get_repo_from_node_type str_lower self node_type = Some repo) ∧
    (repo_mappings self !! node_type = None ∨
     repo_mappings self !! node_type = Some "" →
     (∀ repo, get_repo_from_node_type str_lower self node_type = Some repo ↔
              Spec.first_match (Props.known_patterns str_lower)
                               (str_lower node_type) repo) ∧
     (get_repo_from_node_type str_lower self node_type = None ↔
      Spec.no_match (Props.known_patterns str_lower) (str_lower node_type))) ∧
    get_repo_from_node_type str_lower self node_type ≠ Some "".
Proof.
  intros self node_type. unfold get_repo_from_node_type. split_and!.
  - intros repo -> Hrepo. by destruct repo.
  - intros Hnone.
    assert (negb (truthy (repo_mappings self !! node_type)) = true) as ->
      by (by destruct Hnone as [-> | ->]).
    unfold find_repo_by_pattern. rewrite first_known_patterns. split.
    + intros repo. apply first_pattern_some.
    + apply first_pattern_none.
  - destruct (repo_mappings self !! node_type) as [[|a repo]|] eqn:Hrepo; simpl;
      [|done|]; intros Hempty; by apply find_repo_by_pattern_truthy in Hempty.
Qed.

End Channels.

(** ** From the workflow to the manifest *)

Section Pipeline.
Import WorkflowProcessor.
Variable str_lower : string → string.

Lemma extract_nodes_elem workflow_data channel_manager results r :
  extract_nodes str_lower workflow_data channel_manager = inr results →
  r ∈ results ↔
  ∃ node t, node ∈ Props.all_nodes workflow_data ∧ node_type node = Some t ∧
            (t ∉ (group_items workflow_data).*1) ∧
            r = Props.node_record str_lower channel_manager node t.
Proof.
  intros Hrun.
  destruct (extract_nodes_run str_lower channel_manager workflow_data)
    as [[_ Hrun'] | [_ Hrun']]; rewrite Hrun in Hrun'; [done|].
  injection Hrun' as ->.
  rewrite sorted_by_type_Permutation. unfold Props.kept_records.
  rewrite list_elem_of_omap. split.
  - intros (node & Hin & Hr). destruct (node_type node) as [t|] eqn:Ht; [|done].
    destruct (decide _) as [|Hnin]; [done|]. injection Hr as <-. by exists node, t.
  - intros (node & t & Hin & Ht & Hnin & ->). exists node. split; [done|].
    rewrite Ht. by rewrite decide_False.
Qed.

Lemma get_repo_from_node_type_truthy channel_manager t u :
  ChannelManager.get_repo_from_node_type str_lower channel_manager t = Some u → u ≠ "".
Proof.
  unfold ChannelManager.get_repo_from_node_type.
  destruct (ChannelManager.repo_mappings channel_manager !! t) as [[|a repo]|];
    simpl; [|by intros [= <-]|]; apply find_repo_by_pattern_truthy.
Qed.

Lemma node_types_elem nodes t :
  t ∈ node_types (transform_nodes_data nodes) ↔ ∃ n, n ∈ nodes ∧ type n = t.
Proof.
  unfold transform_nodes_data. cbn [node_types].
  rewrite sorted_elem, elem_of_list_to_set, list_elem_of_fmap.
  split; [intros (n & -> & ?); by exists n | intros (n & ? & <-); by exists n].
Qed.

Lemma unmapped_nodes_elem nodes t :
  t ∈ unmapped_nodes (transform_nodes_data nodes) ↔
  ∃ n, n ∈ nodes ∧ type n = t ∧ repo n = None.
Proof.
  unfold transform_nodes_data. cbn [unmapped_nodes].
  rewrite sorted_elem, elem_of_list_to_set, list_elem_of_fmap. split.
  - intros (n & -> & [Hrepo%bool_decide_unpack Hn]%list_elem_of_filter).
    by exists n.
  - intros (n & Hn & <- & Hrepo). exists n. split; [done|].
    apply list_elem_of_filter. split; [by apply bool_decide_pack | done].
Qed.

(** X18. For the nodes [extract_nodes] returns, [transform_nodes_data]
    lists as node types the types of the nodes of the workflow and of its
    group definitions that are not names of group definitions, and puts each
    of them in one place: a type without repository is unmapped and in the
    [needed_by] of no repository; a type with a repository is not unmapped
    and in the [needed_by] of the entry of its repository only, which
    exists. *)
Theorem every_extracted_type_is_unmapped_or_of_one_repo :
  ∀ (workflow_data : workflow) (channel_manager : ChannelManager.t)
    (results : list node_data),
    extract_nodes str_lower workflow_data channel_manager = inr results →
    ∀ t, (t ∈ node_types (transform_nodes_data results) ↔
          (t ∉ (group_items workflow_data).*1) ∧
          ∃ node, node ∈ Props.all_nodes workflow_data ∧ node_type node = Some t) ∧
         (t ∈ node_types (transform_nodes_data results) →
          match ChannelManager.get_repo_from_node_type str_lower channel_manager t with
          | None =>
              t ∈ unmapped_nodes (transform_nodes_data results) ∧
              ∀ r, r ∈ repos (transform_nodes_data results) → t ∉ repo_needed_by r
          | Some u =>
              (t ∉ unmapped_nodes (transform_nodes_data results)) ∧
              (∃ r, r ∈ repos (transform_nodes_data results) ∧ url r = u) ∧
              ∀ r, r ∈ repos (transform_nodes_data results) →
                   (t ∈ repo_needed_by r ↔ url r = u)
          end).
Proof.
  intros workflow_data channel_manager results Hrun t.
  pose proof (λ r, extract_nodes_elem workflow_data channel_manager results r Hrun)
    as Helem.
  assert (∀ n, n ∈ results →
            repo n = ChannelManager.get_repo_from_node_type str_lower channel_manager
                       (type n)) as Hrepo.
  { by intros n (node & t' & _ & _ & _ & ->)%Helem. }
  destruct (repos_records results) as (_ & Hurls & Hrecords).
  split.
  - rewrite node_types_elem. split.
    + intros (n & (node & t' & Hin & Ht & Hnin & ->)%Helem & <-). simpl.
      split; [done|]. by exists node.
    + intros (Hnin & node & Hin & Ht).
      exists (Props.node_record str_lower channel_manager node t).
      split; [|done]. apply Helem. by exists node, t.
  - intros (n & Hn & <-)%node_types_elem.
    pose proof (Hrepo n Hn) as Hn_repo.
    destruct (ChannelManager.get_repo_from_node_type str_lower channel_manager (type n))
      as [u|] eqn:Hu.
    + assert (u ≠ "") as Hne by (by eapply get_repo_from_node_type_truthy).
      split_and!.
      * intros (n' & Hn' & Ht & Hnone)%unmapped_nodes_elem.
        rewrite (Hrepo n' Hn'), Ht, Hu in Hnone. done.
      * assert (u ∈ url <$> repos (transform_nodes_data results)) as
          (r & -> & Hr)%list_elem_of_fmap by (apply Hurls; by exists n).
        by exists r.
      * intros r Hr. destruct (Hrecords r Hr) as (_ & _ & _ & Hneeded).
        rewrite Hneeded. split.
        -- intros (n' & Hn' & Ht & Hrepo'). rewrite (Hrepo n' Hn'), Ht, Hu in Hrepo'.
           by injection Hrepo'.
        -- intros ->. exists n. by rewrite Hn_repo.
    + split.
      * apply unmapped_nodes_elem. by exists n.
      * intros r Hr. destruct (Hrecords r Hr) as (_ & _ & _ & Hneeded).
        rewrite Hneeded. intros (n' & Hn' & Ht & Hrepo').
        rewrite (Hrepo n' Hn'), Ht, Hu in Hrepo'. done.
Qed.

End Pipeline.

Section PipelineWitnesses.
Import WorkflowProcessor Examples.

(** The example workflow: "LoraLoader" has a repository, "CheckpointLoader"
    has none, and "MyGroup" names a group definition. *)
Lemma every_extracted_type_is_unmapped_or_of_one_repo_witness :
  ∃ results,
    extract_nodes Str.lower workflow_data channel_manager = inr results ∧
    node_types (transform_nodes_data results) = ["CheckpointLoader"; "LoraLoader"] ∧
    unmapped_nodes (transform_nodes_data results) = ["CheckpointLoader"] ∧
    repos (transform_nodes_data results) =
      [ {| url := "https://github.com/example/loaders";
           repo_needed_by := ["LoraLoader"] |} ] ∧
    ("LoraLoader" ∈ node_types (transform_nodes_data results) ↔
     ("LoraLoader" ∉ (group_items workflow_data).*1) ∧
     ∃ node, node ∈ Props.all_nodes workflow_data ∧
             node_type node = Some "LoraLoader").
Proof.
  assert (extract_nodes Str.lower workflow_data channel_manager =
          inr (sorted_by_type (Props.kept_records Str.lower channel_manager
                                                  workflow_data))) as Hrun.
  { by vm_compute. }
  eexists. split; [exact Hrun|].
  split; [by vm_compute|]. split; [by vm_compute|]. split; [by vm_compute|].
  exact (proj1 (every_extracted_type_is_unmapped_or_of_one_repo Str.lower
                  workflow_data channel_manager _ Hrun "LoraLoader")).
Defined.

End PipelineWitnesses.

(** ** The URL cache and the model finder *)

Section UrlCache.

(** X19. [put] makes the URL the answer of [get] for its filename and
    leaves the answers for the other filenames as they were, whether or not
    the cache file can be written. When it can, nothing is logged and a new
    cache object made from the file has the same entries; when it cannot, an
    error is logged, no exception is raised and the file stays as it
    was. *)
Theorem put_is_visible_and_saved :
  ∀ (self : ModelURLCache.t) (model_filename url : string) (disk : ModelURLCache.Disk),
    let result := ModelURLCache.put self model_filename url disk in
    ModelURLCache.get result.1.1 model_filename = Some url ∧
    (∀ other, other ≠ model_filename →
              ModelURLCache.get result.1.1 other = ModelURLCache.get self other) ∧
    (ModelURLCache.writable disk = true →
     result.2 = [] ∧ ModelURLCache.__init__ result.1.2 = (result.1.1, [])) ∧
    (ModelURLCache.writable disk = false →
     result.2 = [ModelURLCache.ErrorSavingCache] ∧ result.1.2 = disk).
Proof.
  intros self model_filename url disk result. subst result.
  unfold ModelURLCache.put, ModelURLCache._save_cache, ModelURLCache.get.
  destruct (ModelURLCache.writable disk) eqn:Hwritable; simpl.
  - split_and!; [apply lookup_insert_eq| |done|done].
    intros other Hother. by apply lookup_insert_ne.
  - split_and!; [apply lookup_insert_eq| |done|done].
    intros other Hother. by apply lookup_insert_ne.
Qed.

End UrlCache.

Section Finder.
Import ModelFinder.

Lemma first_huggingface_spec urls url :
  first_huggingface urls = Some url ↔
  ∃ before after,
    urls = before ++ Some url :: after ∧ url ≠ "" ∧
    Str.substring "huggingface.co" url ∧
    ∀ u, Some u ∈ before → u = "" ∨ ¬ Str.substring "huggingface.co" u.
Proof.
  induction urls as [|[u|] urls IH]; cbn [first_huggingface].
  - split; [done|]. intros (before & after & Heq & _). by destruct before.
  - destruct (Str.truthy u && Str.contains "huggingface.co" u) eqn:Hu.
    + apply andb_true_iff in Hu as [Htruthy Hsub%contains_spec]. split.
      * intros [= <-]. exists [], urls. split_and!; [done| |done|].
        -- by destruct u.
        -- intros u' Hin. by apply elem_of_nil in Hin.
      * intros ([|first before] & after & Heq & Hne & Hsub' & Hbefore).
        -- by injection Heq as <- _.
        -- injection Heq as <- _. destruct (Hbefore u) as [-> | Hno]; [by left|done..].
    + rewrite IH. split.
      * intros (before & after & -> & Hne & Hsub & Hbefore).
        exists (Some u :: before), after. split_and!; [done..|].
        intros u' [[= ->] | Hin]%elem_of_cons; [|by apply Hbefore].
        apply andb_false_iff in Hu as [Hu | Hu%contains_false]; [|by right].
        left. by destruct u.
      * intros ([|first before] & after & Heq & Hne & Hsub & Hbefore).
        -- injection Heq as -> _. apply contains_spec in Hsub.
           rewrite Hsub, andb_true_r in Hu. by destruct url.
        -- injection Heq as <- ->. exists before, after. split_and!; [done..|].
           intros u' Hin. apply Hbefore. by right.
  - rewrite IH. split.
    + intros (before & after & -> & Hne & Hsub & Hbefore).
      exists (None :: before), after. split_and!; [done..|].
      intros u' [[=] | Hin]%elem_of_cons. by apply Hbefore.
    + intros ([|first before] & after & Heq & Hne & Hsub & Hbefore); [done|].
      injection Heq as <- ->. exists before, after. split_and!; [done..|].
      intros u' Hin. apply Hbefore. by right.
Qed.

Lemma first_huggingface_truthy urls url :
  first_huggingface urls = Some url → Str.truthy url = true.
Proof. intros (_ & _ & _ & Hne & _)%first_huggingface_spec. by destruct url. Qed.

(** X20. A URL that [find_model_online] returns is not the empty string,
    and the next call for the same filename returns it again from the
    cache, without a search and without a change of the cache or of its
    file, whatever a search would find. *)
Theorem found_url_is_served_from_the_cache :
  ∀ (search search' : string → option (list (option string))) (self self' : t)
    (disk disk' : ModelURLCache.Disk) (filename url : string),
    find_model_online search self disk filename = (Some url, (self', disk')) →
    url ≠ "" ∧
    find_model_online search' self' disk' filename = (Some url, (self', disk')).
Proof.
  intros search search' self self' disk disk' filename url.
  unfold find_model_online.
  destruct (ChannelManager.truthy (ModelURLCache.get (cache self) filename))
    eqn:Hcached.
  - intros [= Hurl <- <-]. rewrite Hcached, Hurl. split; [|done].
    rewrite Hurl in Hcached. by destruct url.
  - destruct (_page self); simpl; [|done].
    destruct (search filename) as [urls|]; [|done].
    destruct (first_huggingface urls) as [found|] eqn:Hfound; [|done].
    apply first_huggingface_truthy in Hfound.
    unfold ModelURLCache.put.
    destruct (ModelURLCache._save_cache _ disk) as [saved log].
    intros [= -> <- <-]. split; [by destruct url|].
    unfold ModelURLCache.get. simpl. rewrite lookup_insert_eq. simpl.
    by rewrite Hfound.
Qed.

(** X21. A cached URL that is not the empty string is the answer, whether
    or not there is a page. Without one, a finder without a page answers
    [None], and a finder with a page answers with the first result of the
    search whose URL is not empty and contains "huggingface.co", and
    with [None] when the search raises or has no such result. The object
    and the cache file change only when a search finds a URL. *)
Theorem find_model_online_cache_then_search :
  ∀ (search : string → option (list (option string))) (self : t)
    (disk : ModelURLCache.Disk) (filename : string),
    (∀ url, ModelURLCache.get (cache self) filename = Some url → url ≠ "" →
            find_model_online search self disk filename = (Some url, (self, disk))) ∧
    (ModelURLCache.get (cache self) filename = None ∨
     ModelURLCache.get (cache self) filename = Some "" →
     (_page self = false →
      find_model_online search self disk filename = (None, (self, disk))) ∧
     (_page self = true →
      (∀ url, (find_model_online search self disk filename).1 = Some url ↔
              ∃ urls before after,
                search filename = Some urls ∧
                urls = before ++ Some url :: after ∧ url ≠ "" ∧
                Str.substring "huggingface.co" url ∧
                ∀ u, Some u ∈ before → u = "" ∨ ¬ Str.substring "huggingface.co" u) ∧
      ((find_model_online search self disk filename).1 = None →
       (find_model_online search self disk filename).2 = (self, disk)))).
Proof.
  intros search self disk filename. unfold find_model_online. split.
  - intros url -> Hurl. by destruct url.
  - intros Hnone.
    assert (ChannelManager.truthy (ModelURLCache.get (cache self) filename) = false)
      as -> by (by destruct Hnone as [-> | ->]).
    split; [by intros ->|]. intros ->. simpl.
    destruct (search filename) as [urls|] eqn:Hsearch.
    + destruct (first_huggingface urls) as [found|] eqn:Hfound.
      * unfold ModelURLCache.put.
        destruct (ModelURLCache._save_cache _ disk) as [saved log]. simpl.
        split; [|done]. intros url. split.
        -- intros [= <-]. apply first_huggingface_spec in Hfound
             as (before & after & ? & ? & ? & ?).
           by exists urls, before, after.
        -- intros (urls' & before & after & [= <-] & Hfirst).
           assert (first_huggingface urls = Some url) as Hurl.
           { apply first_huggingface_spec. by exists before, after. }
           congruence.
      * simpl. split; [|done]. intros url. split; [done|].
        intros (urls' & before & after & [= <-] & Hfirst).
        assert (first_huggingface urls = Some url) as Hurl.
        { apply first_huggingface_spec. by exists before, after. }
        congruence.
    + simpl. split; [|done]. intros url. split; [done|].
      by intros (urls' & before & after & [=] & _).
Qed.

End Finder.

Section FinderWitnesses.
Import ModelFinder.

(** A search whose third result is the first on "huggingface.co", for a
    finder with a page, an empty cache and a cache file it can write. *)
Lemma found_url_is_served_from_the_cache_witness :
  let search := λ _ : string,
    Some [None; Some "https://example.com/base.ckpt";
          Some "https://huggingface.co/example/base.ckpt";
          Some "https://huggingface.co/other/base.ckpt"] in
  let self := mk (ModelURLCache.mk ∅) true in
  let disk := {| ModelURLCache.file := ModelURLCache.Missing;
                 ModelURLCache.writable := true |} in
  let result := find_model_online search self disk "base.ckpt" in
  result.1 = Some "https://huggingface.co/example/base.ckpt" ∧
  ModelURLCache.file result.2.2 =
    ModelURLCache.Holds {[ "base.ckpt" := "https://huggingface.co/example/base.ckpt" ]} ∧
  "https://huggingface.co/example/base.ckpt" ≠ "" ∧
  find_model_online (λ _, None) result.2.1 result.2.2 "base.ckpt" =
    (Some "https://huggingface.co/example/base.ckpt", (result.2.1, result.2.2)).
Proof.
  intros search self disk result.
  split; [by vm_compute|]. split; [by vm_compute|].
  apply (found_url_is_served_from_the_cache search (λ _, None) self result.2.1
           disk result.2.2 "base.ckpt" "https://huggingface.co/example/base.ckpt").
  by vm_compute.
Defined.

End FinderWitnesses.

(** ** Files that contribute nothing *)

Section ScannerRobustness.
Import ModelPathInference.
Variable ast_parse : string → option node.

Lemma analyze_file_result file w :
  ∃ evs, _analyze_file ast_parse file w =
           (inr (Props.file_result ast_parse file), (w.1, w.2 ++ evs)).
Proof.
  destruct w as [self tr].
  unfold _analyze_file, read, parse, Props.file_result.
  destruct (file_content file) as [content|]; unfold_M;
    [|eexists; by rewrite <-?app_assoc].
  destruct (Str.contains "INPUT_TYPES" content); simpl;
    [|eexists; by rewrite <-?app_assoc].
  destruct (ast_parse content) as [tree|]; simpl;
    [|eexists; by rewrite <-?app_assoc].
  case_bool_decide as Hempty; [eexists; by rewrite <-?app_assoc|].
  destruct (decide (NodeVisitor.class_folders
                      (NodeVisitor.visit tree NodeVisitor.__init__) = ∅)) as [->|];
    [eexists; by rewrite <-?app_assoc | done].
Qed.

Lemma analyze_files_result files w :
  ∃ evs, for_list files (_analyze_file ast_parse) w =
           (inr (Props.file_result ast_parse <$> files), (w.1, w.2 ++ evs)).
Proof.
  revert w. induction files as [|file files IH]; intros w.
  - destruct w as [self tr]. exists []. simpl. unfold_M. by rewrite app_nil_r.
  - destruct (analyze_file_result file w) as [evs1 Hfile].
    destruct (IH (w.1, w.2 ++ evs1)) as [evs Hfiles].
    exists (evs1 ++ evs). simpl. rewrite bind_run, Hfile, bind_run, Hfiles. simpl.
    by rewrite app_assoc.
Qed.

Lemma analyze_node_classes_merge self tr :
  ∃ evs, _analyze_node_classes ast_parse (self, tr) =
           merge_results (Props.file_result ast_parse <$> _find_python_files self)
                         (self, tr ++ evs).
Proof.
  destruct (analyze_files_result (_find_python_files self) (self, tr)) as [evs Hrun].
  exists evs. unfold _analyze_node_classes. rewrite bind_run. unfold Monad.get at 1.
  cbn [fst]. by rewrite bind_run, Hrun.
Qed.

(** The folders the merge leaves depend on the results, the folders and
    the required types it starts from, and on nothing else. *)
Lemma merge_results_folders results self1 self2 tr1 tr2 :
  node_class_folders self1 = node_class_folders self2 →
  required_node_types self1 = required_node_types self2 →
  node_class_folders (merge_results results (self1, tr1)).2.1 =
  node_class_folders (merge_results results (self2, tr2)).2.1.
Proof.
  revert self1 self2. induction results as [|r results IH];
    intros self1 self2 Hfolders Hrequired; [done|].
  simpl. unfold_M. unfold all_required_found. simpl.
  rewrite Hfolders, Hrequired.
  destruct (_ && _); simpl; [congruence|]. apply IH; simpl; congruence.
Qed.

Lemma merge_results_skip_empty rs1 rs2 self tr :
  ¬ Spec.covers (required_node_types self) (node_class_folders self) →
  node_class_folders (merge_results (rs1 ++ ∅ :: rs2) (self, tr)).2.1 =
  node_class_folders (merge_results (rs1 ++ rs2) (self, tr)).2.1.
Proof.
  revert self. induction rs1 as [|r rs1 IH]; intros self Hcovers.
  - simpl. unfold_M.
    set (self1 := set_node_class_folders (λ m, ∅ ∪ m) self).
    assert (self1 = self) as ->.
    { unfold self1, set_node_class_folders. rewrite (left_id_L ∅ (∪)). by destruct self. }
    destruct (bool_decide (required_node_types self ≠ ∅) && all_required_found self)
      eqn:Hexit; [|done].
    by apply early_exit_spec in Hexit.
  - simpl. unfold_M.
    set (self1 := set_node_class_folders (λ m, r ∪ m) self).
    destruct (bool_decide (required_node_types self ≠ ∅) && all_required_found self1)
      eqn:Hexit; [done|].
    apply IH. intros Hcov. apply (early_exit_spec self1) in Hcov.
    change (required_node_types self1) with (required_node_types self) in Hcov.
    congruence.
Qed.

Lemma contributes_nothing_result file :
  Props.contributes_nothing ast_parse file → Props.file_result ast_parse file = ∅.
Proof.
  unfold Props.contributes_nothing, Props.file_result.
  destruct (file_content file) as [content|]; [|done].
  by intros [-> | ->]; [|destruct (Str.contains _ _)].
Qed.

(** X22. A file that is hidden, cannot be read, does not contain
    "INPUT_TYPES" or does not parse is for the scanner as if it were not
    there: the ClassFolderMap after [_analyze_node_classes] is the one the
    source tree without the file gives, for a map that does not already
    cover the required types when the scan starts, as the empty map of a
    new object. *)
Theorem scanner_result_ignores_files_without_folders :
  ∀ (self : t) (before after : list SourceFile) (file : SourceFile) (tr : list event),
    custom_nodes_path self = before ++ file :: after →
    hidden (file_path file) = true ∨ Props.contributes_nothing ast_parse file →
    ¬ Spec.covers (required_node_types self) (node_class_folders self) →
    node_class_folders (_analyze_node_classes ast_parse (self, tr)).2.1 =
    node_class_folders
      (_analyze_node_classes ast_parse
         (mk (before ++ after) (node_class_folders self) (required_node_types self)
             (node_class_mappings self), tr)).2.1.
Proof.
  intros self before after file tr Hfiles Hfile Hcovers.
  set (self' := mk (before ++ after) (node_class_folders self)
                   (required_node_types self) (node_class_mappings self)).
  destruct (analyze_node_classes_merge self tr) as [evs ->].
  destruct (analyze_node_classes_merge self' tr) as [evs' ->].
  unfold _find_python_files. rewrite Hfiles. simpl.
  rewrite !filter_app, filter_cons.
  destruct (hidden (file_path file)) eqn:Hhidden; simpl.
  - by apply merge_results_folders.
  - destruct Hfile as [? | Hnothing]; [done|].
    rewrite !fmap_app, fmap_cons, (contributes_nothing_result file Hnothing).
    rewrite merge_results_skip_empty by done. by apply merge_results_folders.
Qed.

End ScannerRobustness.

Section ScannerRobustnessWitnesses.
Import ModelPathInference Examples.

(** A package that does not parse before one that declares a folder. *)
Lemma scanner_result_ignores_files_without_folders_witness :
  let pack := file nodes_py (node_class_text "loras") in
  let self := set_required_node_types {[ "Loader" ]} (__init__ [broken_py; pack]) in
  Props.contributes_nothing ast_parse broken_py ∧
  ¬ Spec.covers (required_node_types self) (node_class_folders self) ∧
  node_class_folders (_analyze_node_classes ast_parse (self, [])).2.1 =
    {[ "Loader" := [("loras", "loras")] ]} ∧
  node_class_folders (_analyze_node_classes ast_parse (self, [])).2.1 =
  node_class_folders
    (_analyze_node_classes ast_parse
       (mk ([] ++ [pack]) (node_class_folders self) (required_node_types self)
           (node_class_mappings self), [])).2.1.
Proof.
  intros pack self.
  assert (Props.contributes_nothing ast_parse broken_py) as Hnothing.
  { right. reflexivity. }
  assert (¬ Spec.covers (required_node_types self) (node_class_folders self))
    as Hcovers.
  { intros [_ Hall]. destruct (Hall "Loader") as [folders Hfolders].
    - unfold self. simpl. by apply elem_of_singleton.
    - unfold self in Hfolders. simpl in Hfolders. by rewrite lookup_empty in Hfolders. }
  split; [exact Hnothing|]. split; [exact Hcovers|]. split; [by vm_compute|].
  exact (scanner_result_ignores_files_without_folders ast_parse self [] [pack]
           broken_py [] eq_refl (or_intror Hnothing) Hcovers).
Defined.

End ScannerRobustnessWitnesses.

(** ** The nodes of a tree *)

Section Inside.

Lemma inside_trans tree n c : Props.inside tree n → Props.inside n c → Props.inside tree c.
Proof.
  intros Hn Hc. induction Hc as [|m c Hm IH Hchild]; [done|].
  by apply (Props.inside_child tree m).
Qed.

Lemma inside_inv tree n :
  Props.inside tree n → n = tree ∨ ∃ c, c ∈ iter_child_nodes tree ∧ Props.inside c n.
Proof.
  induction 1 as [|n c Hn [-> | (c' & Hc' & Hinside)] Hchild]; [by left|..].
  - right. exists c. split; [done | constructor].
  - right. exists c'. split; [done|]. by apply (Props.inside_child c' n).
Qed.

Lemma walk_queue_elem steps todo n :
  sum_list_with node_size todo ≤ steps →
  n ∈ walk_queue steps todo ↔ ∃ t, t ∈ todo ∧ Props.inside t n.
Proof.
  revert todo. induction steps as [|steps IH]; intros [|n0 todo] Hle; simpl in *.
  - split; [by intros ?%elem_of_nil | by intros (t & ?%elem_of_nil & _)].
  - pose proof (node_size_children n0). lia.
  - split; [by intros ?%elem_of_nil | by intros (t & ?%elem_of_nil & _)].
  - rewrite elem_of_cons, IH.
    2:{ rewrite sum_list_with_app. pose proof (node_size_children n0). lia. }
    split.
    + intros [-> | (t & [Ht | Ht]%elem_of_app & Hinside)].
      * exists n0. split; [by left | constructor].
      * exists t. split; [by right | done].
      * exists n0. split; [by left|].
        apply (inside_trans n0 t); [|done].
        by apply (Props.inside_child n0 n0); [constructor|].
    + intros (t & [-> | Ht]%elem_of_cons & Hinside).
      * apply inside_inv in Hinside as [-> | (c & Hc & Hinside)]; [by left|].
        right. exists c. split; [|done]. apply elem_of_app. by right.
      * right. exists t. split; [|done]. apply elem_of_app. by left.
Qed.

(** X23. [walk] yields the nodes of the tree and nothing else: the tree
    itself and, with a node, its children. *)
Theorem walk_yields_the_nodes_of_the_tree :
  ∀ (tree n : node), n ∈ walk tree ↔ Props.inside tree n.
Proof.
  intros tree n. unfold walk. rewrite walk_queue_elem by (simpl; lia). split.
  - by intros (t & ->%list_elem_of_singleton & ?).
  - intros Hinside. exists tree. split; [by left | done].
Qed.

End Inside.

Section VisitorSoundness.
Import NodeVisitor.
Variable inside : node → Prop.
Variable P : NodeVisitor.t → Prop.
Hypothesis inside_children : ∀ n c, inside n → c ∈ iter_child_nodes n → inside c.
Hypothesis enter_class :
  ∀ self name bases keywords body decorator_list,
    inside (ClassDef name bases keywords body decorator_list) →
    P self → P (mk (class_folders self) (Some name)).
Hypothesis record_call :
  ∀ self func args keywords folder_name,
    inside (Call func args keywords) →
    folder_argument func args = Some folder_name →
    P self → P (record_folder folder_name self).

(** Visiting a node of the tree keeps what is kept by entering a class of
    the tree and by recording the folder of a call of the tree. *)
Lemma visit_keeps_inside n self : inside n → P self → P (visit n self).
Proof.
  revert self. induction n as [n IH] using (induction_ltof1 _ node_size).
  intros self Hn HP.
  assert (∀ c self, c ∈ iter_child_nodes n → P self → P (visit c self))
    as Hchildren.
  { intros c self' Hc. apply IH; [by apply node_size_child|].
    by apply (inside_children n). }
  assert (∀ l self, (∀ c, c ∈ l → c ∈ iter_child_nodes n) → P self →
                    P (visit_all visit l self)) as Hall.
  { intros l self' Hl. apply visit_all_keeps. intros c self'' Hc. apply Hchildren. auto. }
  assert (∀ self, P self → P (generic_visit_with visit n self)) as Hgeneric.
  { intros self' HP'. clear IH HP.
    destruct n as [body|name bases keywords body decos|name args body decos returns|
                   targets value|func args keywords|value attr|id|value|keys values|
                   children]; simpl in *; try done.
    - by apply Hall.
    - repeat (apply Hall; [intros c Hc; rewrite !elem_of_app; by auto|]). done.
    - destruct returns as [r|].
      + apply Hchildren; [rewrite elem_of_cons, !elem_of_app; right; right; right;
                          by left|].
        repeat (apply Hall; [intros c Hc; rewrite elem_of_cons, !elem_of_app; by auto|]).
        apply Hchildren; [by left | done].
      + repeat (apply Hall; [intros c Hc; rewrite elem_of_cons, !elem_of_app; by auto|]).
        apply Hchildren; [by left | done].
    - apply Hchildren; [apply elem_of_app; right; by left|].
      apply Hall; [intros c Hc; apply elem_of_app; by left | done].
    - repeat (apply Hall; [intros c Hc; rewrite elem_of_cons, !elem_of_app; by auto|]).
      apply Hchildren; [by left | done].
    - apply Hchildren; [by left | done].
    - apply Hall; [intros c Hc; apply elem_of_app; by right|].
      apply visit_keys_keeps; [|done].
      intros k self'' Hk. apply Hchildren. apply elem_of_app. left.
      apply list_elem_of_omap. by exists (Some k).
    - by apply Hall. }
  destruct n as [body|name bases keywords body decos|name args body decos returns|
                 targets value|func args keywords|value attr|id|value|keys values|
                 children]; try (by apply Hgeneric).
  - cbn [visit]. apply Hgeneric.
    assert (∀ l self, (∀ c, c ∈ l → c ∈ body) → P self →
              P (fold_left (λ self item,
                   if is_INPUT_TYPES item
                   then generic_visit_with visit item self
                   else self) l self)) as Hitems.
    { induction l as [|item l IHl]; intros self' Hl HP'; simpl; [done|].
      apply IHl; [intros c Hc; apply Hl; by right|].
      destruct (is_INPUT_TYPES item) eqn:Hitem; [|done].
      destruct item as [| |iname iargs ibody idecos ireturns| | | | | | |]; try done.
      assert (FunctionDef iname iargs ibody idecos ireturns ∈
                iter_child_nodes (ClassDef name bases keywords body decos)) as Hin.
      { simpl. rewrite !elem_of_app. right. right. left. apply Hl. by left. }
      assert (∀ c self, c ∈ iter_child_nodes (FunctionDef iname iargs ibody idecos ireturns) →
                P self → P (visit c self)) as Hgrand.
      { intros c self'' Hc. apply IH.
        - unfold ltof. etrans; [by apply node_size_child|]. by apply node_size_child.
        - eapply inside_children; [|exact Hc]. by eapply inside_children. }
      simpl in Hgrand. simpl.
      destruct ireturns as [r|].
      - apply Hgrand; [rewrite elem_of_cons, !elem_of_app; right; right; right; by left|].
        apply visit_all_keeps;
          [intros; apply Hgrand; [rewrite elem_of_cons, !elem_of_app; by auto|done]|].
        apply visit_all_keeps;
          [intros; apply Hgrand; [rewrite elem_of_cons, !elem_of_app; by auto|done]|].
        apply Hgrand; [by left | done].
      - apply visit_all_keeps;
          [intros; apply Hgrand; [rewrite elem_of_cons, !elem_of_app; by auto|done]|].
        apply visit_all_keeps;
          [intros; apply Hgrand; [rewrite elem_of_cons, !elem_of_app; by auto|done]|].
        apply Hgrand; [by left | done]. }
    apply Hitems; [done|]. by apply (enter_class self name bases keywords body decos).
  - cbn [visit]. apply Hgeneric.
    destruct (folder_argument func args) as [folder_name|] eqn:Hfolder; [|done].
    by apply (record_call self func args keywords).
Qed.

End VisitorSoundness.

Section VisitorSoundnessProperties.
Import NodeVisitor.

(** X24. The visitor invents nothing: a class it has an entry for is the
    name of a class definition of the tree, and every folder of the entry is
    the literal first argument of a call of
    [folder_paths.get_filename_list] somewhere in the tree. *)
Theorem visitor_records_classes_and_calls_of_the_tree :
  ∀ (tree : node) (cls : string) (folders : ODict.t),
    class_folders (visit tree __init__) !! cls = Some folders →
    (∃ bases keywords body decorator_list,
       Props.inside tree (ClassDef cls bases keywords body decorator_list)) ∧
    ∀ folder_name, folder_name ∈ folders.*1 →
      ∃ func args keywords,
        Props.inside tree (Call func args keywords) ∧
        folder_argument func args = Some folder_name.
Proof.
  intros tree.
  set (is_class := λ cls, ∃ bases keywords body decorator_list,
         Props.inside tree (ClassDef cls bases keywords body decorator_list)).
  set (is_call := λ folder_name, ∃ func args keywords,
         Props.inside tree (Call func args keywords) ∧
         folder_argument func args = Some folder_name).
  set (P := λ self : NodeVisitor.t,
         (∀ cls, current_class self = Some cls → is_class cls) ∧
         ∀ cls folders, class_folders self !! cls = Some folders →
           is_class cls ∧ ∀ folder_name, folder_name ∈ folders.*1 → is_call folder_name).
  assert (P (visit tree __init__)) as [_ Hfolders].
  { apply (visit_keeps_inside (Props.inside tree) P).
    - intros n c Hn Hc. by apply (Props.inside_child tree n).
    - intros self name bases keywords body decos Hclass [Hcurrent Hfolders].
      split; [|done]. simpl. intros cls [= <-]. by exists bases, keywords, body, decos.
    - intros self func args keywords folder_name Hcall Hfolder.
      unfold record_folder.
      destruct (current_class self) as [current|] eqn:Hclass; [|done].
      destruct (Str.truthy current); [|done].
      intros [Hcurrent Hfolders]. split; simpl;
        [intros cls [= <-]; by apply Hcurrent|].
      intros cls folders. destruct (decide (current = cls)) as [->|Hne].
      + rewrite lookup_insert_eq. intros [= <-]. split; [by apply Hcurrent|].
        intros f. rewrite odict_set_keys.
        assert (∀ f, f ∈ (default [] (class_folders self !! cls)).*1 → is_call f)
          as Hold.
        { destruct (class_folders self !! cls) as [old|] eqn:Hold; simpl.
          - by apply (Hfolders cls old).
          - by intros f' ?%elem_of_nil. }
        destruct (decide _); [by apply Hold|].
        intros [? | ->%list_elem_of_singleton]%elem_of_app; [by apply Hold|].
        by exists func, args, keywords.
      + rewrite lookup_insert_ne by done. apply Hfolders.
    - constructor.
    - split; [done|]. intros cls folders Hl. simpl in Hl.
      by rewrite lookup_empty in Hl. }
  intros cls folders Hl. by apply (Hfolders cls folders).
Qed.

End VisitorSoundnessProperties.

Section VisitorSoundnessWitnesses.
Import NodeVisitor Examples.

(** The example class "Loader", whose [INPUT_TYPES] calls for "loras". *)
Lemma visitor_records_classes_and_calls_of_the_tree_witness :
  class_folders (visit (node_class_tree "loras") __init__) !! "Loader" =
    Some [("loras", "loras")] ∧
  (∃ bases keywords body decorator_list,
     Props.inside (node_class_tree "loras")
                  (ClassDef "Loader" bases keywords body decorator_list)) ∧
  ∀ folder_name, folder_name ∈ [("loras", "loras")].*1 →
    ∃ func args keywords,
      Props.inside (node_class_tree "loras") (Call func args keywords) ∧
      folder_argument func args = Some folder_name.
Proof.
  assert (class_folders (visit (node_class_tree "loras") __init__) !! "Loader" =
            Some [("loras", "loras")]) as Hentry by (by vm_compute).
  split; [exact Hentry|].
  exact (visitor_records_classes_and_calls_of_the_tree (node_class_tree "loras")
           "Loader" [("loras", "loras")] Hentry).
Defined.

End VisitorSoundnessWitnesses.

(** ** The class of a display name *)

Section Aliases.
Import ModelPathInference.
Variable ast_parse : string → option node.

(** X25. After [_load_node_class_mappings] got through every file, a
    display name resolves to the class of its last registration, in the
    order of the files and, within a file, of the walk and of the
    dictionary entries; a display name that no file registers resolves as
    before the call, to itself on a new object. *)
Theorem display_name_resolves_to_its_last_registration :
  ∀ (self : t) (tr : list event),
    Forall (λ file, Spec.loadable ast_parse file = true) (custom_nodes_path self) →
    let self' := (_load_node_class_mappings ast_parse (self, tr)).2.1 in
    let aliases := concat (Spec.file_aliases ast_parse <$> custom_nodes_path self) in
    (∀ display_name, display_name ∉ aliases.*1 →
       mapped_class self' display_name = mapped_class self display_name) ∧
    ∀ before display_name cls after,
      aliases = before ++ (display_name, cls) :: after →
      display_name ∉ after.*1 →
      mapped_class self' display_name = cls.
Proof.
  intros self tr Hfiles self' aliases.
  assert (node_class_mappings self' =
          Spec.assign_all aliases (node_class_mappings self)) as Hmappings.
  { unfold self', _load_node_class_mappings, Monad.try_except.
    rewrite (bind_inr Monad.get _ (self, tr) self (self, tr) eq_refl).
    by rewrite load_files_run. }
  unfold mapped_class. rewrite Hmappings. split.
  - intros display_name Hname. by rewrite assign_all_not_assigned.
  - intros before display_name cls after -> Hname. by rewrite assign_all_last.
Qed.

End Aliases.

Section AliasesWitnesses.
Import ModelPathInference Examples.

(** Two files that register "MyNode"; "Other" is registered by none. *)
Lemma display_name_resolves_to_its_last_registration_witness :
  let self := __init__ [mappings_py; hidden_py] in
  Forall (λ file, Spec.loadable ast_parse file = true) (custom_nodes_path self) ∧
  concat (Spec.file_aliases ast_parse <$> custom_nodes_path self) =
    [("MyNode", "ActualClass")] ++ ("MyNode", "ActualClass") :: [] ∧
  mapped_class (_load_node_class_mappings ast_parse (self, [])).2.1 "MyNode" =
    "ActualClass" ∧
  mapped_class (_load_node_class_mappings ast_parse (self, [])).2.1 "Other" = "Other".
Proof.
  intros self.
  assert (Forall (λ file, Spec.loadable ast_parse file = true) (custom_nodes_path self))
    as Hfiles by (repeat constructor).
  assert (concat (Spec.file_aliases ast_parse <$> custom_nodes_path self) =
            [("MyNode", "ActualClass")] ++ ("MyNode", "ActualClass") :: [])
    as Haliases by (by vm_compute).
  split; [exact Hfiles|]. split; [exact Haliases|].
  destruct (display_name_resolves_to_its_last_registration ast_parse self [] Hfiles)
    as [Hother Hlast].
  split.
  - exact (Hlast [("MyNode", "ActualClass")] "MyNode" "ActualClass" [] Haliases
             (not_elem_of_nil _)).
  - rewrite Hother; [reflexivity|]. rewrite Haliases. simpl.
    intros [?|[?|?%elem_of_nil]%elem_of_cons]%elem_of_cons; done.
Defined.

End AliasesWitnesses.

(** ** What the visitor does not miss *)

Section VisitOrder.
Import NodeVisitor.

Lemma visit_all_app (visit : node → t → t) l1 l2 self :
  visit_all visit (l1 ++ l2) self = visit_all visit l2 (visit_all visit l1 self).
Proof. unfold visit_all. apply fold_left_app. Qed.

(** [generic_visit] visits the children in the order of
    [iter_child_nodes]. *)
Lemma generic_visit_children (visit : node → t → t) n self :
  generic_visit_with visit n self = visit_all visit (iter_child_nodes n) self.
Proof.
  destruct n as [body|name bases keywords body decos|name args body decos returns|
                 targets value|func args keywords|value attr|id|value|keys values|
                 children]; cbn [generic_visit_with iter_child_nodes];
    rewrite ?visit_all_app; try done.
  - change (args :: body ++ decos ++ option_list returns)
      with ([args] ++ body ++ decos ++ option_list returns).
    rewrite !visit_all_app. by destruct returns.
  - change (func :: args ++ keywords) with ([func] ++ args ++ keywords).
    by rewrite !visit_all_app.
  - f_equal. clear values. revert self.
    induction keys as [|[k|] keys IH]; intros self; simpl; [done|apply IH..].
Qed.

Lemma visit_unfold n self :
  visit n self = visit_all visit (iter_child_nodes n) (Props.before_children n self).
Proof.
  rewrite <-generic_visit_children.
  destruct n as [body|name bases keywords body decos|name args body decos returns|
                 targets value|func args keywords|value attr|id|value|keys values|
                 children]; done.
Qed.

End VisitOrder.

Section Gains.
Import NodeVisitor.
Variable inside : node → Prop.
Variables P Q : NodeVisitor.t → Prop.
Hypothesis inside_children : ∀ n c, inside n → c ∈ iter_child_nodes n → inside c.
Hypothesis P_visit : ∀ n s, inside n → P s → P (visit n s).
Hypothesis Q_visit : ∀ n s, inside n → Q s → Q (visit n s).
Hypothesis P_before : ∀ n s, inside n → P s → P (Props.before_children n s).

Lemma visit_all_gains l c self :
  (∀ x, x ∈ l → inside x) → c ∈ l → (∀ s, P s → Q (visit c s)) → P self →
  Q (visit_all visit l self).
Proof.
  intros Hl Hc Hgain. revert self.
  induction l as [|x l IH]; intros self HP; [by apply elem_of_nil in Hc|].
  change (visit_all visit (x :: l) self) with (visit_all visit l (visit x self)).
  apply elem_of_cons in Hc as [<- | Hc].
  - apply visit_all_keeps; [|by apply Hgain].
    intros y s Hy. apply Q_visit, Hl. by right.
  - apply IH; [intros y Hy; apply Hl; by right | done|].
    apply P_visit; [apply Hl; by left | done].
Qed.

Lemma inside_closed n m : inside n → Props.inside n m → inside m.
Proof.
  intros Hn. induction 1 as [|m c Hm IH Hc]; [done|].
  by apply (inside_children m).
Qed.

(** What is gained by visiting a node of a tree is gained by visiting the
    tree. *)
Lemma visit_gains n m :
  inside n → Props.inside n m → (∀ s, P s → Q (visit m s)) →
  ∀ s, P s → Q (visit n s).
Proof.
  intros Hn. induction 1 as [|m c Hm IH Hc]; [done|].
  intros Hgain. apply IH. intros s HP. rewrite visit_unfold.
  assert (inside m) as Hinside by (by apply (inside_closed n)).
  apply (visit_all_gains _ c); [|done..|by apply P_before].
  intros x Hx. by apply (inside_children m).
Qed.

End Gains.

Section VisitorCompleteness.
Import NodeVisitor.
Variable tree : node.
Variable folder_name : string.
Hypothesis class_names :
  ∀ name bases keywords body decorator_list,
    Props.inside tree (ClassDef name bases keywords body decorator_list) → name ≠ "".

Lemma inside_tree_children n c :
  Props.inside tree n → c ∈ iter_child_nodes n → Props.inside tree c.
Proof. apply Props.inside_child. Qed.

Lemma record_folder_current f self :
  current_class (record_folder f self) = current_class self.
Proof.
  unfold record_folder. destruct (current_class self) as [cls|] eqn:Hcls; [|done].
  by destruct (Str.truthy cls).
Qed.

Lemma record_folder_recorded f self :
  Props.recorded folder_name self → Props.recorded folder_name (record_folder f self).
Proof.
  intros (cls & folders & Hl & Hin). unfold record_folder.
  destruct (current_class self) as [current|]; [|by exists cls, folders].
  destruct (Str.truthy current); [|by exists cls, folders].
  destruct (decide (current = cls)) as [->|Hne].
  - eexists cls, _. simpl. rewrite lookup_insert_eq, Hl. split; [done|].
    simpl. rewrite odict_set_keys. destruct (decide _); [done|].
    apply elem_of_app. by left.
  - exists cls, folders. simpl. by rewrite lookup_insert_ne.
Qed.

Lemma record_folder_records self :
  Props.in_class self → Props.recorded folder_name (record_folder folder_name self).
Proof.
  intros (cls & Hcls & Hne). unfold record_folder. rewrite Hcls.
  destruct cls as [|a cls]; [done|]. simpl.
  eexists (String a cls), _. simpl. rewrite lookup_insert_eq. split; [done|].
  rewrite odict_set_keys. destruct (decide _) as [|Hnin]; [done|].
  apply elem_of_app. right. by left.
Qed.

Lemma recorded_visit n self :
  Props.inside tree n → Props.recorded folder_name self →
  Props.recorded folder_name (visit n self).
Proof.
  apply (visit_keeps_inside (Props.inside tree) (Props.recorded folder_name)).
  - apply inside_tree_children.
  - by intros s name bases keywords body decos _.
  - intros s func args keywords f _ _. apply record_folder_recorded.
Qed.

Lemma in_class_visit n self :
  Props.inside tree n → Props.in_class self → Props.in_class (visit n self).
Proof.
  apply (visit_keeps_inside (Props.inside tree) Props.in_class).
  - apply inside_tree_children.
  - intros s name bases keywords body decos Hclass _. exists name.
    split; [done|]. by apply (class_names name bases keywords body decos).
  - intros s func args keywords f _ _ (cls & Hcls & Hne). exists cls.
    by rewrite record_folder_current.
Qed.

Lemma in_class_enter name bases keywords body decos self :
  Props.inside tree (ClassDef name bases keywords body decos) →
  Props.in_class (Props.before_children (ClassDef name bases keywords body decos) self).
Proof.
  intros Hclass. simpl.
  assert (Props.in_class (mk (class_folders self) (Some name))) as Hin.
  { exists name. split; [done|]. by apply (class_names name bases keywords body decos). }
  assert (∀ item, item ∈ body → Props.inside tree item) as Hbody.
  { intros item Hitem. apply (inside_tree_children _ _ Hclass). simpl.
    rewrite !elem_of_app. by auto. }
  revert Hin Hbody. generalize (mk (class_folders self) (Some name)) as s.
  clear Hclass. induction body as [|item body IH]; intros s Hin Hbody; simpl; [done|].
  apply IH; [|intros x Hx; apply Hbody; by right].
  destruct (is_INPUT_TYPES item); [|done].
  rewrite generic_visit_children. apply visit_all_keeps; [|done].
  intros c s' Hc. apply in_class_visit.
  apply (inside_tree_children item); [apply Hbody; by left | done].
Qed.

Lemma in_class_before n self :
  Props.inside tree n → Props.in_class self →
  Props.in_class (Props.before_children n self).
Proof.
  intros Hn Hin.
  destruct n as [body|name bases keywords body decos|name args body decos returns|
                 targets value|func args keywords|value attr|id|value|keys values|
                 children]; try done.
  - by apply in_class_enter.
  - simpl. destruct (folder_argument func args) as [f|]; [|done].
    destruct Hin as (cls & Hcls & Hne). exists cls. by rewrite record_folder_current.
Qed.

(** In a class, visiting a tree records the folder of each of its calls. *)
Lemma visit_records_call n func args keywords self :
  Props.inside tree n → Props.inside n (Call func args keywords) →
  folder_argument func args = Some folder_name →
  Props.in_class self → Props.recorded folder_name (visit n self).
Proof.
  intros Hn Hcall Hfolder.
  apply (visit_gains (Props.inside tree) Props.in_class (Props.recorded folder_name)
           inside_tree_children in_class_visit recorded_visit in_class_before
           n (Call func args keywords) Hn Hcall).
  intros s Hin. rewrite visit_unfold. cbn [Props.before_children]. rewrite Hfolder.
  apply visit_all_keeps; [|by apply record_folder_records].
  intros c s' Hc. apply recorded_visit.
  apply (inside_tree_children (Call func args keywords)); [|done].
  by apply (inside_closed (Props.inside tree) inside_tree_children n).
Qed.

Lemma visit_class_records_call cls bases keywords body decos func args kw self :
  Props.inside tree (ClassDef cls bases keywords body decos) →
  Props.inside (ClassDef cls bases keywords body decos) (Call func args kw) →
  folder_argument func args = Some folder_name →
  Props.recorded folder_name (visit (ClassDef cls bases keywords body decos) self).
Proof.
  intros Hclass Hcall Hfolder. rewrite visit_unfold.
  apply inside_inv in Hcall as [[=] | (c & Hc & Hcall)].
  apply (visit_all_gains (Props.inside tree) Props.in_class
           (Props.recorded folder_name) in_class_visit recorded_visit _ c).
  - intros x Hx. by apply (inside_tree_children _ _ Hclass).
  - done.
  - intros s Hin. apply (visit_records_call c func args kw); [|done..].
    by apply (inside_tree_children _ _ Hclass).
  - by apply in_class_enter.
Qed.

Lemma visit_tree_records_call cls bases keywords body decos func args kw self :
  Props.inside tree (ClassDef cls bases keywords body decos) →
  Props.inside (ClassDef cls bases keywords body decos) (Call func args kw) →
  folder_argument func args = Some folder_name →
  Props.recorded folder_name (visit tree self).
Proof.
  intros Hclass Hcall Hfolder.
  apply (visit_gains (Props.inside tree) (λ _, True) (Props.recorded folder_name)
           inside_tree_children (λ _ _ _ _, I) recorded_visit (λ _ _ _ _, I)
           tree (ClassDef cls bases keywords body decos)
           (Props.inside_root tree) Hclass); [|done].
  intros s _. by apply (visit_class_records_call cls bases keywords body decos
                          func args kw).
Qed.

End VisitorCompleteness.

Section VisitorCompletenessProperties.
Import ModelPathInference.


End VisitorCompletenessProperties.

Section VisitorCompletenessWitnesses.
Import ModelPathInference Examples.

Lemma inside_walk tree n : Props.inside tree n → n ∈ walk tree.
Proof.
  intros Hinside. unfold walk. apply walk_queue_elem; [simpl; lia|].
  exists tree. split; [by left | done].
Qed.

(** The classes of a tree have names, by looking at each node. *)
Lemma class_names_check tree :
  forallb (λ n, match n with
                | ClassDef name _ _ _ _ => Str.truthy name
                | _ => true
                end) (walk tree) = true →
  ∀ name bases keywords body decorator_list,
    Props.inside tree (ClassDef name bases keywords body decorator_list) → name ≠ "".
Proof.
  intros Hall name bases keywords body decos Hin%inside_walk%list_elem_of_In.
  rewrite forallb_forall in Hall. specialize (Hall _ Hin). simpl in Hall.
  by destruct name.
Qed.


End VisitorCompletenessWitnesses.

(** ** Registrations at any depth *)

Section Registrations.
Import ModelPathInference.
Variable ast_parse : string → option node.

Lemma elem_of_concat {A} (x : A) (ls : list (list A)) :
  x ∈ concat ls ↔ ∃ l, x ∈ l ∧ l ∈ ls.
Proof.
  induction ls as [|l ls IH]; simpl.
  - split; [by intros ?%elem_of_nil | by intros (l & _ & ?%elem_of_nil)].
  - rewrite elem_of_app, IH. split.
    + intros [Hx | (l' & Hx & Hl')]; [exists l; split; [done | by left]|].
      exists l'. split; [done | by right].
    + intros (l' & Hx & [-> | Hl']%elem_of_cons); [by left|]. right. by exists l'.
Qed.

Lemma assign_all_assigned aliases (m : gmap string string) k :
  k ∈ aliases.*1 → ∃ v, Spec.assign_all aliases m !! k = Some v ∧ (k, v) ∈ aliases.
Proof.
  induction aliases as [|[k' v'] aliases IH] using rev_ind; [by intros ?%elem_of_nil|].
  rewrite fmap_app, elem_of_app, assign_all_app. unfold Spec.assign_all at 1. simpl.
  destruct (decide (k' = k)) as [->|Hne].
  - intros _. exists v'. rewrite lookup_insert_eq. split; [done|].
    apply elem_of_app. right. by left.
  - intros [Hin | Hin%list_elem_of_singleton]; [|done].
    destruct (IH Hin) as (v & Hv & Hkv). exists v.
    rewrite lookup_insert_ne by done. split; [done|]. apply elem_of_app. by left.
Qed.

(** X27. After [_load_node_class_mappings] got through every file, every
    entry with a string key and an identifier value of a dictionary
    assigned to the single name NODE_CLASS_MAPPINGS is registered, wherever
    the assignment stands in the tree of its file, inside a function, a
    class or a block: the display name resolves to a class, that of the
    entry or of another registration of the same name. *)
Theorem registration_at_any_depth_is_loaded :
  ∀ (self : t) (tr : list event) (file : SourceFile) (content : string) (tree : node)
    (keys : list (option node)) (values : list node) (i : nat) (key value : string),
    Forall (λ file, Spec.loadable ast_parse file = true) (custom_nodes_path self) →
    file ∈ custom_nodes_path self →
    file_content file = Some content →
    Str.substring "NODE_CLASS_MAPPINGS" content →
    ast_parse content = Some tree →
    Props.inside tree (Assign [Name "NODE_CLASS_MAPPINGS"] (Dict keys values)) →
    keys !! i = Some (Some (Constant key)) →
    values !! i = Some (Name value) →
    let aliases := concat (Spec.file_aliases ast_parse <$> custom_nodes_path self) in
    (key, value) ∈ aliases ∧
    ∃ cls, node_class_mappings (_load_node_class_mappings ast_parse (self, tr)).2.1
             !! key = Some cls ∧
           (key, cls) ∈ aliases.
Proof.
  intros self tr file content tree keys values i key value Hfiles Hfile Hcontent
    Hmarker%contains_spec Hparse Hinside Hkey Hvalue aliases.
  assert ((key, value) ∈ aliases) as Hin.
  { unfold aliases. apply elem_of_concat. exists (Spec.file_aliases ast_parse file).
    split; [|by apply list_elem_of_fmap_2].
    unfold Spec.file_aliases. rewrite Hcontent, Hmarker, Hparse. simpl.
    unfold Spec.tree_aliases. apply elem_of_concat.
    exists (Spec.node_aliases (Assign [Name "NODE_CLASS_MAPPINGS"] (Dict keys values))).
    split; [|by apply list_elem_of_fmap_2, inside_walk].
    simpl. apply list_elem_of_omap.
    exists (Some (Constant key), Name value). split; [|done].
    apply list_elem_of_lookup. exists i. by apply lookup_zip_with_Some; eauto. }
  split; [done|].
  assert (node_class_mappings (_load_node_class_mappings ast_parse (self, tr)).2.1 =
          Spec.assign_all aliases (node_class_mappings self)) as ->.
  { unfold _load_node_class_mappings, Monad.try_except.
    rewrite (bind_inr Monad.get _ (self, tr) self (self, tr) eq_refl).
    by rewrite load_files_run. }
  apply assign_all_assigned. apply list_elem_of_fmap. by exists (key, value).
Qed.

End Registrations.

Section RegistrationsWitnesses.
Import ModelPathInference Examples.

Lemma registration_at_any_depth_is_loaded_witness :
  let self := __init__ [mappings_py] in
  Forall (λ file, Spec.loadable ast_parse file = true) (custom_nodes_path self) ∧
  Str.substring "NODE_CLASS_MAPPINGS" mappings_text ∧
  Props.inside mappings_tree
    (Assign [Name "NODE_CLASS_MAPPINGS"]
            (Dict [Some (Constant "MyNode")] [Name "ActualClass"])) ∧
  ("MyNode", "ActualClass") ∈
    concat (Spec.file_aliases ast_parse <$> custom_nodes_path self) ∧
  ∃ cls, node_class_mappings (_load_node_class_mappings ast_parse (self, [])).2.1
           !! "MyNode" = Some cls ∧
         ("MyNode", cls) ∈
           concat (Spec.file_aliases ast_parse <$> custom_nodes_path self).
Proof.
  intros self.
  assert (Forall (λ file, Spec.loadable ast_parse file = true) (custom_nodes_path self))
    as Hfiles by (repeat constructor).
  assert (Str.substring "NODE_CLASS_MAPPINGS" mappings_text) as Hmarker.
  { by apply contains_spec. }
  assert (Props.inside mappings_tree
            (Assign [Name "NODE_CLASS_MAPPINGS"]
                    (Dict [Some (Constant "MyNode")] [Name "ActualClass"]))) as Hinside.
  { apply (Props.inside_child _ mappings_tree); [constructor | by left]. }
  split; [exact Hfiles|]. split; [exact Hmarker|]. split; [exact Hinside|].
  exact (registration_at_any_depth_is_loaded ast_parse self [] mappings_py
           mappings_text mappings_tree [Some (Constant "MyNode")] [Name "ActualClass"]
           0 "MyNode" "ActualClass" Hfiles (list_elem_of_here _ _) eq_refl Hmarker
           eq_refl Hinside eq_refl eq_refl).
Defined.

End RegistrationsWitnesses.

(** ** What a call never undoes *)

Section Frame.
Import ModelPathInference.
Variable ast_parse : string → option node.
Variable str_lower : string → string.
Variable P : t → Prop.
Hypothesis P_mappings : ∀ key value self, P self → P (set_node_class_mappings <[key := value]> self).
Hypothesis P_required : ∀ required self, P self → P (set_required_node_types required self).
Hypothesis P_folders :
  ∀ class_folders self, P self → P (set_node_class_folders (λ m, class_folders ∪ m) self).

Lemma load_node_class_mappings_frame :
  Props.keeps P (_load_node_class_mappings ast_parse) (λ _, True).
Proof.
  apply keeps_try; [|intros e; apply keeps_emit].
  eapply keeps_bind; [apply keeps_get|]. intros self _.
  apply keeps_for. intros file _. unfold load_file.
  eapply keeps_bind; [apply read_keeps|]. intros content _.
  destruct (negb _); [by apply keeps_ret|].
  eapply keeps_bind; [apply parse_keeps|]. intros tree _.
  apply keeps_for. intros n _.
  repeat case_match; try by apply keeps_ret.
  apply keeps_for. intros kv _.
  repeat case_match; try by apply keeps_ret.
  apply keeps_modify. intros s. apply P_mappings.
Qed.

Lemma analyze_node_classes_frame :
  Props.keeps P (_analyze_node_classes ast_parse) (λ _, True).
Proof.
  unfold _analyze_node_classes.
  eapply keeps_bind; [apply keeps_get|]. intros self _.
  eapply keeps_bind; [apply keeps_for_list; intros file _; apply analyze_file_keeps|].
  intros results _. clear self.
  induction results as [|class_folders results IH]; simpl; [by apply keeps_ret|].
  eapply keeps_bind; [apply keeps_modify; intros s; apply P_folders|]. intros _ _.
  eapply keeps_bind; [apply keeps_get|]. intros self _.
  destruct (_ && _); [by apply keeps_ret | apply IH].
Qed.

Lemma infer_model_paths_frame models_data :
  Props.keeps P (infer_model_paths ast_parse str_lower models_data) (λ _, True).
Proof.
  unfold infer_model_paths.
  eapply keeps_bind; [apply load_node_class_mappings_frame|]. intros _ _.
  eapply keeps_bind; [apply keeps_get|]. intros self _.
  eapply keeps_bind.
  { apply keeps_for_list with (Q := λ _, True). intros model _.
    eapply keeps_bind with (Q := λ _, True); [|intros; by apply keeps_ret].
    unfold get_needed_by.
    destruct (Manifest.needed_by model); [by apply keeps_ret | apply keeps_raise]. }
  intros required _.
  eapply keeps_bind; [apply keeps_modify; intros s; apply P_required|]. intros _ _.
  eapply keeps_bind; [apply analyze_node_classes_frame|]. intros _ _.
  eapply keeps_weaken; [apply keeps_for_list; intros model _; apply infer_model_keeps|].
  done.
Qed.

End Frame.

Section FrameProperties.
Import ModelPathInference.

(** X28. A call of [infer_model_paths], whether it returns or raises,
    undoes nothing: the source listing of the object is as before, and
    every class of the ClassFolderMap and every display name of the
    AliasTable that had an entry before the call has one after it. *)
Theorem infer_model_paths_removes_no_entry :
  ∀ (ast_parse : string → option node) (str_lower : string → string)
    (models_data : Manifest.t) (self : t),
    let self' := (run (infer_model_paths ast_parse str_lower models_data) self).2.1 in
    custom_nodes_path self' = custom_nodes_path self ∧
    (∀ cls, is_Some (node_class_folders self !! cls) →
            is_Some (node_class_folders self' !! cls)) ∧
    (∀ display_name, is_Some (node_class_mappings self !! display_name) →
                     is_Some (node_class_mappings self' !! display_name)).
Proof.
  intros ast_parse str_lower models_data self self'.
  set (P := λ s : t,
         custom_nodes_path s = custom_nodes_path self ∧
         (∀ cls, is_Some (node_class_folders self !! cls) →
                 is_Some (node_class_folders s !! cls)) ∧
         (∀ display_name, is_Some (node_class_mappings self !! display_name) →
                          is_Some (node_class_mappings s !! display_name))).
  assert (∀ key value s, P s → P (set_node_class_mappings <[key := value]> s))
    as P_mappings.
  { intros key value s (Hfiles & Hfolders & Hmappings). split_and!; [done..|].
    intros display_name Hsome. simpl.
    destruct (decide (key = display_name)) as [->|Hne].
    - rewrite lookup_insert_eq. by eexists.
    - rewrite lookup_insert_ne by done. by apply Hmappings. }
  assert (∀ required s, P s → P (set_required_node_types required s)) as P_required.
  { by intros required s (Hfiles & Hfolders & Hmappings). }
  assert (∀ class_folders s,
            P s → P (set_node_class_folders (λ m, class_folders ∪ m) s)) as P_folders.
  { intros class_folders s (Hfiles & Hfolders & Hmappings). split_and!; [done| |done].
    intros cls Hsome. simpl. rewrite lookup_union.
    destruct (Hfolders cls Hsome) as [folders ->].
    by destruct (class_folders !! cls); eexists. }
  assert (P self) as Hself by (by split_and!).
  assert (P self') as HP; [|exact HP].
  unfold self', run.
  destruct (infer_model_paths _ _ _ _) as [r w'] eqn:Hrun.
  by destruct (infer_model_paths_frame ast_parse str_lower P P_mappings P_required
                 P_folders models_data (self, []) r w' Hrun Hself).
Qed.

End FrameProperties.
